(** * CLIProxyAPI: schema normalizer and Claude -> Antigravity request translation

    A shallow embedding of
    - [internal/util/gemini_schema_optimized.go] (the single-pass JSON Schema
      cleaner and its cache), and
    - [internal/translator/antigravity/claude/antigravity_claude_request_v2.go]
      and [antigravity_claude_request_optimized.go] (the request translators),
    followed by the properties established about them.

    Go values of type [interface{}] coming out of a JSON decoder are modelled
    by the inductive type [json]; a Go [map[string]interface{}] is a
    [gmap string json], whose extensional equality abstracts from Go's
    unspecified iteration order.  Code that can panic returns in the [res]
    monad. *)

From stdpp Require Import gmap strings list fin_maps sorting pretty.
From Stdlib Require Import ZArith Ascii.

#[local] Set Warnings "-register-all".
#[local] Open Scope string_scope.
#[local] Open Scope list_scope.

(** ** Go values *)

(** The decoder yields [float64] for every JSON number.  Only two operations
    on it are used by the code: printing with the [%v] verb and truncation to
    [int]; both are library code, taken as an interface. *)
Class Float64 (F : Type) := {
  formatFloat : F -> string;   (* fmt's %v on a float64 *)
  floatToInt : F -> Z          (* int(x) / gjson's Result.Int *)
}.

Inductive json (F : Type) : Type :=
  | JNull
  | JBool (b : bool)
  | JNum (n : F)
  | JStr (s : string)
  | JArr (l : list (json F))
  | JObj (m : gmap string (json F)).
Arguments JNull {F}.
Arguments JBool {F} b.
Arguments JNum {F} n.
Arguments JStr {F} s.
Arguments JArr {F} l.
Arguments JObj {F} m.

(** Outcome of code that may panic.  [OutOfFuel] is an artefact of the
    recursion bound of [cleanSchemaRecursive] below and never a behaviour of
    the program. *)
Inductive fault : Type := TypeAssertionPanic | OutOfFuel.

Inductive res (A : Type) : Type :=
  | Ok (a : A)
  | Fail (e : fault).
Arguments Ok {A} a.
Arguments Fail {A} e.

#[global] Instance res_ret : MRet res := fun _ a => Ok a.
#[global] Instance res_bind : MBind res := fun _ _ f m =>
  match m with Ok a => f a | Fail e => Fail e end.

(** ** The pieces of Go's [strings] and [fmt] packages that the code calls *)

Module strings.

(** [strings.Join]. *)
Definition Join (elems : list string) (sep : string) : string :=
  String.concat sep elems.

(** [strings.Split(s, sep)] for a one-byte separator: always at least one
    element, the empty string included. *)
Fixpoint Split (s : string) (sep : Ascii.ascii) : list string :=
  match s with
  | EmptyString => [EmptyString]
  | String c s' =>
      if Ascii.eqb c sep then EmptyString :: Split s' sep
      else match Split s' sep with
           | [] => [String c EmptyString]
           | x :: xs => String c x :: xs
           end
  end.

(** [strings.SplitN(s, sep, 2)] for a one-byte separator. *)
Fixpoint SplitN2 (s : string) (sep : Ascii.ascii) : list string :=
  match s with
  | EmptyString => [EmptyString]
  | String c s' =>
      if Ascii.eqb c sep then [EmptyString; s']
      else match SplitN2 s' sep with
           | [] => [String c EmptyString]
           | x :: xs => String c x :: xs
           end
  end.

(** [strings.Contains]. *)
Definition Contains (s substr : string) : bool :=
  match String.index 0 substr s with Some _ => true | None => false end.

(** [strings.LastIndex(s, sep)] for a one-byte separator; [-1] when absent. *)
Fixpoint LastIndex (s : string) (sep : Ascii.ascii) : Z :=
  match s with
  | EmptyString => (-1)%Z
  | String c s' =>
      let r := LastIndex s' sep in
      if (0 <=? r)%Z then (r + 1)%Z
      else if Ascii.eqb c sep then 0%Z else (-1)%Z
  end.

(** The slice expression [s[n:]]. *)
Definition from (n : nat) (s : string) : string :=
  String.substring n (String.length s - n) s.

End strings.

Module fmt.

Definition key_le (a b : string * string) : Prop := String.leb a.1 b.1 = true.

#[global] Instance key_le_dec a b : Decision (key_le a b).
Proof. unfold key_le. apply _. Defined.

(** [fmt.Sprint(v)], which is also what the [%v] verb prints, on decoded JSON:
    [<nil>], [true]/[false], the float, the bare string, [[a b c]] for a
    slice and [map[k:v ...]] with the keys sorted for a map. *)
Fixpoint Sprint {F} `{Float64 F} (v : json F) : string :=
  match v with
  | JNull => "<nil>"
  | JBool b => if b then "true" else "false"
  | JNum n => formatFloat n
  | JStr s => s
  | JArr l => "[" +:+ strings.Join (map Sprint l) " " +:+ "]"
  | JObj m =>
      "map[" +:+
      strings.Join
        (map (fun kv : string * string => kv.1 +:+ ":" +:+ kv.2)
             (merge_sort key_le (map_to_list (Sprint <$> m)))) " "
      +:+ "]"
  end.

End fmt.


(** ** internal/util/gemini_schema_optimized.go: the tree rewriter *)

Module util.

Section schema.
Context {F : Type} `{Float64 F}.

(** Go's comma-ok type assertions [x.(string)], [x.([]interface{})],
    [x.(map[string]interface{})] and [x.(bool)] on the result of a map
    lookup; a missing key fails every assertion. *)
Definition asString (x : option (json F)) : option string :=
  match x with Some (JStr s) => Some s | _ => None end.

Definition asSlice (x : option (json F)) : option (list (json F)) :=
  match x with Some (JArr l) => Some l | _ => None end.

Definition asMap (x : option (json F)) : option (gmap string (json F)) :=
  match x with Some (JObj m) => Some m | _ => None end.

Definition asBool (x : option (json F)) : option bool :=
  match x with Some (JBool b) => Some b | _ => None end.

(** [cleanContext] holds state during the single-pass traversal:
    objectPath -> []fieldName. *)
Record cleanContext : Type := CleanContext {
  nullableFields : gmap string (list string)
}.

Definition appendHintToNode (node : gmap string (json F)) (hint : string)
  : gmap string (json F) :=
  let existing := default "" (asString (node !! "description")) in
  if decide (existing <> "")
  then <["description" := JStr (existing +:+ " (" +:+ hint +:+ ")")]> node
  else <["description" := JStr hint]> node.

Definition buildPath (parent key : string) : string :=
  if decide (parent = "") then key else parent +:+ "." +:+ key.

Fixpoint stringSliceContains (slice : list string) (item : string) : bool :=
  match slice with
  | [] => false
  | s :: rest => if decide (s = item) then true else stringSliceContains rest item
  end.

(** [navigateToPath]; [None] is Go's nil map. *)
Fixpoint navigateParts (current : gmap string (json F)) (parts : list string)
  : option (gmap string (json F)) :=
  match parts with
  | [] => Some current
  | part :: rest =>
      if decide (part = "") then navigateParts current rest
      else match asMap (current !! part) with
           | Some next => navigateParts next rest
           | None => None
           end
  end.

Definition navigateToPath (schema : gmap string (json F)) (path : string)
  : option (gmap string (json F)) :=
  if decide (path = "") then Some schema
  else navigateParts schema (strings.Split path "."%char).

(** The map returned by [navigateToPath] is a reference into the tree:
    writing to it changes the tree at that position.  [storeParts] is that
    write, seen from the root. *)
Fixpoint storeParts (current : gmap string (json F)) (parts : list string)
    (new : gmap string (json F)) : gmap string (json F) :=
  match parts with
  | [] => new
  | part :: rest =>
      if decide (part = "") then storeParts current rest new
      else match asMap (current !! part) with
           | Some next => <[part := JObj (storeParts next rest new)]> current
           | None => current
           end
  end.

Definition storeAtPath (schema : gmap string (json F)) (path : string)
    (new : gmap string (json F)) : gmap string (json F) :=
  if decide (path = "") then new
  else storeParts schema (strings.Split path "."%char) new.

(** The strings among the elements of a decoded array, in order
    ([if str, ok := r.(string); ok]). *)
Definition stringsOf (l : list (json F)) : list string :=
  omap (fun r => asString (Some r)) l.

(** [mergeAllOfInPlace] merges allOf schemas into the parent node.  The
    unchecked assertion [parent["properties"].(map[string]interface{})]
    panics when [properties] is present and not a map. *)
Definition mergeAllOfInPlace (parent : gmap string (json F))
    (allOf : list (json F)) : res (gmap string (json F)) :=
  let parent :=
    if decide (is_Some (parent !! "properties")) then parent
    else <["properties" := JObj ∅]> parent in
  match asMap (parent !! "properties") with
  | None => Fail TypeAssertionPanic
  | Some props =>
      let allRequired :=
        match asSlice (parent !! "required") with
        | Some reqArr => stringsOf reqArr
        | None => []
        end in
      let '(props, allRequired) :=
        foldl (fun (st : gmap string (json F) * list string) item =>
                 let '(props, allRequired) := st in
                 match item with
                 | JObj itemObj =>
                     let props :=
                       match asMap (itemObj !! "properties") with
                       | Some itemProps => itemProps ∪ props
                       | None => props
                       end in
                     let allRequired :=
                       match asSlice (itemObj !! "required") with
                       | Some itemReq =>
                           foldl (fun acc str =>
                                    if stringSliceContains acc str then acc
                                    else acc ++ [str])
                                 allRequired (stringsOf itemReq)
                       | None => allRequired
                       end in
                     (props, allRequired)
                 | _ => st
                 end)
              (props, allRequired) allOf in
      let parent := <["properties" := JObj props]> parent in
      Ok (if decide (0 < length allRequired)
          then <["required" := JArr (JStr <$> allRequired)]> parent
          else parent)
  end.

(** [selectBestSchema] picks the "best" schema from a union (prefers
    object > array > other).  The loop state is (bestScore, bestIdx, types). *)
Definition selectBestSchema (items : list (json F)) : Z * list string :=
  let '(_, bestIdx, types) :=
    foldl (fun (st : Z * Z * list string) (it : nat * json F) =>
             let '(bestScore, bestIdx, types) := st in
             let '(i, item) := it in
             match item with
             | JObj itemObj =>
                 let t := default "" (asString (itemObj !! "type")) in
                 let notNil k :=
                   match itemObj !! k with
                   | None | Some JNull => false
                   | Some _ => true
                   end in
                 let '(score, t) :=
                   if bool_decide (t = "object") || notNil "properties"
                   then (3%Z, if decide (t = "") then "object" else t)
                   else if bool_decide (t = "array") || notNil "items"
                   then (2%Z, if decide (t = "") then "array" else t)
                   else if bool_decide (t <> "") && bool_decide (t <> "null")
                   then (1%Z, t)
                   else (0%Z, if decide (t = "") then "null" else t) in
                 let types :=
                   if bool_decide (t <> "") && negb (stringSliceContains types t)
                   then types ++ [t] else types in
                 if decide (bestScore < score)%Z
                 then (score, Z.of_nat i, types)
                 else (bestScore, bestIdx, types)
             | _ => st
             end)
          ((-1)%Z, 0%Z, []) (imap (fun i item => (i, item)) items) in
  (bestIdx, types).

(** [flattenUnionInPlace] flattens anyOf/oneOf into a single schema. *)
Definition flattenUnionInPlace (parent : gmap string (json F))
    (arr : list (json F)) (unionType : string) : gmap string (json F) :=
  if decide (length arr = 0) then parent else
  let parentDesc := default "" (asString (parent !! "description")) in
  let '(bestIdx, allTypes) := selectBestSchema arr in
  let bestIdx :=
    if decide (bestIdx < 0 \/ Z.of_nat (length arr) <= bestIdx)%Z
    then 0%Z else bestIdx in
  match asMap (arr !! Z.to_nat bestIdx) with
  | None => parent
  | Some best =>
      let parent :=
        map_fold (fun k v (parent : gmap string (json F)) =>
                    if decide (k = "description") then
                      match v with
                      | JStr childDesc =>
                          if decide (parentDesc <> "" /\ childDesc <> ""
                                     /\ childDesc <> parentDesc)
                          then <["description" :=
                                   JStr (parentDesc +:+ " (" +:+ childDesc +:+ ")")]>
                                 parent
                          else if decide (childDesc <> "")
                          then <["description" := JStr childDesc]> parent
                          else parent
                      | _ => parent
                      end
                    else <[k := v]> parent)
                 parent best in
      if decide (1 < length allTypes)
      then appendHintToNode parent ("Accepts: " +:+ strings.Join allTypes " | ")
      else parent
  end.

(** The loop [for i := 0; i < len(parts)-1; i++] of
    [handleTypeArrayInPlace], from index [i] on, [done] being [parts[:i]]
    in reverse: the first segment equal to "properties" that has a successor
    gives (objectPath, fieldName). *)
Fixpoint firstPropertiesSegment (done parts : list string)
  : option (string * string) :=
  match parts with
  | part :: ((fieldName :: _) as rest) =>
      if decide (part = "properties")
      then Some (strings.Join (rev done) ".", fieldName)
      else firstPropertiesSegment (part :: done) rest
  | _ => None
  end.

(** [handleTypeArrayInPlace] flattens type arrays
    (e.g., ["string", "null"] -> "string"). *)
Definition handleTypeArrayInPlace (node : gmap string (json F))
    (typeArr : list (json F)) (path : string) (ctx : cleanContext)
  : gmap string (json F) * cleanContext :=
  let '(nonNullTypes, hasNull) :=
    foldl (fun (st : list string * bool) t =>
             let '(nonNullTypes, hasNull) := st in
             match t with
             | JStr tStr =>
                 if decide (tStr = "null") then (nonNullTypes, true)
                 else if decide (tStr <> "")
                 then (nonNullTypes ++ [tStr], hasNull)
                 else st
             | _ => st
             end)
          ([], false) typeArr in
  let firstType := default "string" (head nonNullTypes) in
  let node := <["type" := JStr firstType]> node in
  let node :=
    if decide (1 < length nonNullTypes)
    then appendHintToNode node ("Accepts: " +:+ strings.Join nonNullTypes " | ")
    else node in
  if hasNull && strings.Contains path ".properties." then
    let node := appendHintToNode node "(nullable)" in
    match firstPropertiesSegment [] (strings.Split path "."%char) with
    | Some (objectPath, fieldName) =>
        let fields := default [] (nullableFields ctx !! objectPath) in
        (node,
         CleanContext
           (<[objectPath := (fields ++ [fieldName])]> (nullableFields ctx)))
    | None => (node, ctx)
    end
  else (node, ctx).

(** The body of the loop of [applyNullableFields] for one entry of
    [ctx.nullableFields]. *)
Definition applyNullableEntry (objectPath : string) (fields : list string)
    (schema : gmap string (json F)) : gmap string (json F) :=
  match navigateToPath schema objectPath with
  | None => schema
  | Some obj =>
      match asSlice (obj !! "required") with
      | Some reqArr =>
          let filtered :=
            filter (fun r => Is_true
                               match r with
                               | JStr rStr => negb (stringSliceContains fields rStr)
                               | _ => false
                               end) reqArr in
          storeAtPath schema objectPath
            (if decide (length filtered = 0) then delete "required" obj
             else <["required" := JArr filtered]> obj)
      | None => schema
      end
  end.

(** [applyNullableFields] removes nullable fields from required arrays. *)
Definition applyNullableFields (ctx : cleanContext)
    (schema : gmap string (json F)) : gmap string (json F) :=
  map_fold applyNullableEntry schema (nullableFields ctx).

(** The two synthetic property schemas of [handleEmptyObjectSchema]. *)
Definition reasonPlaceholder : json F :=
  JObj (<["type" := JStr "string"]>
        (<["description" :=
             JStr "Brief explanation of why you are calling this tool"]> ∅)).

Definition underscorePlaceholder : json F :=
  JObj (<["type" := JStr "boolean"]> ∅).

(** [handleEmptyObjectSchema] adds placeholder properties to empty objects.
    [props] aliases [node["properties"]], so a write to it is a write to the
    node. *)
Definition handleEmptyObjectSchema (node : gmap string (json F))
    (path : string) : gmap string (json F) :=
  let withReason props :=
    <["required" := JArr [JStr "reason"]]>
      (<["properties" := JObj (<["reason" := reasonPlaceholder]> props)]> node) in
  match asMap (node !! "properties") with
  | None => withReason ∅
  | Some props =>
      if decide (size props = 0) then withReason props
      else
        let hasRequired :=
          match asSlice (node !! "required") with
          | Some req => bool_decide (0 < length req)
          | None => false
          end in
        if bool_decide (0 < size props) && negb hasRequired
           && bool_decide (path <> "")
        then
          let props :=
            if decide (is_Some (props !! "_")) then props
            else <["_" := underscorePlaceholder]> props in
          <["required" := JArr [JStr "_"]]> (<["properties" := JObj props]> node)
        else node
  end.

(** [cleanupRequiredInPlace] removes non-existent fields from required
    array. *)
Definition cleanupRequiredInPlace (node : gmap string (json F))
  : gmap string (json F) :=
  match asSlice (node !! "required"), asMap (node !! "properties") with
  | Some reqArr, Some props =>
      let valid :=
        filter (fun r => Is_true
                           match r with
                           | JStr rStr => bool_decide (is_Some (props !! rStr))
                           | _ => false
                           end) reqArr in
      if decide (length valid <> length reqArr) then
        if decide (length valid = 0) then delete "required" node
        else <["required" := JArr valid]> node
      else node
  | _, _ => node
  end.

Definition unsupportedKeys : list string :=
  [ "minLength"; "maxLength"; "exclusiveMinimum"; "exclusiveMaximum";
    "pattern"; "minItems"; "maxItems"; "format"; "default"; "examples" ].

Definition removeKeys : list string :=
  [ "$schema"; "$defs"; "definitions"; "$ref"; "$id"; "propertyNames";
    "patternProperties"; "enumTitles"; "prefill" ].

(** Step 1 of [processObjectNode]: the node that replaces one with a string
    [$ref]. *)
Definition refDefName (refVal : string) : string :=
  let idx := strings.LastIndex refVal "/" in
  if decide (0 <= idx)%Z then strings.from (Z.to_nat (idx + 1)) refVal
  else refVal.

Definition refReplacement (node : gmap string (json F)) (refVal : string)
  : gmap string (json F) :=
  let defName := refDefName refVal in
  let hint := "See: " +:+ defName in
  let hint :=
    match asString (node !! "description") with
    | Some existing =>
        if decide (existing <> "") then existing +:+ " (" +:+ hint +:+ ")"
        else hint
    | None => hint
    end in
  <["description" := JStr hint]> (<["type" := JStr "object"]> ∅).

(** Steps 2 to 11 of [processObjectNode], in the order of the source. *)
Definition constToEnum (node : gmap string (json F)) : gmap string (json F) :=
  match node !! "const" with
  | Some constVal =>
      let node :=
        if decide (is_Some (node !! "enum")) then node
        else <["enum" := JArr [constVal]]> node in
      delete "const" node
  | None => node
  end.

Definition stringifyEnum (node : gmap string (json F)) : gmap string (json F) :=
  match asSlice (node !! "enum") with
  | Some enumVal =>
      let stringEnum := (fun v => JStr (fmt.Sprint v)) <$> enumVal in
      let node := <["enum" := JArr stringEnum]> node in
      if bool_decide (1 < length stringEnum)
         && bool_decide (length stringEnum <= 10)
      then
        let vals := fmt.Sprint <$> stringEnum in
        appendHintToNode node ("Allowed: " +:+ strings.Join vals ", ")
      else node
  | None => node
  end.

Definition dropAdditionalProperties (node : gmap string (json F))
  : gmap string (json F) :=
  match node !! "additionalProperties" with
  | Some addProps =>
      let node :=
        match asBool (Some addProps) with
        | Some false => appendHintToNode node "No extra properties allowed"
        | _ => node
        end in
      delete "additionalProperties" node
  | None => node
  end.

Definition demoteUnsupported (node : gmap string (json F))
  : gmap string (json F) :=
  foldl (fun (node : gmap string (json F)) key =>
           match node !! key with
           | Some (JObj _) | Some (JArr _) | None => node
           | Some val =>
               delete key
                 (appendHintToNode node (key +:+ ": " +:+ fmt.Sprint val))
           end)
        node unsupportedKeys.

Definition mergeAllOf (node : gmap string (json F))
  : res (gmap string (json F)) :=
  match asSlice (node !! "allOf") with
  | Some allOf =>
      node ← mergeAllOfInPlace node allOf;
      mret (delete "allOf" node)
  | None => mret node
  end.

Definition flattenUnions (node : gmap string (json F)) : gmap string (json F) :=
  foldl (fun (node : gmap string (json F)) key =>
           match asSlice (node !! key) with
           | Some arr =>
               if decide (0 < length arr)
               then delete key (flattenUnionInPlace node arr key)
               else node
           | None => node
           end)
        node ["anyOf"; "oneOf"].

Definition flattenTypeArray (node : gmap string (json F)) (path : string)
    (ctx : cleanContext) : gmap string (json F) * cleanContext :=
  match asSlice (node !! "type") with
  | Some typeVal =>
      if decide (0 < length typeVal)
      then handleTypeArrayInPlace node typeVal path ctx
      else (node, ctx)
  | None => (node, ctx)
  end.

Definition placeholderIfObject (node : gmap string (json F)) (path : string)
  : gmap string (json F) :=
  match asString (node !! "type") with
  | Some typeStr =>
      if decide (typeStr = "object") then handleEmptyObjectSchema node path
      else node
  | None => node
  end.

Definition removeUnsupportedKeywords (node : gmap string (json F))
  : gmap string (json F) :=
  foldl (fun node key => delete key node) node removeKeys.

(** [processObjectNode] applies all transformations to a single object node
    in one pass. *)
Definition processObjectNode (node : gmap string (json F)) (path : string)
    (ctx : cleanContext) : res (gmap string (json F) * cleanContext) :=
  match asString (node !! "$ref") with
  | Some refVal => mret (refReplacement node refVal, ctx)
  | None =>
      let node := constToEnum node in
      let node := stringifyEnum node in
      let node := dropAdditionalProperties node in
      let node := demoteUnsupported node in
      node ← mergeAllOf node;
      let node := flattenUnions node in
      let '(node, ctx) := flattenTypeArray node path ctx in
      let node := placeholderIfObject node path in
      let node := cleanupRequiredInPlace node in
      mret (removeUnsupportedKeywords node, ctx)
  end.

(** The loop [for key, child := range v] of [cleanSchemaRecursive]: every
    child is rewritten in place, the context is threaded through. *)
Definition rangeChildren
    (rec : json F -> string -> cleanContext -> res (json F * cleanContext))
    (v : gmap string (json F)) (path : string) (ctx : cleanContext)
  : res (gmap string (json F) * cleanContext) :=
  map_fold (fun key child (acc : res (gmap string (json F) * cleanContext)) =>
              '(v, ctx) ← acc;
              '(child, ctx) ← rec child (buildPath path key) ctx;
              mret (<[key := child]> v, ctx))
           (Ok (v, ctx)) v.

(** The loop [for i, child := range v] over an array, from index [i] on. *)
Fixpoint rangeElements
    (rec : json F -> string -> cleanContext -> res (json F * cleanContext))
    (v : list (json F)) (path : string) (i : nat) (ctx : cleanContext)
  : res (list (json F) * cleanContext) :=
  match v with
  | [] => mret ([], ctx)
  | child :: rest =>
      '(child, ctx) ← rec child (path +:+ "[" +:+ pretty i +:+ "]") ctx;
      '(rest, ctx) ← rangeElements rec rest path (S i) ctx;
      mret (child :: rest, ctx)
  end.

(** [cleanSchemaRecursive] performs a single-pass traversal and applies all
    transformations.  The children visited are those of the node after
    [processObjectNode] has rewritten it, so the recursion is bounded by
    [fuel], one unit per level of nesting. *)
Fixpoint cleanSchemaRecursive (fuel : nat) (node : json F) (path : string)
    (ctx : cleanContext) : res (json F * cleanContext) :=
  match node with
  | JObj v =>
      match fuel with
      | 0 => Fail OutOfFuel
      | S fuel =>
          '(v, ctx) ← processObjectNode v path ctx;
          '(v, ctx) ← rangeChildren (cleanSchemaRecursive fuel) v path ctx;
          mret (JObj v, ctx)
      end
  | JArr v =>
      match fuel with
      | 0 => Fail OutOfFuel
      | S fuel =>
          '(v, ctx) ← rangeElements (cleanSchemaRecursive fuel) v path 0 ctx;
          mret (JArr v, ctx)
      end
  | _ => mret (node, ctx)
  end.

(** A bound on the depth that the traversal reaches below a value.  It is
    the nesting depth, where an entry counts for 2 when it can make its
    object an object-typed node ([type] an array or "object", a union
    keyword with an array), since such a node may receive a placeholder
    property two levels deep, and a [const] counts for 1, since it becomes a
    one-element [enum]. *)
Definition keyBound (key : string) (v : json F) : nat :=
  if decide (key = "type") then
    match v with
    | JArr _ => 2
    | JStr t => if decide (t = "object") then 2 else 0
    | _ => 0
    end
  else if decide (key = "anyOf" \/ key = "oneOf") then
    match v with JArr _ => 2 | _ => 0 end
  else if decide (key = "const") then 1
  else 0.

Fixpoint depthBound (v : json F) : nat :=
  match v with
  | JArr l => S (foldr (fun x acc => depthBound x `max` acc) 0 l)
  | JObj m =>
      S (map_fold (fun key x acc => (depthBound x `max` keyBound key x) `max` acc)
                  0 m)
  | _ => 0
  end.

(** Lines 49-58 of [CleanJSONSchemaForAntigravityOptimized]: the traversal
    from the root with an empty context, then the nullable post-processing
    when the root is an object.  The fuel [depthBound schema] is enough for
    every schema (see [cleanSchemaValue_never_out_of_fuel]). *)
Definition cleanSchemaValue (schema : json F) : res (json F) :=
  '(schema, ctx) ← cleanSchemaRecursive (depthBound schema) schema ""
                     (CleanContext ∅);
  match schema with
  | JObj schemaMap => mret (JObj (applyNullableFields ctx schemaMap))
  | _ => mret schema
  end.

End schema.

(** ** internal/util/gemini_schema_optimized.go: the cache and the entry point *)

(** [SchemaCache] provides caching for processed JSON schemas (the mutex is
    not modelled: every operation below is one critical section). *)
Record SchemaCache : Type := MkSchemaCache {
  cache : gmap string string;
  maxSize : nat
}.

(** Global schema cache instance, as the process starts. *)
Definition schemaCache : SchemaCache := MkSchemaCache ∅ 1000.

Definition Get (c : SchemaCache) (key : string) : option string :=
  cache c !! key.

Definition string_le (a b : string) : Prop := String.leb a b = true.

#[global] Instance string_le_dec a b : Decision (string_le a b).
Proof. unfold string_le. apply _. Defined.

(** [evictHalf]: remove the first half of the keys in sorted order. *)
Definition evictHalf (c : SchemaCache) : SchemaCache :=
  let keys := merge_sort string_le (map_to_list (cache c)).*1 in
  let toRemove := length keys `div` 2 in
  MkSchemaCache (foldl (fun m k => delete k m) (cache c) (take toRemove keys))
                (maxSize c).

Definition Set_ (c : SchemaCache) (key value : string) : SchemaCache :=
  let c := if decide (maxSize c <= size (cache c)) then evictHalf c else c in
  MkSchemaCache (<[key := value]> (cache c)) (maxSize c).

(** [ClearSchemaCache] clears the global schema cache. *)
Definition ClearSchemaCache (c : SchemaCache) : SchemaCache :=
  MkSchemaCache ∅ (maxSize c).

(** [GetSchemaCacheStats] returns cache statistics. *)
Definition GetSchemaCacheStats (c : SchemaCache) : nat * nat :=
  (size (cache c), maxSize c).

Section entry.
Context {F : Type} `{Float64 F}.

(** Library code: SHA-256 in hexadecimal ([computeHash]) and the sonic
    decoder and encoder between texts and Go values; a decoding or encoding
    error is [None].

    [sonic.MarshalString] writes the keys of a [map[string]interface{}] in
    the order in which the Go runtime iterates over the map, and that order
    varies from one call to the next: one value has several texts.  The
    encoder therefore takes, besides the value, the iteration orders of the
    call ([mapOrder]). *)
Context {mapOrder : Type}.
Variable computeHash : string -> string.
Variable UnmarshalString : string -> option (json F).
Variable MarshalString : mapOrder -> json F -> option string.

(** [CleanJSONSchemaForAntigravityOptimized], with the global cache passed
    in and out; [order] is the map iteration order of the runtime during
    the call. *)
Definition CleanJSONSchemaForAntigravityOptimized (order : mapOrder)
    (jsonStr : string) (c : SchemaCache) : res (string * SchemaCache) :=
  let hash := computeHash jsonStr in
  match Get c hash with
  | Some cached => mret (cached, c)
  | None =>
      match UnmarshalString jsonStr with
      | None => mret (jsonStr, c)
      | Some schema =>
          schema ← cleanSchemaValue schema;
          match MarshalString order schema with
          | None => mret (jsonStr, c)
          | Some result => mret (result, Set_ c hash result)
          end
      end
  end.

End entry.
End util.

(** ** internal/translator/antigravity/claude: data structures *)

Module claude.

(** A [json.RawMessage] field is kept as the value its text denotes, [None]
    being the empty message of an absent field ([len(x) == 0]). *)
Abbreviation RawMessage F := (option (json F)).

(** The typed decodings [sonic.Unmarshal(raw, &x)] used by the code, by the
    rules of Go's decoder: JSON null decodes into any map, slice or string
    without error and leaves it at its zero value; a value of another kind
    is an error ([None]). *)
Module sonic.
Section decode.
Context {F : Type}.

(** Into [map[string]interface{}]; the decoded map may be nil. *)
Definition UnmarshalMap (raw : json F)
  : option (option (gmap string (json F))) :=
  match raw with
  | JObj m => Some (Some m)
  | JNull => Some None
  | _ => None
  end.

(** Into [string]. *)
Definition UnmarshalStr (raw : json F) : option string :=
  match raw with
  | JStr s => Some s
  | JNull => Some ""
  | _ => None
  end.

(** Into [[]interface{}]. *)
Definition UnmarshalSlice (raw : json F) : option (list (json F)) :=
  match raw with
  | JArr l => Some l
  | JNull => Some []
  | _ => None
  end.

(** [sonic.Marshal] of a [map[string]interface{}]: a nil map encodes as
    null. *)
Definition MarshalMap (m : option (gmap string (json F))) : json F :=
  match m with
  | Some m => JObj m
  | None => JNull
  end.

End decode.
End sonic.

Module ClaudeMetadata.
Record t : Type := mk { UserID : string }.
End ClaudeMetadata.

Module ClaudeThinking.
Record t : Type := mk {
  Type_ : string;
  BudgetTokens : option Z   (* *int *)
}.
End ClaudeThinking.

Module ImageSource.
Record t : Type := mk {
  Type_ : string;
  MediaType : string;
  Data : string
}.
End ImageSource.

Module ClaudeContentItem.
Record t (F : Type) : Type := mk {
  Type_ : string;
  Text : string;
  Signature : string;
  Thinking : string;
  Name : string;
  ID : string;
  Input : RawMessage F;
  ToolUseID : string;
  Content : RawMessage F;
  Source : option ImageSource.t
}.
Arguments mk {F}.
Arguments Type_ {F}.
Arguments Text {F}.
Arguments Signature {F}.
Arguments Thinking {F}.
Arguments Name {F}.
Arguments ID {F}.
Arguments Input {F}.
Arguments ToolUseID {F}.
Arguments Content {F}.
Arguments Source {F}.
End ClaudeContentItem.

Module ClaudeSystemItem.
Record t : Type := mk { Type_ : string; Text : string }.
End ClaudeSystemItem.

(** [ClaudeMessage.Content] is decoded twice by the translator: as
    [[]ClaudeContentItem] and, when that fails, as a string.  The field is
    kept as the outcome of these two attempts. *)
Inductive MessageContent (F : Type) : Type :=
  | ContentItems (contentArray : list (ClaudeContentItem.t F))
  | ContentString (contentStr : string)
  | ContentUndecodable.
Arguments ContentItems {F}.
Arguments ContentString {F}.
Arguments ContentUndecodable {F}.

Module ClaudeMessage.
Record t (F : Type) : Type := mk {
  Role : string;
  Content : MessageContent F
}.
Arguments mk {F}.
Arguments Role {F}.
Arguments Content {F}.
End ClaudeMessage.

(** [ClaudeRequest.System], likewise: empty, an array of system items, a
    string, or neither. *)
Inductive SystemPrompt : Type :=
  | SystemEmpty
  | SystemItems (systemArray : list ClaudeSystemItem.t)
  | SystemString (systemStr : string)
  | SystemUndecodable.

Module ClaudeTool.
Record t : Type := mk {
  Name : string;
  Description : string;
  InputSchema : string;   (* the raw text, handed to the schema cleaner *)
  Behavior : string
}.
End ClaudeTool.

Module ClaudeRequest.
Record t (F : Type) : Type := mk {
  Model : string;
  System : SystemPrompt;
  Messages : list (ClaudeMessage.t F);
  Tools : list ClaudeTool.t;
  Thinking : option ClaudeThinking.t;
  Temperature : option F;
  TopP : option F;
  TopK : option F;
  MaxTokens : option F;
  Metadata : option ClaudeMetadata.t
}.
Arguments mk {F}.
Arguments Model {F}.
Arguments System {F}.
Arguments Messages {F}.
Arguments Tools {F}.
Arguments Thinking {F}.
Arguments Temperature {F}.
Arguments TopP {F}.
Arguments TopK {F}.
Arguments MaxTokens {F}.
Arguments Metadata {F}.
End ClaudeRequest.

Module FunctionCall.
Record t (F : Type) : Type := mk {
  ID : string;
  Name : string;
  Args : RawMessage F
}.
Arguments mk {F}.
Arguments ID {F}.
Arguments Name {F}.
Arguments Args {F}.
End FunctionCall.

Module FunctionResponse.
Record t (F : Type) : Type := mk {
  ID : string;
  Name : string;
  Response : gmap string (json F)
}.
Arguments mk {F}.
Arguments ID {F}.
Arguments Name {F}.
Arguments Response {F}.
End FunctionResponse.

Module InlineData.
Record t : Type := mk { MimeType : string; Data : string }.
End InlineData.

Module Part.
Record t (F : Type) : Type := mk {
  Text : string;
  Thought : option bool;   (* *bool *)
  ThoughtSignature : string;
  FunctionCall : option (FunctionCall.t F);
  FunctionResponse : option (FunctionResponse.t F);
  InlineData : option InlineData.t
}.
Arguments mk {F}.
Arguments Text {F}.
Arguments Thought {F}.
Arguments ThoughtSignature {F}.
Arguments FunctionCall {F}.
Arguments FunctionResponse {F}.
Arguments InlineData {F}.

(** The composite literal [Part{Text: s}]. *)
Definition text {F} (s : string) : t F := mk s None "" None None None.
End Part.

Module ContentItem.
Record t (F : Type) : Type := mk {
  Role : string;
  Parts : list (Part.t F)
}.
Arguments mk {F}.
Arguments Role {F}.
Arguments Parts {F}.
End ContentItem.

Module FunctionDeclaration.
Record t : Type := mk {
  Name : string;
  Description : string;
  Behavior : string;
  ParametersJSONSchema : string
}.
End FunctionDeclaration.

Module ToolDeclaration.
Record t : Type := mk { FunctionDeclarations : list FunctionDeclaration.t }.
End ToolDeclaration.

(** [ThinkingConfig].  The declaration in
    antigravity_claude_request_optimized.go has the two fields
    [ThinkingBudget] and [IncludeThoughts]; the V2 translator also assigns
    [ThinkingLevel], which the record therefore carries (empty when unset). *)
Module ThinkingConfig.
Record t : Type := mk {
  ThinkingBudget : option Z;   (* *int *)
  ThinkingLevel : string;
  IncludeThoughts : bool
}.
End ThinkingConfig.

Module GenerationConfig.
Record t (F : Type) : Type := mk {
  Temperature : option F;
  TopP : option F;
  TopK : option F;
  MaxOutputTokens : option F;
  ThinkingConfig : option ThinkingConfig.t
}.
Arguments mk {F}.
Arguments Temperature {F}.
Arguments TopP {F}.
Arguments TopK {F}.
Arguments MaxOutputTokens {F}.
Arguments ThinkingConfig {F}.
End GenerationConfig.

Module RequestContent.
Record t (F : Type) : Type := mk {
  SystemInstruction : option (ContentItem.t F);
  Contents : list (ContentItem.t F);
  Tools : list ToolDeclaration.t;
  GenerationConfig : option (GenerationConfig.t F)
}.
Arguments mk {F}.
Arguments SystemInstruction {F}.
Arguments Contents {F}.
Arguments Tools {F}.
Arguments GenerationConfig {F}.
End RequestContent.

Module AntigravityRequest.
Record t (F : Type) : Type := mk {
  Model : string;
  Request : RequestContent.t F
}.
Arguments mk {F}.
Arguments Model {F}.
Arguments Request {F}.
End AntigravityRequest.

(** ** antigravity_claude_request_v2.go *)

Section v2.
Context {F : Type} `{Float64 F}.

(** The signature cache ([internal/cache]) and the model classifier
    ([util.IsClaudeThinkingModel]) are collaborators of the translator. *)
Variable GetCachedSignature : string -> string -> string.
Variable HasValidSignature : string -> string -> bool.
Variable IsClaudeThinkingModel : string -> bool.

(** The schema cleaner's library parameters, see [util]. *)
Context {mapOrder : Type}.
Variable computeHash : string -> string.
Variable UnmarshalString : string -> option (json F).
Variable MarshalString : mapOrder -> json F -> option string.

(** [processThinkingContentV2] processes a thinking content block.  The
    result is (part, signature, skip); the flag behind the pointer
    [enableThoughtTranslate] is passed in and returned. *)
Definition processThinkingContentV2 (ci : ClaudeContentItem.t F)
    (modelName : string) (enableThoughtTranslate : bool)
  : (option (Part.t F) * string * bool) * bool :=
  let thinkingText := ClaudeContentItem.Thinking ci in
  let thinkingText :=
    if decide (thinkingText = "") then ClaudeContentItem.Text ci
    else thinkingText in
  let signature := "" in
  let signature :=
    if decide (thinkingText <> "") then
      let cachedSig := GetCachedSignature modelName thinkingText in
      if decide (cachedSig <> "") then cachedSig else signature
    else signature in
  let signature :=
    if bool_decide (signature = "")
       && bool_decide (ClaudeContentItem.Signature ci <> "")
    then
      match strings.SplitN2 (ClaudeContentItem.Signature ci) "#" with
      | [model; clientSignature] =>
          if bool_decide (modelName = model)
             && HasValidSignature modelName clientSignature
          then clientSignature else signature
      | _ => signature
      end
    else signature in
  if negb (HasValidSignature modelName signature)
  then ((None, "", true), false)
  else
    ((Some (Part.mk thinkingText (Some true) signature None None None),
      signature, false),
     enableThoughtTranslate).

Definition skipSentinel : string := "skip_thought_signature_validator".

(** [processToolUseContentV2] processes a tool_use content block. *)
Definition processToolUseContentV2 (ci : ClaudeContentItem.t F)
    (currentMessageThinkingSignature : string) : option (Part.t F) :=
  match ClaudeContentItem.Input ci with
  | None => None
  | Some input =>
      let args :=
        match sonic.UnmarshalMap input with
        | Some _ => Some input
        | None =>
            match sonic.UnmarshalStr input with
            | Some inputStr =>
                match UnmarshalString inputStr ≫= sonic.UnmarshalMap with
                | Some inputObj => Some (sonic.MarshalMap inputObj)
                | None => None
                end
            | None => None
            end
        end in
      match args with
      | None => None
      | Some args =>
          let thoughtSig :=
            if HasValidSignature "" currentMessageThinkingSignature
            then currentMessageThinkingSignature else skipSentinel in
          Some (Part.mk "" None thoughtSig
                  (Some (FunctionCall.mk (ClaudeContentItem.ID ci)
                           (ClaudeContentItem.Name ci) (Some args)))
                  None None)
      end
  end.

(** [processToolResultContentV2] processes a tool_result content block. *)
Definition processToolResultContentV2 (ci : ClaudeContentItem.t F)
  : option (Part.t F) :=
  if decide (ClaudeContentItem.ToolUseID ci = "") then None else
  let toolCallIDs := strings.Split (ClaudeContentItem.ToolUseID ci) "-" in
  let funcName :=
    if decide (1 < length toolCallIDs)
    then strings.Join (take (length toolCallIDs - 2) toolCallIDs) "-"
    else ClaudeContentItem.ToolUseID ci in
  let response : gmap string (json F) :=
    match ClaudeContentItem.Content ci with
    | None => ∅
    | Some content =>
        match sonic.UnmarshalStr content with
        | Some contentStr => {[ "result" := JStr contentStr ]}
        | None =>
            match sonic.UnmarshalSlice content with
            | Some contentArray =>
                match contentArray with
                | [only] => {[ "result" := only ]}
                | _ => {[ "result" := JArr contentArray ]}
                end
            | None => {[ "result" := content ]}
            end
        end
    end in
  Some (Part.mk "" None "" None
          (Some (FunctionResponse.mk (ClaudeContentItem.ToolUseID ci)
                   funcName response))
          None).

(** [processImageContentV2] processes an image content block. *)
Definition processImageContentV2 (ci : ClaudeContentItem.t F)
  : option (Part.t F) :=
  match ClaudeContentItem.Source ci with
  | Some source =>
      if decide (ImageSource.Type_ source <> "base64") then None
      else Some (Part.mk "" None "" None None
                   (Some (InlineData.mk (ImageSource.MediaType source)
                            (ImageSource.Data source))))
  | None => None
  end.

(** The variables of the loop over the content items of one message. *)
Record blockState : Type := BlockState {
  currentMessageThinkingSignature : string;
  thinkingParts : list (Part.t F);
  otherParts : list (Part.t F);
  clientParts : list (Part.t F);   (* clientContent.Parts *)
  enableThoughtTranslate : bool
}.

(** [otherParts = append(otherParts, part)] for the model role,
    [clientContent.Parts = append(clientContent.Parts, part)] otherwise. *)
Definition appendOther (role : string) (st : blockState) (part : Part.t F)
  : blockState :=
  if decide (role = "model")
  then BlockState (currentMessageThinkingSignature st) (thinkingParts st)
         (otherParts st ++ [part]) (clientParts st) (enableThoughtTranslate st)
  else BlockState (currentMessageThinkingSignature st) (thinkingParts st)
         (otherParts st) (clientParts st ++ [part]) (enableThoughtTranslate st).

(** One iteration of [for _, ci := range contentArray], the [switch] on
    [ci.Type]. *)
Definition contentItemStepV2 (modelName role : string) (st : blockState)
    (ci : ClaudeContentItem.t F) : blockState :=
  let ty := ClaudeContentItem.Type_ ci in
  if decide (ty = "thinking") then
    let '((part, signature, skip), enable) :=
      processThinkingContentV2 ci modelName (enableThoughtTranslate st) in
    let st := BlockState (currentMessageThinkingSignature st)
                (thinkingParts st) (otherParts st) (clientParts st) enable in
    if skip then st else
    let sig :=
      if HasValidSignature modelName signature then signature
      else currentMessageThinkingSignature st in
    match part with
    | Some part =>
        if decide (role = "model")
        then BlockState sig (thinkingParts st ++ [part]) (otherParts st)
               (clientParts st) enable
        else BlockState sig (thinkingParts st) (otherParts st)
               (clientParts st ++ [part]) enable
    | None =>
        BlockState sig (thinkingParts st) (otherParts st) (clientParts st)
          enable
    end
  else if decide (ty = "text") then
    appendOther role st (Part.text (ClaudeContentItem.Text ci))
  else if decide (ty = "tool_use") then
    match processToolUseContentV2 ci (currentMessageThinkingSignature st) with
    | Some part => appendOther role st part
    | None => st
    end
  else if decide (ty = "tool_result") then
    match processToolResultContentV2 ci with
    | Some part => appendOther role st part
    | None => st
    end
  else if decide (ty = "image") then
    match processImageContentV2 ci with
    | Some part => appendOther role st part
    | None => st
    end
  else st.

(** The body of [for _, msg := range req.Messages]: the turns emitted so far
    and the flag, before and after one message. *)
Definition messageStepV2 (modelName : string)
    (acc : list (ContentItem.t F) * bool) (msg : ClaudeMessage.t F)
  : list (ContentItem.t F) * bool :=
  let '(contents, enable) := acc in
  let role := ClaudeMessage.Role msg in
  let role := if decide (role = "assistant") then "model" else role in
  match ClaudeMessage.Content msg with
  | ContentItems contentArray =>
      let st :=
        foldl (contentItemStepV2 modelName role)
              (BlockState "" [] [] [] enable) contentArray in
      let parts :=
        if decide (role = "model") then thinkingParts st ++ otherParts st
        else clientParts st in
      (if decide (0 < length parts)
       then contents ++ [ContentItem.mk role parts] else contents,
       enableThoughtTranslate st)
  | ContentString contentStr =>
      (if decide (contentStr <> "")
       then contents ++ [ContentItem.mk role [Part.text contentStr]]
       else contents,
       enable)
  | ContentUndecodable => acc
  end.

(** "Process messages": [output.Request.Contents] and the final value of
    [enableThoughtTranslate]. *)
Definition processMessagesV2 (modelName : string)
    (messages : list (ClaudeMessage.t F)) : list (ContentItem.t F) * bool :=
  foldl (messageStepV2 modelName) ([], true) messages.

(** "Process system instruction": the instruction and
    [hasSystemInstruction]. *)
Definition processSystemV2 (system : SystemPrompt)
  : option (ContentItem.t F) * bool :=
  match system with
  | SystemItems systemArray =>
      let parts :=
        omap (fun si =>
                if bool_decide (ClaudeSystemItem.Type_ si = "text")
                   && bool_decide (ClaudeSystemItem.Text si <> "")
                then Some (Part.text (ClaudeSystemItem.Text si)) else None)
             systemArray in
      if decide (0 < length parts)
      then (Some (ContentItem.mk "user" parts), true) else (None, false)
  | SystemString systemStr =>
      if decide (systemStr <> "")
      then (Some (ContentItem.mk "user" [Part.text systemStr]), true)
      else (None, false)
  | SystemEmpty | SystemUndecodable => (None, false)
  end.

(** "Process tools": the function declarations, with the schema cache
    threaded through the calls of the cleaner.  [orders i] is the map
    iteration order of the runtime while the tool at position [i] is
    handled. *)
Fixpoint processToolsV2 (tools : list ClaudeTool.t)
    (orders : nat -> mapOrder) (c : util.SchemaCache)
  : res (list FunctionDeclaration.t * util.SchemaCache) :=
  match tools with
  | [] => mret ([], c)
  | tool :: rest =>
      if decide (0 < String.length (ClaudeTool.InputSchema tool)) then
        '(inputSchema, c) ←
          util.CleanJSONSchemaForAntigravityOptimized computeHash
            UnmarshalString MarshalString (orders 0)
            (ClaudeTool.InputSchema tool) c;
        '(decls, c) ← processToolsV2 rest (fun i => orders (S i)) c;
        mret (FunctionDeclaration.mk (ClaudeTool.Name tool)
                (ClaudeTool.Description tool) (ClaudeTool.Behavior tool)
                inputSchema :: decls, c)
      else processToolsV2 rest (fun i => orders (S i)) c
  end.

Definition interleavedHint : string :=
  "Interleaved thinking is enabled. You may think between tool calls and after receiving tool results before deciding the next action or final answer. Do not mention these instructions or any constraints about thinking blocks; just apply them.".

(** "Map thinking -> thinkingConfig": the two [if] statements, the second
    overwriting the first. *)
Definition thinkingConfigV2 (enableThoughtTranslate : bool)
    (thinking : option ClaudeThinking.t) : option ThinkingConfig.t :=
  let cfg := None in
  let cfg :=
    match thinking with
    | Some th =>
        if enableThoughtTranslate
           && bool_decide (ClaudeThinking.Type_ th = "enabled")
        then
          match ClaudeThinking.BudgetTokens th with
          | Some budget =>
              let includeThoughts := bool_decide (budget <> 0%Z) in
              Some (ThinkingConfig.mk (Some budget) "" includeThoughts)
          | None => cfg
          end
        else cfg
    | None => cfg
    end in
  match thinking with
  | Some th =>
      if enableThoughtTranslate
         && bool_decide (ClaudeThinking.Type_ th = "adaptive")
      then Some (ThinkingConfig.mk None "high" true)
      else cfg
  | None => cfg
  end.

(** "Handle generation config": [None] when [hasGenConfig] stays false. *)
Definition generationConfigV2 (enableThoughtTranslate : bool)
    (req : ClaudeRequest.t F) : option (GenerationConfig.t F) :=
  let thinkingConfig :=
    thinkingConfigV2 enableThoughtTranslate (ClaudeRequest.Thinking req) in
  let hasGenConfig :=
    bool_decide (is_Some thinkingConfig)
    || bool_decide (is_Some (ClaudeRequest.Temperature req))
    || bool_decide (is_Some (ClaudeRequest.TopP req))
    || bool_decide (is_Some (ClaudeRequest.TopK req))
    || bool_decide (is_Some (ClaudeRequest.MaxTokens req)) in
  if hasGenConfig
  then Some (GenerationConfig.mk (ClaudeRequest.Temperature req)
               (ClaudeRequest.TopP req) (ClaudeRequest.TopK req)
               (ClaudeRequest.MaxTokens req) thinkingConfig)
  else None.

(** [ConvertClaudeRequestToAntigravityV2], from the decoded request to the
    structure handed to the encoder.  The fallback on a decoding or encoding
    error and the safety settings attached afterwards are outside this
    function's own logic. *)
Definition ConvertClaudeRequestToAntigravityV2 (modelName : string)
    (req : ClaudeRequest.t F) (orders : nat -> mapOrder)
    (c : util.SchemaCache)
  : res (AntigravityRequest.t F * util.SchemaCache) :=
  let '(systemInstruction, hasSystemInstruction) :=
    processSystemV2 (ClaudeRequest.System req) in
  let '(contents, enableThoughtTranslate) :=
    processMessagesV2 modelName (ClaudeRequest.Messages req) in
  '(decls, c) ← processToolsV2 (ClaudeRequest.Tools req) orders c;
  let toolDeclCount := length decls in
  let tools :=
    if decide (0 < toolDeclCount) then [ToolDeclaration.mk decls] else [] in
  let hasThinking :=
    match ClaudeRequest.Thinking req with
    | Some th =>
        bool_decide (ClaudeThinking.Type_ th = "enabled")
        || bool_decide (ClaudeThinking.Type_ th = "adaptive")
    | None => false
    end in
  let isClaudeThinking := IsClaudeThinkingModel modelName in
  let systemInstruction :=
    if bool_decide (0 < toolDeclCount) && hasThinking && isClaudeThinking then
      match systemInstruction with
      | Some si =>
          Some (ContentItem.mk (ContentItem.Role si)
                  (ContentItem.Parts si ++ [Part.text interleavedHint]))
      | None => Some (ContentItem.mk "user" [Part.text interleavedHint])
      end
    else systemInstruction in
  mret (AntigravityRequest.mk modelName
          (RequestContent.mk systemInstruction contents tools
             (generationConfigV2 enableThoughtTranslate req)),
        c).

End v2.

(** ** antigravity_claude_request_optimized.go *)

(** The view of [github.com/tidwall/gjson] that the optimized translator
    uses: a [Result] is the value found at a key, [None] when the key does
    not exist. *)
Module gjson.
Section result.
Context {F : Type} `{Float64 F}.

(** The text gjson keeps for a number, an array or an object
    ([Result.Raw]). *)
Variable Raw : json F -> string.

Definition Get (r : option (json F)) (key : string) : option (json F) :=
  match r with
  | Some (JObj m) => m !! key
  | _ => None
  end.

Definition Exists (r : option (json F)) : bool := bool_decide (is_Some r).

Definition IsObject (r : option (json F)) : bool :=
  match r with Some (JObj _) => true | _ => false end.

Definition IsArray (r : option (json F)) : bool :=
  match r with Some (JArr _) => true | _ => false end.

(** [r.Type == gjson.String] and [r.Type == gjson.Number]. *)
Definition IsString (r : option (json F)) : bool :=
  match r with Some (JStr _) => true | _ => false end.

Definition IsNumber (r : option (json F)) : bool :=
  match r with Some (JNum _) => true | _ => false end.

(** [Result.String]. *)
Definition String (r : option (json F)) : string :=
  match r with
  | None | Some JNull => ""
  | Some (JStr s) => s
  | Some (JBool true) => "true"
  | Some (JBool false) => "false"
  | Some v => Raw v
  end.

(** [Result.Int] on a number. *)
Definition Int (r : option (json F)) : Z :=
  match r with Some (JNum n) => floatToInt n | _ => 0%Z end.

(** [Result.Array] on an array. *)
Definition Array (r : option (json F)) : list (option (json F)) :=
  match r with Some (JArr l) => Some <$> l | _ => [] end.

(** [Result.Value]: the decoded Go value, nil when nothing was found. *)
Definition Value (r : option (json F)) : json F := default JNull r.

End result.
End gjson.

Section optimized.
Context {F : Type} `{Float64 F}.

Variable GetCachedSignature : string -> string -> string.
Variable HasValidSignature : string -> string -> bool.

(** [gjson]'s raw text, [gjson.Parse] (a text that is not JSON gives a
    result that is no object: [None]) and [thinking.GetThinkingText]. *)
Variable Raw : json F -> string.
Variable Parse : string -> option (json F).
Variable GetThinkingText : option (json F) -> string.

(** [processThinkingContent] processes a thinking content block. *)
Definition processThinkingContent (contentResult : option (json F))
    (modelName sessionID : string) (enableThoughtTranslate : bool)
  : (option (Part.t F) * string * bool) * bool :=
  let thinkingText := GetThinkingText contentResult in
  let signature := "" in
  let signature :=
    if bool_decide (sessionID <> "") && bool_decide (thinkingText <> "") then
      let cachedSig := GetCachedSignature modelName thinkingText in
      if decide (cachedSig <> "") then cachedSig else signature
    else signature in
  let signature :=
    if decide (signature = "") then
      let signatureResult := gjson.Get contentResult "signature" in
      if gjson.Exists signatureResult
         && bool_decide (gjson.String Raw signatureResult <> "")
      then
        match strings.SplitN2 (gjson.String Raw signatureResult) "#" with
        | [model; clientSignature] =>
            if bool_decide (modelName = model)
               && HasValidSignature modelName clientSignature
            then clientSignature else signature
        | _ => signature
        end
      else signature
    else signature in
  if negb (HasValidSignature modelName signature)
  then ((None, "", true), false)
  else
    ((Some (Part.mk thinkingText (Some true) signature None None None),
      signature, false),
     enableThoughtTranslate).

(** [processToolUseContent] processes a tool_use content block; [argsRaw]
    is [None] for the empty text. *)
Definition processToolUseContent (contentResult : option (json F))
    (modelName currentMessageThinkingSignature : string)
  : option (Part.t F) :=
  let functionName := gjson.String Raw (gjson.Get contentResult "name") in
  let argsResult := gjson.Get contentResult "input" in
  let functionID := gjson.String Raw (gjson.Get contentResult "id") in
  let argsRaw : option (json F) :=
    if gjson.IsObject argsResult then argsResult
    else if gjson.IsString argsResult then
      let parsed := Parse (gjson.String Raw argsResult) in
      if gjson.IsObject parsed then parsed else None
    else None in
  match argsRaw with
  | None => None
  | Some args =>
      let thoughtSig :=
        if HasValidSignature modelName currentMessageThinkingSignature
        then currentMessageThinkingSignature else skipSentinel in
      Some (Part.mk "" None thoughtSig
              (Some (FunctionCall.mk functionID functionName (Some args)))
              None None)
  end.

(** [processToolResultContent] processes a tool_result content block. *)
Definition processToolResultContent (contentResult : option (json F))
  : option (Part.t F) :=
  let toolCallID := gjson.String Raw (gjson.Get contentResult "tool_use_id") in
  if decide (toolCallID = "") then None else
  let toolCallIDs := strings.Split toolCallID "-" in
  let funcName :=
    if decide (1 < length toolCallIDs)
    then strings.Join (take (length toolCallIDs - 2) toolCallIDs) "-"
    else toolCallID in
  let functionResponseResult := gjson.Get contentResult "content" in
  let result :=
    if gjson.IsString functionResponseResult
    then JStr (gjson.String Raw functionResponseResult)
    else if gjson.IsArray functionResponseResult then
      match gjson.Array functionResponseResult with
      | [only] => gjson.Value only
      | _ => gjson.Value functionResponseResult
      end
    else gjson.Value functionResponseResult in
  Some (Part.mk "" None "" None
          (Some (FunctionResponse.mk toolCallID funcName
                   {[ "result" := result ]}))
          None).

(** [processImageContent] processes an image content block. *)
Definition processImageContent (contentResult : option (json F))
  : option (Part.t F) :=
  let sourceResult := gjson.Get contentResult "source" in
  if decide (gjson.String Raw (gjson.Get sourceResult "type") <> "base64")
  then None
  else Some (Part.mk "" None "" None None
               (Some (InlineData.mk
                        (gjson.String Raw (gjson.Get sourceResult "media_type"))
                        (gjson.String Raw (gjson.Get sourceResult "data"))))).

(** One iteration of [for _, contentResult := range contentsResult.Array()]. *)
Definition contentItemStepOptimized (modelName sessionID role : string)
    (st : blockState) (contentResult : option (json F)) : blockState :=
  let contentType := gjson.String Raw (gjson.Get contentResult "type") in
  if decide (contentType = "thinking") then
    let '((part, signature, skip), enable) :=
      processThinkingContent contentResult modelName sessionID
        (enableThoughtTranslate st) in
    let st := BlockState (currentMessageThinkingSignature st)
                (thinkingParts st) (otherParts st) (clientParts st) enable in
    if skip then st else
    let sig :=
      if HasValidSignature modelName signature then signature
      else currentMessageThinkingSignature st in
    match part with
    | Some part =>
        if decide (role = "model")
        then BlockState sig (thinkingParts st ++ [part]) (otherParts st)
               (clientParts st) enable
        else BlockState sig (thinkingParts st) (otherParts st)
               (clientParts st ++ [part]) enable
    | None =>
        BlockState sig (thinkingParts st) (otherParts st) (clientParts st)
          enable
    end
  else if decide (contentType = "text") then
    appendOther role st
      (Part.text (gjson.String Raw (gjson.Get contentResult "text")))
  else if decide (contentType = "tool_use") then
    match processToolUseContent contentResult modelName
            (currentMessageThinkingSignature st) with
    | Some part => appendOther role st part
    | None => st
    end
  else if decide (contentType = "tool_result") then
    match processToolResultContent contentResult with
    | Some part => appendOther role st part
    | None => st
    end
  else if decide (contentType = "image") then
    match processImageContent contentResult with
    | Some part => appendOther role st part
    | None => st
    end
  else st.

(** The body of [for _, messageResult := range messagesResult.Array()]. *)
Definition messageStepOptimized (modelName sessionID : string)
    (acc : list (ContentItem.t F) * bool) (messageResult : option (json F))
  : list (ContentItem.t F) * bool :=
  let '(contents, enable) := acc in
  let roleResult := gjson.Get messageResult "role" in
  if negb (gjson.IsString roleResult) then acc else
  let originalRole := gjson.String Raw roleResult in
  let role :=
    if decide (originalRole = "assistant") then "model" else originalRole in
  let contentsResult := gjson.Get messageResult "content" in
  if gjson.IsArray contentsResult then
    let st :=
      foldl (contentItemStepOptimized modelName sessionID role)
            (BlockState "" [] [] [] enable) (gjson.Array contentsResult) in
    let parts :=
      if decide (role = "model") then thinkingParts st ++ otherParts st
      else clientParts st in
    (if decide (0 < length parts)
     then contents ++ [ContentItem.mk role parts] else contents,
     enableThoughtTranslate st)
  else if gjson.IsString contentsResult then
    (contents ++ [ContentItem.mk role
                    [Part.text (gjson.String Raw contentsResult)]],
     enable)
  else acc.

(** "Process messages/contents" of
    [ConvertClaudeRequestToAntigravityOptimized]. *)
Definition processMessagesOptimized (modelName sessionID : string)
    (messagesResult : option (json F)) : list (ContentItem.t F) * bool :=
  if gjson.IsArray messagesResult
  then foldl (messageStepOptimized modelName sessionID) ([], true)
         (gjson.Array messagesResult)
  else ([], true).

(** "Map thinking -> thinkingConfig" of
    [ConvertClaudeRequestToAntigravityOptimized]. *)
Definition thinkingConfigOptimized (enableThoughtTranslate : bool)
    (thinkingResult : option (json F)) : option ThinkingConfig.t :=
  if enableThoughtTranslate && gjson.Exists thinkingResult
     && gjson.IsObject thinkingResult
  then
    if decide (gjson.String Raw (gjson.Get thinkingResult "type") = "enabled")
    then
      let b := gjson.Get thinkingResult "budget_tokens" in
      if gjson.Exists b && gjson.IsNumber b
      then Some (ThinkingConfig.mk (Some (gjson.Int b)) "" true)
      else None
    else None
  else None.

End optimized.
End claude.

(** * Vocabulary of the properties

    The predicates, reference definitions and concrete inputs that the
    statements below are written with. *)

(** ** Concrete instance for closed examples

    An integer [n] stands for the float64 of that value, which float64 holds
    exactly up to 2^53 in magnitude; the examples use such integers only. *)

Fixpoint dropLeadingZeros (s : string) : string :=
  match s with
  | String "0" s' => dropLeadingZeros s'
  | _ => s
  end.

(** fmt's [%v] on such a float64: the decimal digits below 10^6 in
    magnitude; from there on the exponent form with the shortest mantissa
    and an exponent of two digits at least ("1e+06", "1.5e+07"). *)
Definition formatInteger (n : Z) : string :=
  let sign := if bool_decide (n < 0)%Z then "-" else "" in
  let digits := pretty (Z.abs n) in
  if bool_decide (Z.abs n < 1000000)%Z then sign +:+ digits
  else
    let exponent := String.length digits - 1 in
    let mantissa := String.rev (dropLeadingZeros (String.rev digits)) in
    let fraction :=
      match mantissa with
      | String d EmptyString => String d EmptyString
      | String d rest => String d ("." +:+ rest)
      | EmptyString => ""
      end in
    sign +:+ fraction +:+ "e+"
      +:+ (if bool_decide (exponent < 10) then "0" else "") +:+ pretty exponent.

(** gjson's [Result.Int] on it: the integer itself, kept within [int64]. *)
Definition truncateToInt64 (n : Z) : Z :=
  Z.max (- 2 ^ 63) (Z.min (2 ^ 63 - 1) n).

#[global] Instance float64_Z : Float64 Z :=
  {| formatFloat := formatInteger; floatToInt := truncateToInt64 |}.

(** An object literal. *)
Definition object {F} (fields : list (string * json F)) : json F :=
  JObj (list_to_map fields).

(** ** Schemas *)

(** The property of C2 on one object node: every name listed in [required]
    is a key of the node's [properties] map. *)
Definition requiredWithinProperties {F} (node : gmap string (json F)) : bool :=
  match util.asSlice (node !! "required") with
  | Some reqArr =>
      forallb (fun r =>
                 match r with
                 | JStr name =>
                     match util.asMap (node !! "properties") with
                     | Some props => bool_decide (is_Some (props !! name))
                     | None => false
                     end
                 | _ => true
                 end) reqArr
  | None => true
  end.

(** The same on every object node of a value. *)
Fixpoint requiredWithinPropertiesEverywhere {F} (v : json F) : bool :=
  match v with
  | JObj m =>
      requiredWithinProperties m
      && map_fold (fun _ x acc => requiredWithinPropertiesEverywhere x && acc)
                  true m
  | JArr l => forallb requiredWithinPropertiesEverywhere l
  | _ => true
  end.


Section schema_vocabulary.
Context {F : Type}.

(** Every entry of [m] is within [b]: the depth of its value and what the
    entry adds to its object. *)
Definition bounded (b : nat) (m : gmap string (json F)) : Prop :=
  forall k c, m !! k = Some c ->
    util.depthBound c <= b /\ util.keyBound k c <= b.

Definition absent (m : gmap string (json F)) (key : string) : bool :=
  match m !! key with None => true | Some _ => false end.

Definition isString (v : json F) : bool :=
  match v with JStr _ => true | _ => false end.

Definition isObject (v : json F) : bool :=
  match v with JObj _ => true | _ => false end.

(** No keyword that a pass drops or rewrites unconditionally. *)
Definition noDroppedKeyword (m : gmap string (json F)) : bool :=
  forallb (absent m) ("const" :: "additionalProperties" :: util.removeKeys).

(** An [enum] array holds strings only and has fewer than 2 or more than 10
    members, so that no "Allowed:" hint is appended. *)
Definition enumSettled (m : gmap string (json F)) : bool :=
  match util.asSlice (m !! "enum") with
  | Some enumVal =>
      forallb isString enumVal
      && negb (bool_decide (1 < length enumVal)
               && bool_decide (length enumVal <= 10))
  | None => true
  end.

(** The demoted keywords are absent or hold an object or an array. *)
Definition unsupportedSettled (m : gmap string (json F)) : bool :=
  forallb (fun key => match m !! key with
                      | None | Some (JObj _) | Some (JArr _) => true
                      | Some _ => false
                      end) util.unsupportedKeys.

(** No [allOf] array, and no non-empty array under [anyOf], [oneOf] or
    [type]. *)
Definition noUnionOrTypeArray (m : gmap string (json F)) : bool :=
  match util.asSlice (m !! "allOf") with Some _ => false | None => true end
  && forallb (fun key => match util.asSlice (m !! key) with
                         | Some (_ :: _) => false
                         | _ => true
                         end) ["anyOf"; "oneOf"; "type"].

(** An object-typed node has a non-empty [properties] map and, below the
    root, a non-empty [required] array. *)
Definition objectSettled (path : string) (m : gmap string (json F)) : bool :=
  match util.asString (m !! "type") with
  | Some typeStr =>
      if decide (typeStr = "object") then
        match util.asMap (m !! "properties") with
        | Some props =>
            bool_decide (size props <> 0)
            && (bool_decide (path = "")
                || match util.asSlice (m !! "required") with
                   | Some req => bool_decide (0 < length req)
                   | None => false
                   end)
        | None => false
        end
      else true
  | None => true
  end.

(** A [required] array next to a [properties] map lists keys of that map
    only. *)
Definition requiredSettled (m : gmap string (json F)) : bool :=
  match util.asSlice (m !! "required"), util.asMap (m !! "properties") with
  | Some reqArr, Some props =>
      forallb (fun r => match r with
                        | JStr rStr => bool_decide (is_Some (props !! rStr))
                        | _ => false
                        end) reqArr
  | _, _ => true
  end.

Definition settledNode (path : string) (m : gmap string (json F)) : bool :=
  noDroppedKeyword m && enumSettled m && unsupportedSettled m
  && noUnionOrTypeArray m && objectSettled path m && requiredSettled m.

(** Every object node of a value is settled, each at its path. *)
Fixpoint settled (path : string) (v : json F) : bool :=
  match v with
  | JObj m =>
      settledNode path m
      && map_fold (fun key child acc =>
                     settled (util.buildPath path key) child && acc) true m
  | JArr l =>
      (fix elements (l : list (json F)) (i : nat) : bool :=
         match l with
         | [] => true
         | child :: rest =>
             settled (path +:+ "[" +:+ pretty i +:+ "]") child
             && elements rest (S i)
         end) l 0
  | _ => true
  end.

(** A [properties] map whose entries are object schemas, none of them under
    the name of a keyword that a pass drops. *)
Definition plainProperties (props : gmap string (json F)) : bool :=
  noDroppedKeyword props
  && map_fold (fun _ schema acc => isObject schema && acc) true props.

Definition propertiesPlain (m : gmap string (json F)) : bool :=
  match util.asMap (m !! "properties") with
  | Some props => plainProperties props
  | None => true
  end.

(** Every [properties] map of a value is plain. *)
Fixpoint plainPropertiesEverywhere (v : json F) : bool :=
  match v with
  | JObj m =>
      propertiesPlain m
      && map_fold (fun _ child acc => plainPropertiesEverywhere child && acc)
                  true m
  | JArr l => forallb plainPropertiesEverywhere l
  | _ => true
  end.

(** On every object node of a value that has a [required] array and a
    [properties] map, the array lists keys of the map only. *)
Fixpoint requiredSettledEverywhere (v : json F) : bool :=
  match v with
  | JObj m =>
      requiredSettled m
      && map_fold (fun _ child acc => requiredSettledEverywhere child && acc)
                  true m
  | JArr l => forallb requiredSettledEverywhere l
  | _ => true
  end.

(** An entry of a node whose [properties] maps are plain. *)
Definition good (key : string) (child : json F) : Prop :=
  plainPropertiesEverywhere child
  /\ (key = "properties" ->
      forall props, child = JObj props -> plainProperties props).

Definition goodNode (m : gmap string (json F)) : Prop :=
  forall k c, m !! k = Some c -> good k c.

End schema_vocabulary.

(** ** The schema cache *)

Section cache_vocabulary.
Context {F : Type} `{Float64 F}.
Context {mapOrder : Type}.
Variable computeHash : string -> string.
Variable UnmarshalString : string -> option (json F).
Variable MarshalString : mapOrder -> json F -> option string.

(** What [CleanJSONSchemaForAntigravityOptimized] computes on a cache miss
    when the runtime iterates over the maps in the given order. *)
Definition cleanUncached (order : mapOrder) (jsonStr : string) : res string :=
  match UnmarshalString jsonStr with
  | None => mret jsonStr
  | Some schema =>
      schema ← util.cleanSchemaValue schema;
      mret (default jsonStr (MarshalString order schema))
  end.

(** The states of the global cache: the initial one, and those reached by
    calls of the cleaner, each under an order of its own, and of
    [ClearSchemaCache]. *)
Inductive reachable : util.SchemaCache -> Prop :=
  | reachable_initial : reachable util.schemaCache
  | reachable_clean c order jsonStr out c' :
      reachable c ->
      util.CleanJSONSchemaForAntigravityOptimized computeHash UnmarshalString
        MarshalString order jsonStr c = Ok (out, c') ->
      reachable c'
  | reachable_clear c :
      reachable c -> reachable (util.ClearSchemaCache c).

(** Every entry of the cache is the result of a computation, under some
    order. *)
Definition cache_sound (c : util.SchemaCache) : Prop :=
  forall jsonStr cached,
    util.Get c (computeHash jsonStr) = Some cached ->
    exists order, cleanUncached order jsonStr = Ok cached.

(** The schema that the cleaner makes of a text: the decoded and cleaned
    tree, [None] when the text does not decode or the cleaning panics. *)
Definition cleanedTree (jsonStr : string) : option (json F) :=
  schema ← UnmarshalString jsonStr;
  match util.cleanSchemaValue schema with
  | Ok cleaned => Some cleaned
  | Fail _ => None
  end.

(** The decoder reads every text that the encoder writes for [v] back as
    [v]. *)
Definition decodesBack (v : json F) : Prop :=
  forall order text,
    MarshalString order v = Some text -> UnmarshalString text = Some v.

(** Whether the encoder fails on [v] does not depend on the order. *)
Definition encodesAlike (v : json F) : Prop :=
  forall order order',
    is_Some (MarshalString order v) -> is_Some (MarshalString order' v).

End cache_vocabulary.

(** ** Parts and content blocks *)

Section translation_vocabulary.
Context {F : Type} `{Float64 F}.
Variable GetCachedSignature : string -> string -> string.
Variable HasValidSignature : string -> string -> bool.
Variable UnmarshalString : string -> option (json F).
Variable Raw : json F -> string.
Variable Parse : string -> option (json F).
Variable GetThinkingText : option (json F) -> string.

(** A thought part is one with [Thought] set to true. *)
Definition isThought (p : claude.Part.t F) : Prop :=
  claude.Part.Thought p = Some true.

#[global] Instance isThought_dec p : Decision (isThought p).
Proof. unfold isThought. apply _. Defined.

Definition isThinkingBlock (ci : claude.ClaudeContentItem.t F) : Prop :=
  claude.ClaudeContentItem.Type_ ci = "thinking".

#[global] Instance isThinkingBlock_dec ci : Decision (isThinkingBlock ci).
Proof. unfold isThinkingBlock. apply _. Defined.

(** The part that a thinking block yields, if any. *)
Definition thoughtPartV2 (modelName : string)
    (ci : claude.ClaudeContentItem.t F) : option (claude.Part.t F) :=
  (claude.processThinkingContentV2 GetCachedSignature
     HasValidSignature ci modelName true).1.1.1.


(** The loop state for the role "model" against the state for another role
    on the same blocks: same signature and flag, and the two buffers of the
    model run are the thought parts and the other parts of the single buffer
    of the other run. *)
Definition partitioned (model other : claude.blockState (F:=F)) : Prop :=
  claude.currentMessageThinkingSignature model
    = claude.currentMessageThinkingSignature other
  /\ claude.enableThoughtTranslate model = claude.enableThoughtTranslate other
  /\ claude.thinkingParts model = filter isThought (claude.clientParts other)
  /\ claude.otherParts model
     = filter (fun p => ~ isThought p) (claude.clientParts other).

(** The parts of the content blocks in source order, as for [V2]. *)
Definition sourceOrderPartsOptimized (modelName sessionID : string)
    (enable : bool) (blocks : list (option (json F))) : list (claude.Part.t F) :=
  claude.clientParts
    (foldl (claude.contentItemStepOptimized GetCachedSignature
              HasValidSignature Raw Parse GetThinkingText modelName sessionID
              "user")
           (claude.BlockState "" [] [] [] enable) blocks).

(** A tool-use block whose input is JSON null. *)
Definition null_input_tool_use (id name : string) : claude.ClaudeContentItem.t F :=
  claude.ClaudeContentItem.mk "tool_use" "" "" "" name id (Some JNull) ""
    None None.

End translation_vocabulary.

(** ** Tool-use ids *)

(** Whether the byte [c] occurs in [s]. *)
Fixpoint hasByte (c : Ascii.ascii) (s : string) : bool :=
  match s with
  | EmptyString => false
  | String a s' => Ascii.eqb a c || hasByte c s'
  end.

(** The function name as C9 words it: the tool-use id with its trailing two
    dash-delimited segments stripped. *)
Definition stripTrailingTwoSegments (id : string) : string :=
  let segments := strings.Split id "-" in
  strings.Join (take (length segments - 2) segments) "-".

(** ** Concrete inputs *)

(** [{"type":"object","properties":{"age":{"type":["integer","null"]}},
      "required":["age"]}] *)
Definition nullable_age_schema : json Z :=
  object [ ("type", JStr "object");
           ("properties",
            object [ ("age", object [ ("type", JArr [JStr "integer"; JStr "null"]) ]) ]);
           ("required", JArr [JStr "age"]) ].

(** [{"type":"object",
      "properties":{"user":{"type":"object",
                            "properties":{"age":{"type":["integer","null"]}},
                            "required":["age"]}},
      "required":["user"]}] *)
Definition nested_nullable_age_schema : json Z :=
  object [ ("type", JStr "object");
           ("properties",
            object [ ("user",
                      object [ ("type", JStr "object");
                               ("properties",
                                object [ ("age",
                                          object [ ("type",
                                                    JArr [JStr "integer";
                                                          JStr "null"]) ]) ]);
                               ("required", JArr [JStr "age"]) ]) ]);
           ("required", JArr [JStr "user"]) ].

(** [{"type":"array",
      "items":{"type":"object",
               "properties":{"age":{"type":["integer","null"]}},
               "required":["age","id"]}}]: here the owner of the property
    is found, and [age] leaves its [required] list. *)
Definition items_nullable_age_schema : json Z :=
  object [ ("type", JStr "array");
           ("items",
            object [ ("type", JStr "object");
                     ("properties",
                      object [ ("age",
                                object [ ("type",
                                          JArr [JStr "integer"; JStr "null"]) ]);
                               ("id", object [ ("type", JStr "string") ]) ]);
                     ("required", JArr [JStr "age"; JStr "id"]) ]) ].

(** [{"required":["a"]}] *)
Definition required_without_properties : json Z :=
  object [ ("required", JArr [JStr "a"]) ].

(** [{"required":["a"],"anyOf":[{"required":["b"]}]}] *)
Definition required_beside_union : json Z :=
  object [ ("required", JArr [JStr "a"]);
           ("anyOf", JArr [ object [ ("required", JArr [JStr "b"]) ] ]) ].

(** [{"type":"object","properties":{"a":{"type":"string"}},
      "required":["a","b"]}] *)
Definition required_with_unknown_name : gmap string (json Z) :=
  list_to_map
    [ ("type", JStr "object");
      ("properties", object [ ("a", object [ ("type", JStr "string") ]) ]);
      ("required", JArr [JStr "a"; JStr "b"]) ].

(** [{"type":"object","properties":{"$id":{"type":"string"}},
      "required":["$id"]}]: a property under the name of a keyword that the
    cleaner deletes. *)
Definition keyword_named_property : json Z :=
  object [ ("type", JStr "object");
           ("properties", object [ ("$id", object [ ("type", JStr "string") ]) ]);
           ("required", JArr [JStr "$id"]) ].

(** [{"enum":["a","b"]}] *)
Definition two_value_enum : json Z :=
  object [ ("enum", JArr [JStr "a"; JStr "b"]) ].

(** [{"type":"object","properties":{"name":{"type":"string"}},
      "required":["name"]}], a schema that normalization leaves as it
    is. *)
Definition plain_object_schema : json Z :=
  object [ ("type", JStr "object");
           ("properties", object [ ("name", object [ ("type", JStr "string") ]) ]);
           ("required", JArr [JStr "name"]) ].


(** A signature cache that knows no thinking text and accepts the one token
    [good]. *)
Definition noCachedSignature (_ _ : string) : string := "".

Definition acceptOnly (good : string) (_ sig : string) : bool :=
  bool_decide (sig = good).

(** The two map iteration orders of the examples, see [writeJSON] below. *)
Inductive keyOrder : Type := Ascending | Descending.

(** Every call under the ascending order. *)
Definition ascendingOrders (_ : nat) : keyOrder := Ascending.

(** A decoder and an encoder that know no text and no value (no tool schema
    occurs in the examples), and a trivial hash. *)
Definition noDecoder (_ : string) : option (json Z) := None.

Definition noEncoder (_ : keyOrder) (_ : json Z) : option string := None.

Definition anyModel (_ : string) : bool := true.

(** A codec that knows the empty object only. *)
Definition emptyObjectDecoder (text : string) : option (json Z) :=
  if decide (text = "{}") then Some (object []) else None.

Definition emptyObjectEncoder (_ : keyOrder) (v : json Z) : option string :=
  match v with
  | JObj m => if decide (m = ∅) then Some "{}" else None
  | _ => None
  end.

(** ** A codec for the examples

    The encoder writes compact JSON with the keys of every object in
    ascending order, or in descending order: two of the orders in which the
    runtime can iterate over the maps.  It knows the values whose strings
    and keys need no escaping and whose numbers are integers that float64
    holds exactly.  The decoder knows the texts of the values of a table. *)

(** A character that JSON writes as it is. *)
Definition plainChar (a : Ascii.ascii) : bool :=
  let n := Ascii.nat_of_ascii a in
  bool_decide (32 <= n < 127) && negb (bool_decide (n = 34))
  && negb (bool_decide (n = 92)).

Fixpoint plainText (s : string) : bool :=
  match s with
  | EmptyString => true
  | String a s' => plainChar a && plainText s'
  end.

Definition quoted (s : string) : option string :=
  if plainText s
  then Some (String "034"%char s +:+ String "034"%char "")
  else None.

#[global] Instance field_le_dec (a b : string * string) :
  Decision (util.string_le a.1 b.1).
Proof. apply _. Defined.

(** The members of an object, given as (key, text of the value) with the
    keys in the order of the call. *)
Definition writeMembers (order : keyOrder) (members : list (string * string))
  : option string :=
  let sorted := merge_sort (fun a b => util.string_le a.1 b.1) members in
  let ordered :=
    match order with Ascending => sorted | Descending => reverse sorted end in
  texts ← mapM (fun member : string * string =>
                  key ← quoted member.1; Some (key +:+ ":" +:+ member.2))
               ordered;
  Some ("{" +:+ strings.Join texts "," +:+ "}").

Fixpoint writeJSON (order : keyOrder) (v : json Z) : option string :=
  match v with
  | JNull => Some "null"
  | JBool true => Some "true"
  | JBool false => Some "false"
  | JNum n =>
      if bool_decide (Z.abs n <= 2 ^ 53)%Z then Some (pretty n) else None
  | JStr s => quoted s
  | JArr l =>
      texts ← mapM (writeJSON order) l;
      Some ("[" +:+ strings.Join texts "," +:+ "]")
  | JObj m =>
      members ←
        map_fold (fun key child acc =>
                    members ← acc;
                    text ← writeJSON order child;
                    Some ((key, text) :: members))
                 (Some []) m;
      writeMembers order members
  end.

(** The decoder that knows the texts of the values of [known]. *)
Definition readKnown (known : list (json Z)) (text : string)
  : option (json Z) :=
  head (filter (fun v => writeJSON Ascending v = Some text
                         \/ writeJSON Descending v = Some text) known).

(** An object schema with two keywords, which the cleaner leaves as it
    is. *)
Definition titled_string_schema : json Z :=
  object [ ("title", JStr "Name"); ("type", JStr "string") ].

(** The text of that schema with the keys in ascending order, and the text
    with the keys in descending order. *)
Definition titled_string_ascending : string :=
  default "" (writeJSON Ascending titled_string_schema).

Definition titled_string_descending : string :=
  default "" (writeJSON Descending titled_string_schema).

(** Likewise for [plain_object_schema]. *)
Definition plain_object_ascending : string :=
  default "" (writeJSON Ascending plain_object_schema).

Definition plain_object_descending : string :=
  default "" (writeJSON Descending plain_object_schema).

(** A thinking block without a signature. *)
Definition unsigned_thinking_block : claude.ClaudeContentItem.t Z :=
  claude.ClaudeContentItem.mk "thinking" "" "" "let me think" "" "" None ""
    None None.

(** A thinking block carrying the client signature "<model>#valid-token". *)
Definition signed_thinking_block : claude.ClaudeContentItem.t Z :=
  claude.ClaudeContentItem.mk "thinking" "" "m#valid-token" "step one" "" ""
    None "" None None.

Definition text_block (text : string) : claude.ClaudeContentItem.t Z :=
  claude.ClaudeContentItem.mk "text" text "" "" "" "" None "" None None.


(** An assistant turn with an unsigned thinking block and a text block, and
    the directive [{"type":"adaptive"}]. *)
Definition adaptive_request_with_unsigned_thought : claude.ClaudeRequest.t Z :=
  claude.ClaudeRequest.mk "claude-sonnet-4-5-thinking" claude.SystemEmpty
    [ claude.ClaudeMessage.mk "assistant"
        (claude.ContentItems
           [ unsigned_thinking_block;
             claude.ClaudeContentItem.mk "text" "hello" "" "" "" "" None ""
               None None ]) ]
    []
    (Some (claude.ClaudeThinking.mk "adaptive" None))
    None None None None None.

(** The translation of that request: one model turn with the text part, no
    system instruction, no tools, no generation config. *)
Definition translated_adaptive_request : claude.AntigravityRequest.t Z :=
  claude.AntigravityRequest.mk "claude-sonnet-4-5-thinking"
    (claude.RequestContent.mk None
       [ claude.ContentItem.mk "model" [ claude.Part.text "hello" ] ]
       [] None).

(** A tool-result block with the given tool-use id. *)
Definition tool_result_block (id : string) : claude.ClaudeContentItem.t Z :=
  claude.ClaudeContentItem.mk "tool_result" "" "" "" "" "" None id None None.

Definition function_name_of (part : option (claude.Part.t Z)) : option string :=
  match part with
  | Some part => claude.FunctionResponse.Name <$> claude.Part.FunctionResponse part
  | None => None
  end.

(** ** Schemas: what the cleaner removes, and what lets it return *)

Section cleaned_vocabulary.
Context {F : Type}.

(** The [type] of a node is no non-empty array. *)
Definition typeFlattened (m : gmap string (json F)) : bool :=
  match util.asSlice (m !! "type") with
  | Some (_ :: _) => false
  | _ => true
  end.

(** A node without any of the keywords of [removeKeys] and without a type
    array. *)
Definition nodeCleaned (m : gmap string (json F)) : bool :=
  forallb (absent m) util.removeKeys && typeFlattened m.

(** Every object node of a value is cleaned. *)
Fixpoint cleanedEverywhere (v : json F) : bool :=
  match v with
  | JObj m =>
      nodeCleaned m
      && map_fold (fun _ child acc => cleanedEverywhere child && acc) true m
  | JArr l => forallb cleanedEverywhere l
  | _ => true
  end.

End cleaned_vocabulary.

Section sound_vocabulary.
Context {F : Type}.

(** The [properties] of a node, when present, is an object. *)
Definition propertiesIsObject (m : gmap string (json F)) : bool :=
  match m !! "properties" with
  | Some c => isObject c
  | None => true
  end.

(** The same on every object node of a value. *)
Fixpoint propertiesAreObjects (v : json F) : bool :=
  match v with
  | JObj m =>
      propertiesIsObject m
      && map_fold (fun _ child acc => propertiesAreObjects child && acc) true m
  | JArr l => forallb propertiesAreObjects l
  | _ => true
  end.

(** An entry of a node whose [properties] are objects. *)
Definition sound (key : string) (child : json F) : Prop :=
  propertiesAreObjects child /\ (key = "properties" -> isObject child).

Definition soundNode (m : gmap string (json F)) : Prop :=
  forall k c, m !! k = Some c -> sound k c.

End sound_vocabulary.

(** ** Union members *)

Section union_vocabulary.
Context {F : Type}.

(** The score that [selectBestSchema] gives a union member: 3 for an
    object schema, 2 for an array schema, 1 for another non-null type, 0
    otherwise. *)
Definition schemaScore (itemObj : gmap string (json F)) : Z :=
  let t := default "" (util.asString (itemObj !! "type")) in
  let notNil k :=
    match itemObj !! k with
    | None | Some JNull => false
    | Some _ => true
    end in
  if bool_decide (t = "object") || notNil "properties" then 3%Z
  else if bool_decide (t = "array") || notNil "items" then 2%Z
  else if bool_decide (t <> "") && bool_decide (t <> "null") then 1%Z
  else 0%Z.

End union_vocabulary.

(** ** A request that is translated in full *)

(** A request for the model "m": a system prompt, a user turn, an assistant
    turn with a text block and a signed thinking block, a tool with the
    schema [{}] and a tool without a schema, and thinking enabled with the
    budget zero. *)
Definition signed_request : claude.ClaudeRequest.t Z :=
  claude.ClaudeRequest.mk "m" (claude.SystemString "be brief")
    [ claude.ClaudeMessage.mk "user" (claude.ContentString "hi");
      claude.ClaudeMessage.mk "assistant"
        (claude.ContentItems [ text_block "a"; signed_thinking_block ]) ]
    [ claude.ClaudeTool.mk "lookup" "looks things up" "{}" "";
      claude.ClaudeTool.mk "noop" "does nothing" "" "" ]
    (Some (claude.ClaudeThinking.mk "enabled" (Some 0%Z)))
    None None None None None.

(** The thought part of [signed_thinking_block]. *)
Definition signed_thought : claude.Part.t Z :=
  claude.Part.mk "step one" (Some true) "valid-token" None None None.

(** The translation of [signed_request]. *)
Definition translated_signed_request : claude.AntigravityRequest.t Z :=
  claude.AntigravityRequest.mk "m"
    (claude.RequestContent.mk
       (Some (claude.ContentItem.mk "user"
                [ claude.Part.text "be brief";
                  claude.Part.text claude.interleavedHint ]))
       [ claude.ContentItem.mk "user" [ claude.Part.text "hi" ];
         claude.ContentItem.mk "model"
           [ signed_thought; claude.Part.text "a" ] ]
       [ claude.ToolDeclaration.mk
           [ claude.FunctionDeclaration.mk "lookup" "looks things up" "" "{}" ] ]
       (Some (claude.GenerationConfig.mk None None None None
                (Some (claude.ThinkingConfig.mk (Some 0%Z) "" false))))).




(** A request with a tool whose schema is the text of
    [titled_string_schema] with the keys in ascending order, and a tool
    without a schema. *)
Definition titled_tool_request : claude.ClaudeRequest.t Z :=
  claude.ClaudeRequest.mk "m" claude.SystemEmpty []
    [ claude.ClaudeTool.mk "lookup" "looks things up" titled_string_ascending
        "";
      claude.ClaudeTool.mk "noop" "does nothing" "" "" ]
    None None None None None None.

(** The cache after a call of the cleaner for that text under the
    descending order. *)
Definition cache_filled_descending : util.SchemaCache :=
  util.Set_ util.schemaCache titled_string_ascending titled_string_descending.

(** The translation of [titled_tool_request] from that cache: the
    declaration carries the cached text. *)
Definition translated_titled_tool_request : claude.AntigravityRequest.t Z :=
  claude.AntigravityRequest.mk "m"
    (claude.RequestContent.mk None []
       [ claude.ToolDeclaration.mk
           [ claude.FunctionDeclaration.mk "lookup" "looks things up" ""
               titled_string_descending ] ]
       None).

(** * Properties *)

(** ** The numbers of the examples *)

(** [%v] on the integers: decimal digits below 10^6, the exponent form from
    there on; [Result.Int] stays within [int64]. *)
Example formatFloat_of_integers :
  formatFloat 0%Z = "0"
  /\ formatFloat (-5)%Z = "-5"
  /\ formatFloat 999999%Z = "999999"
  /\ formatFloat 1000000%Z = "1e+06"
  /\ formatFloat (-1500000)%Z = "-1.5e+06"
  /\ formatFloat 9007199254740992%Z = "9.007199254740992e+15"
  /\ floatToInt 1024%Z = 1024%Z
  /\ floatToInt (2 ^ 70)%Z = (2 ^ 63 - 1)%Z.
Proof. repeat split; vm_compute; reflexivity. Qed.

(** ** Schema normalizer: evaluation on concrete schemas *)

(** C1 (the code at a failing input).  For the root-level property [age] typed
    ["integer","null"] and listed in [required], the cleaner flattens the type
    to "integer" but adds no "(nullable)" hint and leaves [age] in [required]:
    the path of the property, "properties.age", does not contain
    ".properties.", so the nullable field is never recorded. *)
Theorem C1_root_nullable_property_stays_required :
  util.cleanSchemaValue nullable_age_schema =
  Ok (object [ ("type", JStr "object");
               ("properties", object [ ("age", object [ ("type", JStr "integer") ]) ]);
               ("required", JArr [JStr "age"]) ]).
Proof. vm_compute. reflexivity. Qed.

(** C2 (counterexample).  A node with a [required] list and no [properties]
    passes through the cleaner unchanged: [cleanupRequiredInPlace] returns at
    once when either is missing.  The output lists "a" as required although
    the node has no property of that name. *)
Lemma C2_counterexample_required_without_properties :
  util.cleanSchemaValue required_without_properties
    = Ok required_without_properties
  /\ requiredWithinPropertiesEverywhere required_without_properties = false.
Proof. split; vm_compute; reflexivity. Qed.

(** C3 (counterexample).  The "Allowed: ..." hint of an enum with 2 to 10
    members is appended on every pass, so a second pass changes the
    description again. *)
Lemma C3_counterexample_enum_hint_appended_again :
  util.cleanSchemaValue two_value_enum
    = Ok (object [ ("enum", JArr [JStr "a"; JStr "b"]);
                   ("description", JStr "Allowed: a, b") ])
  /\ (util.cleanSchemaValue two_value_enum ≫= util.cleanSchemaValue)
    = Ok (object [ ("enum", JArr [JStr "a"; JStr "b"]);
                   ("description", JStr "Allowed: a, b (Allowed: a, b)") ])
  /\ (util.cleanSchemaValue two_value_enum ≫= util.cleanSchemaValue)
    <> util.cleanSchemaValue two_value_enum.
Proof. split; [|split]; vm_compute; [reflexivity|reflexivity|discriminate]. Qed.


(** ** Schema normalizer: general properties *)

Section schema_properties.
Context {F : Type} `{Float64 F}.

(** The result monad. *)
Lemma res_bind_Ok {A B} (f : A -> res B) (m : res A) (b : B) :
  m ≫= f = Ok b <-> exists a, m = Ok a /\ f a = Ok b.
Proof.
  destruct m as [a|e]; simpl; split.
  - intros Hf. exists a. done.
  - intros (a' & [= <-] & Hf). done.
  - discriminate.
  - intros (a' & [=] & _).
  Qed.

(** A loop over the children that changes none of them changes nothing. *)
Lemma rangeChildren_unchanged_upto
    (rec : json F -> string -> util.cleanContext -> res (json F * util.cleanContext))
    (v m : gmap string (json F)) (path : string) (ctx : util.cleanContext) :
  (forall key child, v !! key = Some child ->
     rec child (util.buildPath path key) ctx = Ok (child, ctx)) ->
  m ⊆ v ->
  map_fold (fun key child (acc : res (gmap string (json F) * util.cleanContext)) =>
              '(v, ctx) ← acc;
              '(child, ctx) ← rec child (util.buildPath path key) ctx;
              mret (<[key := child]> v, ctx))
           (Ok (v, ctx)) m
  = Ok (v, ctx).
Proof.
  intros Hrec. 
  apply (map_fold_weak_ind (fun r m => m ⊆ v -> r = Ok (v, ctx))).
  - done.
  - intros key child m' r Hnone IH Hsub.
    assert (v !! key = Some child) as Hkey.
    { eapply lookup_weaken; [|exact Hsub]. apply lookup_insert_eq. }
    rewrite IH.
    + simpl. rewrite (Hrec _ _ Hkey). simpl.
      unfold mret, res_ret. by rewrite insert_id.
    + etrans; [|exact Hsub]. by apply insert_subseteq.
Qed.

Lemma rangeChildren_unchanged
    (rec : json F -> string -> util.cleanContext -> res (json F * util.cleanContext))
    (v : gmap string (json F)) (path : string) (ctx : util.cleanContext) :
  (forall key child, v !! key = Some child ->
     rec child (util.buildPath path key) ctx = Ok (child, ctx)) ->
  util.rangeChildren rec v path ctx = Ok (v, ctx).
Proof. intros Hrec. by apply rangeChildren_unchanged_upto. Qed.

Lemma rangeElements_unchanged
    (rec : json F -> string -> util.cleanContext -> res (json F * util.cleanContext))
    (v : list (json F)) (path : string) (i : nat) (ctx : util.cleanContext) :
  (forall j child, v !! j = Some child ->
     rec child (path +:+ "[" +:+ pretty (i + j) +:+ "]") ctx = Ok (child, ctx)) ->
  util.rangeElements rec v path i ctx = Ok (v, ctx).
Proof.
  revert i. induction v as [|child rest IH]; intros i Hrec; [done|].
  simpl. rewrite <- (Nat.add_0_r i) at 1.
  rewrite (Hrec 0 child eq_refl). simpl.
  rewrite IH; [done|].
  intros j c Hj. rewrite Nat.add_succ_comm. by apply (Hrec (S j)).
Qed.

(** Scalars are returned as they are, whatever the fuel. *)
Lemma cleanSchemaRecursive_scalar fuel (v : json F) path ctx :
  (forall l, v <> JArr l) -> (forall m, v <> JObj m) ->
  util.cleanSchemaRecursive fuel v path ctx = Ok (v, ctx).
Proof.
  intros Harr Hobj.
  destruct v; try (by destruct fuel); [by edestruct Harr | by edestruct Hobj].
Qed.


(** [removeKeys] deletes none of the other keys. *)
Lemma lookup_removeUnsupportedKeywords (node : gmap string (json F)) (key : string) :
  key ∉ util.removeKeys ->
  util.removeUnsupportedKeywords node !! key = node !! key.
Proof.
  intros Hkey. unfold util.removeUnsupportedKeywords.
  revert node. induction util.removeKeys as [|k ks IH]; intros node; [done|].
  apply not_elem_of_cons in Hkey as [Hne Hkey].
  simpl. rewrite IH by done. by apply lookup_delete_ne.
Qed.

Lemma length_filter_all {A} (P : A -> Prop) `{!forall x, Decision (P x)} (l : list A) :
  length (filter P l) = length l -> Forall P l.
Proof.
  induction l as [|x l IH]; [constructor|].
  rewrite filter_cons. destruct (decide (P x)) as [HP|HP]; simpl.
  - intros [= Hlen]. constructor; auto.
  - intros Hlen. pose proof (length_filter P l). lia.
Qed.

(** What [cleanupRequiredInPlace] leaves in [required] when the node has a
    [properties] map. *)
Lemma cleanupRequiredInPlace_within (node props : gmap string (json F))
    (reqArr : list (json F)) :
  util.asMap (util.cleanupRequiredInPlace node !! "properties") = Some props ->
  util.asSlice (util.cleanupRequiredInPlace node !! "required") = Some reqArr ->
  Forall (fun r => exists name, r = JStr name /\ is_Some (props !! name)) reqArr.
Proof.
  unfold util.cleanupRequiredInPlace.
  destruct (util.asSlice (node !! "required")) as [reqArr0|] eqn:Hreq;
    [|by intros _; rewrite Hreq].
  destruct (util.asMap (node !! "properties")) as [props0|] eqn:Hprops;
    [|by rewrite Hprops].
  set (valid := filter _ reqArr0).
  assert (Forall (fun r => exists name, r = JStr name /\ is_Some (props0 !! name)) valid)
    as Hvalid.
  { apply Forall_forall. intros r [Hr _]%list_elem_of_filter.
    destruct r; try done. apply bool_decide_unpack in Hr. eauto. }
  destruct (decide (length valid <> length reqArr0)) as [Hne|Heq].
  - destruct (decide (length valid = 0)).
    + by rewrite lookup_delete_eq.
    + rewrite lookup_insert_ne by done. rewrite lookup_insert_eq, Hprops.
      by intros [= <-] [= <-].
  - rewrite Hprops, Hreq. intros [= <-] [= <-].
    apply dec_stable in Heq. apply length_filter_all in Heq.
    eapply Forall_impl; [exact Heq|]. simpl.
    intros r Hr. destruct r; try done. apply bool_decide_unpack in Hr. eauto.
Qed.

(** When [processObjectNode] has processed an object node, the node's
    [required] array, if the node has both a [required] array and a
    [properties] map, lists only strings that are keys of that [properties]
    map. *)
Lemma processObjectNode_required_within
    (node node' props : gmap string (json F)) (reqArr : list (json F))
    (path : string) (ctx ctx' : util.cleanContext) :
  util.processObjectNode node path ctx = Ok (node', ctx') ->
  node' !! "properties" = Some (JObj props) ->
  node' !! "required" = Some (JArr reqArr) ->
  Forall (fun r => exists name, r = JStr name /\ is_Some (props !! name)) reqArr.
Proof.
  unfold util.processObjectNode.
  destruct (util.asString (node !! "$ref")) as [refVal|].
  { intros [= <- <-]. unfold util.refReplacement.
    rewrite lookup_insert_ne by done. by rewrite lookup_insert_ne. }
  intros (merged & _ & Hrest)%res_bind_Ok.
  destruct (util.flattenTypeArray _ _ _) as [typed ctx1].
  injection Hrest as <- <-.
  rewrite !lookup_removeUnsupportedKeywords
    by (by apply (bool_decide_eq_false_1 _); vm_compute).
  intros Hprops Hreq. eapply cleanupRequiredInPlace_within.
  - by rewrite Hprops.
  - by rewrite Hreq.
Qed.

End schema_properties.

(** ** Schema cache *)

Section cache_properties.
Context {F : Type} `{Float64 F} {mapOrder : Type}.
Variable computeHash : string -> string.
Variable UnmarshalString : string -> option (json F).
Variable MarshalString : mapOrder -> json F -> option string.

Lemma lookup_foldl_delete {A} (m : gmap string A) (keys : list string) key x :
  foldl (fun m k => delete k m) m keys !! key = Some x -> m !! key = Some x.
Proof.
  revert m. induction keys as [|k keys IH]; intros m; [done|].
  simpl. intros Hx%IH. by apply lookup_delete_Some in Hx as [_ Hx].
Qed.

Lemma cache_sound_evictHalf c :
  cache_sound computeHash UnmarshalString MarshalString c ->
  cache_sound computeHash UnmarshalString MarshalString (util.evictHalf c).
Proof.
  intros Hc jsonStr cached. unfold util.Get, util.evictHalf. simpl.
  intros Hx%lookup_foldl_delete. by apply Hc.
Qed.

Lemma cleaner_hit c order jsonStr cached :
  util.Get c (computeHash jsonStr) = Some cached ->
  util.CleanJSONSchemaForAntigravityOptimized computeHash UnmarshalString
    MarshalString order jsonStr c = Ok (cached, c).
Proof.
  intros Hget. unfold util.CleanJSONSchemaForAntigravityOptimized.
  by rewrite Hget.
Qed.

(** On a miss the cleaner returns what [cleanUncached] computes under the
    order of the call. *)
Lemma cleaner_miss c order jsonStr :
  util.Get c (computeHash jsonStr) = None ->
  fst <$> (match util.CleanJSONSchemaForAntigravityOptimized computeHash
                   UnmarshalString MarshalString order jsonStr c with
           | Ok r => Some r | Fail _ => None end)
  = match cleanUncached UnmarshalString MarshalString order jsonStr with
    | Ok r => Some r
    | Fail _ => None
    end.
Proof.
  intros Hget.
  unfold util.CleanJSONSchemaForAntigravityOptimized, cleanUncached.
  rewrite Hget. destruct (UnmarshalString jsonStr) as [schema|]; [|done].
  destruct (util.cleanSchemaValue schema) as [cleaned|]; [|done].
  simpl. by destruct (MarshalString order cleaned).
Qed.

(** Whether the computation returns does not depend on the order, and what
    it returns is the text itself or a text of the cleaned tree. *)
Lemma cleanUncached_Ok order jsonStr out :
  cleanUncached UnmarshalString MarshalString order jsonStr = Ok out ->
  match cleanedTree UnmarshalString jsonStr with
  | Some cleaned => out = default jsonStr (MarshalString order cleaned)
  | None => UnmarshalString jsonStr = None /\ out = jsonStr
  end.
Proof.
  unfold cleanUncached, cleanedTree.
  destruct (UnmarshalString jsonStr) as [schema|]; [|by intros [= <-]].
  cbn [mbind option_bind].
  destruct (util.cleanSchemaValue schema) as [cleaned|]; [|done].
  by intros [= <-].
Qed.

Lemma cleanUncached_returns order order' jsonStr out :
  cleanUncached UnmarshalString MarshalString order jsonStr = Ok out ->
  exists out',
    cleanUncached UnmarshalString MarshalString order' jsonStr = Ok out'.
Proof.
  unfold cleanUncached.
  destruct (UnmarshalString jsonStr) as [schema|]; [|by eexists].
  destruct (util.cleanSchemaValue schema) as [cleaned|]; [|done].
  by eexists.
Qed.

(** Two results of the computation are texts of the same tree. *)
Lemma cleanUncached_same_tree order order' jsonStr out out' :
  (forall cleaned,
     cleanedTree UnmarshalString jsonStr = Some cleaned ->
     decodesBack UnmarshalString MarshalString cleaned
     /\ encodesAlike MarshalString cleaned) ->
  cleanUncached UnmarshalString MarshalString order jsonStr = Ok out ->
  cleanUncached UnmarshalString MarshalString order' jsonStr = Ok out' ->
  UnmarshalString out' = UnmarshalString out.
Proof.
  intros Hcodec Hout%cleanUncached_Ok Hout'%cleanUncached_Ok.
  destruct (cleanedTree UnmarshalString jsonStr) as [cleaned|];
    [|by destruct Hout as [_ ->], Hout' as [_ ->]].
  destruct (Hcodec cleaned eq_refl) as [Hback Halike]. subst out out'.
  destruct (MarshalString order cleaned) as [text|] eqn:Htext;
    destruct (MarshalString order' cleaned) as [text'|] eqn:Htext'; simpl.
  - by rewrite (Hback _ _ Htext), (Hback _ _ Htext').
  - destruct (Halike order order') as [? Hsome]; [by eexists|].
    by rewrite Htext' in Hsome.
  - destruct (Halike order' order) as [? Hsome]; [by eexists|].
    by rewrite Htext in Hsome.
  - done.
Qed.

(** A call that follows a call for the same text, on the cache that the
    first call left, returns the same text and leaves the cache as it is. *)
Lemma cleaner_again c order order' jsonStr out c' :
  (forall cleaned,
     cleanedTree UnmarshalString jsonStr = Some cleaned ->
     encodesAlike MarshalString cleaned) ->
  util.CleanJSONSchemaForAntigravityOptimized computeHash UnmarshalString
    MarshalString order jsonStr c = Ok (out, c') ->
  util.CleanJSONSchemaForAntigravityOptimized computeHash UnmarshalString
    MarshalString order' jsonStr c' = Ok (out, c').
Proof.
  intros Halike. unfold util.CleanJSONSchemaForAntigravityOptimized.
  destruct (util.Get c (computeHash jsonStr)) as [cached|] eqn:Hget.
  { intros [= <- <-]. by rewrite Hget. }
  unfold cleanedTree in Halike.
  destruct (UnmarshalString jsonStr) as [schema|] eqn:Hparse;
    [|by intros [= <- <-]; rewrite Hget].
  cbn [mbind option_bind] in Halike.
  destruct (util.cleanSchemaValue schema) as [cleaned|] eqn:Hclean; [|done].
  specialize (Halike cleaned eq_refl). cbn [mbind res_bind].
  destruct (MarshalString order cleaned) as [result|] eqn:Hprint;
    intros [= <- <-].
  - unfold util.Get, util.Set_. cbn [util.cache].
    by rewrite lookup_insert_eq.
  - rewrite Hget.
    destruct (MarshalString order' cleaned) as [result'|] eqn:Hprint'; [|done].
    destruct (Halike order' order) as [? Hsome]; [by eexists|].
    by rewrite Hprint in Hsome.
Qed.

Section collision_free.
(** SHA-256 is taken to be collision-free on the texts hashed. *)
Hypothesis computeHash_inj :
  forall s1 s2, computeHash s1 = computeHash s2 -> s1 = s2.

Lemma cache_sound_Set c order jsonStr result :
  cache_sound computeHash UnmarshalString MarshalString c ->
  cleanUncached UnmarshalString MarshalString order jsonStr = Ok result ->
  cache_sound computeHash UnmarshalString MarshalString
    (util.Set_ c (computeHash jsonStr) result).
Proof.
  intros Hc Hresult other cached. unfold util.Set_, util.Get. simpl.
  intros [[Hhash <-]|[Hne Hget]]%lookup_insert_Some.
  - apply computeHash_inj in Hhash as <-. by exists order.
  - destruct (decide _); [by eapply cache_sound_evictHalf|by apply Hc].
Qed.

(** With a sound cache the cleaner returns a result of the computation, hit
    or miss, and leaves a sound cache. *)
Lemma cleaner_sound c order jsonStr out c' :
  cache_sound computeHash UnmarshalString MarshalString c ->
  util.CleanJSONSchemaForAntigravityOptimized computeHash UnmarshalString
    MarshalString order jsonStr c = Ok (out, c') ->
  (exists order',
     cleanUncached UnmarshalString MarshalString order' jsonStr = Ok out)
  /\ cache_sound computeHash UnmarshalString MarshalString c'.
Proof.
  intros Hc. unfold util.CleanJSONSchemaForAntigravityOptimized.
  destruct (util.Get c (computeHash jsonStr)) as [cached|] eqn:Hget.
  { intros [= <- <-]. split; [by apply Hc|done]. }
  unfold cleanUncached.
  destruct (UnmarshalString jsonStr) as [schema|] eqn:Hparse;
    [|by intros [= <- <-]; split; [exists order|]].
  destruct (util.cleanSchemaValue schema) as [cleaned|] eqn:Hclean; [|done].
  simpl. destruct (MarshalString order cleaned) as [result|] eqn:Hprint;
    intros [= <- <-].
  - split; [exists order; by rewrite Hprint|].
    apply (cache_sound_Set _ order); [done|].
    unfold cleanUncached. by rewrite Hparse, Hclean; simpl; rewrite Hprint.
  - split; [exists order; by rewrite Hprint|done].
Qed.

Lemma reachable_sound c :
  reachable computeHash UnmarshalString MarshalString c ->
  cache_sound computeHash UnmarshalString MarshalString c.
Proof.
  induction 1 as [|c order jsonStr out c' _ IH Hclean|c _ IH].
  - intros jsonStr cached. unfold util.Get. simpl. by rewrite lookup_empty.
  - by eapply cleaner_sound.
  - intros jsonStr cached. unfold util.Get. simpl. by rewrite lookup_empty.
Qed.

(** With a sound cache the cleaner returns whenever the computation does. *)
Lemma cleaner_returns c order jsonStr out :
  cache_sound computeHash UnmarshalString MarshalString c ->
  cleanUncached UnmarshalString MarshalString order jsonStr = Ok out ->
  exists out' c',
    util.CleanJSONSchemaForAntigravityOptimized computeHash UnmarshalString
      MarshalString order jsonStr c = Ok (out', c').
Proof.
  intros Hc Hout.
  destruct (util.Get c (computeHash jsonStr)) as [cached|] eqn:Hget.
  - rewrite (cleaner_hit _ _ _ _ Hget). eauto.
  - pose proof (cleaner_miss _ order _ Hget) as Hmiss. rewrite Hout in Hmiss.
    revert Hmiss.
    destruct (util.CleanJSONSchemaForAntigravityOptimized computeHash
                UnmarshalString MarshalString order jsonStr c)
      as [[out' c']|]; [|done].
    eauto.
Qed.

(** C7 (amended).  In every state of the cache that the program can reach,
    a call of the cleaner that returns [out] is followed by the same text
    for the same input while the cache is left as it is.  From any other
    state that the program can reach, in particular after
    [ClearSchemaCache], the call returns again, and what it returns is a
    text of the same schema: it decodes as [out] does.  After
    [ClearSchemaCache] it is the text computed under the order of that
    call, which need not be [out].  The hash is taken to be collision-free;
    of the codec it is assumed that the decoder reads the texts of the
    cleaned schema back as that schema, and that a failure of the encoder
    does not depend on the order. *)
Theorem C7_repeated_call_returns_the_same_schema
    (c c1 : util.SchemaCache) (order : mapOrder) (jsonStr out : string) :
  (forall cleaned,
     cleanedTree UnmarshalString jsonStr = Some cleaned ->
     decodesBack UnmarshalString MarshalString cleaned
     /\ encodesAlike MarshalString cleaned) ->
  reachable computeHash UnmarshalString MarshalString c ->
  util.CleanJSONSchemaForAntigravityOptimized computeHash UnmarshalString
    MarshalString order jsonStr c = Ok (out, c1) ->
  (forall order2,
     util.CleanJSONSchemaForAntigravityOptimized computeHash UnmarshalString
       MarshalString order2 jsonStr c1 = Ok (out, c1))
  /\ (forall c2 order2,
        reachable computeHash UnmarshalString MarshalString c2 ->
        exists out2 c3,
          util.CleanJSONSchemaForAntigravityOptimized computeHash
            UnmarshalString MarshalString order2 jsonStr c2 = Ok (out2, c3)
          /\ UnmarshalString out2 = UnmarshalString out)
  /\ (forall order2, exists out2 c3,
        util.CleanJSONSchemaForAntigravityOptimized computeHash
          UnmarshalString MarshalString order2 jsonStr
          (util.ClearSchemaCache c1) = Ok (out2, c3)
        /\ cleanUncached UnmarshalString MarshalString order2 jsonStr
           = Ok out2
        /\ UnmarshalString out2 = UnmarshalString out).
Proof.
  intros Hcodec Hreach Hfirst.
  destruct (cleaner_sound _ _ _ _ _ (reachable_sound _ Hreach) Hfirst)
    as [[order1 Hout] _].
  assert (forall c2 order2,
            reachable computeHash UnmarshalString MarshalString c2 ->
            exists out2 c3,
              util.CleanJSONSchemaForAntigravityOptimized computeHash
                UnmarshalString MarshalString order2 jsonStr c2
              = Ok (out2, c3)
              /\ UnmarshalString out2 = UnmarshalString out) as Hlater.
  { intros c2 order2 Hreach2.
    destruct (cleanUncached_returns _ order2 _ _ Hout) as [out' Hout'].
    destruct (cleaner_returns c2 _ _ _ (reachable_sound _ Hreach2) Hout')
      as (out2 & c3 & Hsecond).
    exists out2, c3. split; [done|].
    destruct (cleaner_sound _ _ _ _ _ (reachable_sound _ Hreach2) Hsecond)
      as [[order3 Hout2] _].
    by eapply cleanUncached_same_tree. }
  split; [|split; [done|]].
  - intros order2. eapply cleaner_again; [|done].
    intros cleaned Hcleaned. by apply Hcodec.
  - intros order2.
    destruct (cleanUncached_returns _ order2 _ _ Hout) as [out2 Hout2].
    assert (util.Get (util.ClearSchemaCache c1) (computeHash jsonStr) = None)
      as Hget by (unfold util.Get; simpl; apply lookup_empty).
    pose proof (cleaner_miss _ order2 _ Hget) as Hmiss.
    rewrite Hout2 in Hmiss. revert Hmiss.
    destruct (util.CleanJSONSchemaForAntigravityOptimized computeHash
                UnmarshalString MarshalString order2 jsonStr
                (util.ClearSchemaCache c1)) as [[out2' c3]|]; [|done].
    simpl. intros [= ->]. exists out2, c3. split; [done|]. split; [done|].
    by eapply cleanUncached_same_tree.
Qed.

End collision_free.
End cache_properties.

(** ** Request translation (V2): ordering of the parts of a model turn *)

Section v2_properties.
Context {F : Type} `{Float64 F} {mapOrder : Type}.
Variable GetCachedSignature : string -> string -> string.
Variable HasValidSignature : string -> string -> bool.
Variable UnmarshalString : string -> option (json F).

#[local] Abbreviation stepV2 := (claude.contentItemStepV2 GetCachedSignature
                      HasValidSignature UnmarshalString).
#[local] Abbreviation thinkingV2 := (claude.processThinkingContentV2 GetCachedSignature
                          HasValidSignature).




Lemma toolUseV2_not_thought (ci : claude.ClaudeContentItem.t F) sig part :
  claude.processToolUseContentV2 HasValidSignature UnmarshalString ci sig
    = Some part ->
  claude.Part.Thought part = None.
Proof.
  unfold claude.processToolUseContentV2.
  destruct (claude.ClaudeContentItem.Input ci) as [input|]; [|done].
  destruct (claude.sonic.UnmarshalMap input); [by intros [= <-]|].
  destruct (claude.sonic.UnmarshalStr input); [|done].
  by destruct (_ ≫= _); [intros [= <-]|].
Qed.

Lemma toolResultV2_not_thought (ci : claude.ClaudeContentItem.t F) part :
  claude.processToolResultContentV2 ci = Some part ->
  claude.Part.Thought part = None.
Proof.
  unfold claude.processToolResultContentV2.
  destruct (decide _); [done|]. by intros [= <-].
Qed.

Lemma imageV2_not_thought (ci : claude.ClaudeContentItem.t F) part :
  claude.processImageContentV2 ci = Some part ->
  claude.Part.Thought part = None.
Proof.
  unfold claude.processImageContentV2.
  destruct (claude.ClaudeContentItem.Source ci) as [source|]; [|done].
  destruct (decide _); [done|]. by intros [= <-].
Qed.

Lemma partitioned_appendOther (model other : claude.blockState (F:=F))
    part :
  partitioned model other ->
  claude.Part.Thought part = None ->
  partitioned (claude.appendOther "model" model part)
              (claude.appendOther "user" other part).
Proof.
  intros (Hsig & Hflag & Hthoughts & Hothers) Hpart.
  unfold partitioned, claude.appendOther. simpl.
  rewrite !filter_app, !filter_cons, !filter_nil.
  assert (~ isThought part) as Hnot by (unfold isThought; by rewrite Hpart).
  rewrite decide_False by done. rewrite decide_True by done.
  rewrite app_nil_r. by rewrite Hothers.
Qed.







(** *** The thinking-translation-disabled flag *)

Variable IsClaudeThinkingModel : string -> bool.
Variable computeHash : string -> string.
Variable MarshalString : mapOrder -> json F -> option string.

Lemma flag_stays_lowered_step modelName role (st : claude.blockState) ci :
  claude.enableThoughtTranslate st = false ->
  claude.enableThoughtTranslate (stepV2 modelName role st ci) = false.
Proof.
  intros Hflag.
  assert (forall part,
    claude.enableThoughtTranslate (claude.appendOther role st part) = false)
    as Happend.
  { intros part. unfold claude.appendOther. by destruct (decide _). }
  unfold claude.contentItemStepV2.
  destruct (decide (_ = "thinking")).
  { rewrite Hflag. unfold claude.processThinkingContentV2.
    destruct (negb _); simpl; [done|].
    destruct (HasValidSignature modelName _), (decide (role = "model")); done. }
  destruct (decide (_ = "text")); [done|].
  destruct (decide (_ = "tool_use")); [by case_match|].
  destruct (decide (_ = "tool_result")); [by case_match|].
  destruct (decide (_ = "image")); [by case_match|done].
Qed.

Lemma flag_stays_lowered_foldl modelName role blocks (st : claude.blockState) :
  claude.enableThoughtTranslate st = false ->
  claude.enableThoughtTranslate (foldl (stepV2 modelName role) st blocks) = false.
Proof.
  revert st. induction blocks as [|ci blocks IH]; intros st Hflag; [done|].
  simpl. by apply IH, flag_stays_lowered_step.
Qed.

(** A thinking block that yields no part lowers the flag. *)
Lemma dropped_thought_lowers_flag modelName role (st : claude.blockState) ci :
  isThinkingBlock ci ->
  thoughtPartV2 GetCachedSignature HasValidSignature modelName ci = None ->
  claude.enableThoughtTranslate (stepV2 modelName role st ci) = false.
Proof.
  unfold isThinkingBlock, thoughtPartV2, claude.contentItemStepV2.
  intros -> Hpart. simpl.
  unfold claude.processThinkingContentV2 in *.
  by destruct (negb _).
Qed.

Lemma flag_stays_lowered_message modelName contents msg :
  (claude.messageStepV2 GetCachedSignature HasValidSignature UnmarshalString
     modelName (contents, false) msg).2 = false.
Proof.
  unfold claude.messageStepV2.
  destruct (claude.ClaudeMessage.Content msg) as [blocks| |]; simpl; [|done..].
  by apply flag_stays_lowered_foldl.
Qed.

Lemma flag_stays_lowered_messages modelName messages contents :
  (foldl (claude.messageStepV2 GetCachedSignature HasValidSignature
            UnmarshalString modelName) (contents, false) messages).2 = false.
Proof.
  revert contents. induction messages as [|msg messages IH]; intros contents;
    [done|].
  cbn [foldl].
  pose proof (flag_stays_lowered_message modelName contents msg) as Hflag.
  destruct (claude.messageStepV2 _ _ _ _ _ _) as [contents' flag].
  simpl in Hflag. subst flag. apply IH.
Qed.

(** The flag is lowered at the end of the messages as soon as one thinking
    block of one message was dropped. *)
Lemma dropped_thought_disables_translation modelName messages msg blocks ci :
  msg ∈ messages ->
  claude.ClaudeMessage.Content msg = claude.ContentItems blocks ->
  ci ∈ blocks ->
  isThinkingBlock ci ->
  thoughtPartV2 GetCachedSignature HasValidSignature modelName ci = None ->
  (claude.processMessagesV2 GetCachedSignature HasValidSignature
     UnmarshalString modelName messages).2 = false.
Proof.
  intros (before & after & ->)%list_elem_of_split Hcontent
         (b1 & b2 & ->)%list_elem_of_split Hthinking Hdropped.
  unfold claude.processMessagesV2. rewrite foldl_app. cbn [foldl].
  destruct (foldl _ _ before) as [contents flag].
  assert ((claude.messageStepV2 GetCachedSignature HasValidSignature
             UnmarshalString modelName (contents, flag) msg).2 = false) as Hmsg.
  { unfold claude.messageStepV2. rewrite Hcontent. simpl.
    rewrite foldl_app. simpl. apply flag_stays_lowered_foldl.
    by apply dropped_thought_lowers_flag. }
  destruct (claude.messageStepV2 _ _ _ _ _ _) as [contents' flag'].
  simpl in Hmsg. subst flag'. apply flag_stays_lowered_messages.
Qed.

(** With the flag lowered no directive maps to a thinking config. *)
Lemma thinkingConfigV2_disabled thinking :
  claude.thinkingConfigV2 false thinking = None.
Proof. by destruct thinking. Qed.

(** C5 (amended).  When a thinking block of the request was dropped because
    its signature failed validation, the translated request carries no
    thinkingConfig, whatever the thinking directive: the mapping of mode
    "enabled" with a budget and the mapping of mode "adaptive" are both
    guarded by the flag. *)
Theorem C5_dropped_thought_suppresses_every_thinking_config
    (modelName : string) (req : claude.ClaudeRequest.t F)
    (orders : nat -> mapOrder)
    (c c' : util.SchemaCache) (out : claude.AntigravityRequest.t F)
    (msg : claude.ClaudeMessage.t F)
    (blocks : list (claude.ClaudeContentItem.t F))
    (ci : claude.ClaudeContentItem.t F) :
  msg ∈ claude.ClaudeRequest.Messages req ->
  claude.ClaudeMessage.Content msg = claude.ContentItems blocks ->
  ci ∈ blocks ->
  isThinkingBlock ci ->
  thoughtPartV2 GetCachedSignature HasValidSignature modelName ci = None ->
  claude.ConvertClaudeRequestToAntigravityV2 GetCachedSignature
    HasValidSignature IsClaudeThinkingModel computeHash UnmarshalString
    MarshalString modelName req orders c = Ok (out, c') ->
  claude.RequestContent.GenerationConfig (claude.AntigravityRequest.Request out)
    ≫= claude.GenerationConfig.ThinkingConfig = None.
Proof.
  intros Hmsg Hcontent Hci Hthinking Hdropped.
  pose proof (dropped_thought_disables_translation modelName _ _ _ _
                Hmsg Hcontent Hci Hthinking Hdropped) as Hflag.
  unfold claude.ConvertClaudeRequestToAntigravityV2.
  destruct (claude.processSystemV2 _) as [systemInstruction hasSystem].
  destruct (claude.processMessagesV2 _ _ _ _ _) as [contents flag].
  simpl in Hflag. subst flag.
  intros ([decls c1] & _ & [= <- _])%res_bind_Ok. simpl.
  unfold claude.generationConfigV2. rewrite thinkingConfigV2_disabled.
  by destruct (_ || _).
Qed.

(** *** The thinking directive with a budget *)

(** The V2 translator maps mode "enabled" with budget [b] to
    [{thinkingBudget: b, includeThoughts: b <> 0}]. *)
Lemma thinkingConfigV2_enabled_budget (b : Z) :
  claude.thinkingConfigV2 true
    (Some (claude.ClaudeThinking.mk "enabled" (Some b)))
  = Some (claude.ThinkingConfig.mk (Some b) "" (bool_decide (b <> 0%Z))).
Proof. done. Qed.

Lemma generationConfigV2_enabled_budget (req : claude.ClaudeRequest.t F) (b : Z) :
  claude.ClaudeRequest.Thinking req
    = Some (claude.ClaudeThinking.mk "enabled" (Some b)) ->
  claude.generationConfigV2 true req ≫= claude.GenerationConfig.ThinkingConfig
  = Some (claude.ThinkingConfig.mk (Some b) "" (bool_decide (b <> 0%Z))).
Proof.
  intros Hthinking. unfold claude.generationConfigV2. by rewrite Hthinking.
Qed.

End v2_properties.

(** ** Request translation: tool results and tool uses *)

Lemma Split_nonempty s sep : strings.Split s sep <> [].
Proof.
  destruct s as [|a s]; simpl; [done|].
  destruct (Ascii.eqb a sep); [done|]. by destruct (strings.Split s sep).
Qed.

(** The segments of [strings.Split] joined by the separator are the string
    again, and there is one more segment than separators. *)
Lemma Join_Split s sep :
  strings.Join (strings.Split s sep) (String sep EmptyString) = s.
Proof.
  unfold strings.Join. induction s as [|a s IH]; simpl; [done|].
  destruct (Ascii.eqb_spec a sep) as [->|Hne].
  - pose proof (Split_nonempty s sep).
    destruct (strings.Split s sep) as [|x xs]; [done|].
    simpl in *. by rewrite IH.
  - pose proof (Split_nonempty s sep).
    destruct (strings.Split s sep) as [|x xs]; [done|].
    destruct xs as [|y ys]; simpl in *; by rewrite <- IH.
Qed.

Lemma Split_several s sep :
  1 < length (strings.Split s sep) <-> hasByte sep s = true.
Proof.
  induction s as [|a s IH]; simpl; [split; [lia|done]|].
  pose proof (Split_nonempty s sep).
  destruct (Ascii.eqb a sep); simpl.
  - split; [done|]. intros _. destruct (strings.Split s sep); [done|simpl; lia].
  - rewrite <- IH. by destruct (strings.Split s sep).
Qed.

Section tool_properties.
Context {F : Type} `{Float64 F}.
Variable HasValidSignature : string -> string -> bool.
Variable UnmarshalString : string -> option (json F).

(** C9 (amended).  A tool-result block with a non-empty tool-use id yields a
    function-response part that carries the id; its function name is the id
    with the trailing two dash-delimited segments stripped when the id
    contains a dash, and the id itself when it contains none. *)
Theorem C9_function_name_of_tool_result (ci : claude.ClaudeContentItem.t F) :
  claude.ClaudeContentItem.ToolUseID ci <> "" ->
  exists part response,
    claude.processToolResultContentV2 ci = Some part
    /\ claude.Part.FunctionResponse part = Some response
    /\ claude.FunctionResponse.ID response = claude.ClaudeContentItem.ToolUseID ci
    /\ claude.FunctionResponse.Name response
       = (if hasByte "-" (claude.ClaudeContentItem.ToolUseID ci)
          then stripTrailingTwoSegments (claude.ClaudeContentItem.ToolUseID ci)
          else claude.ClaudeContentItem.ToolUseID ci).
Proof.
  intros Hid. unfold claude.processToolResultContentV2.
  rewrite decide_False by done.
  eexists _, _. split; [done|]. simpl. split; [done|]. split; [done|].
  destruct (decide (1 < _)) as [Hlen|Hlen].
  - apply Split_several in Hlen. by rewrite Hlen.
  - destruct (hasByte _ _) eqn:Hdash; [|done].
    by apply Split_several in Hdash.
Qed.

(** The optimized translator derives the name in the same way. *)
Lemma function_name_of_tool_result_optimized (Raw : json F -> string)
    (contentResult : option (json F)) :
  let id := claude.gjson.String Raw (claude.gjson.Get contentResult "tool_use_id") in
  id <> "" ->
  exists part response,
    claude.processToolResultContent Raw contentResult = Some part
    /\ claude.Part.FunctionResponse part = Some response
    /\ claude.FunctionResponse.Name response
       = (if hasByte "-" id then stripTrailingTwoSegments id else id).
Proof.
  intros id Hid. unfold claude.processToolResultContent. fold id.
  rewrite decide_False by done.
  eexists _, _. split; [done|]. simpl. split; [done|].
  destruct (decide (1 < _)) as [Hlen|Hlen].
  - apply Split_several in Hlen. by rewrite Hlen.
  - destruct (hasByte _ _) eqn:Hdash; [|done].
    by apply Split_several in Hdash.
Qed.

(** C10 (the code at a failing input).  The V2 translator emits a
    function-call part, with [null] as its arguments, for a tool-use block
    whose input is JSON null: decoding null into a map is no error, so the
    validation of the input lets it through. *)
Theorem C10_v2_emits_call_for_null_input (id name sig : string) :
  claude.processToolUseContentV2 HasValidSignature UnmarshalString
    (null_input_tool_use id name) sig
  = Some (claude.Part.mk "" None
            (if HasValidSignature "" sig then sig else claude.skipSentinel)
            (Some (claude.FunctionCall.mk id name (Some JNull))) None None).
Proof. done. Qed.

(** The same happens for an input that is a string holding the text of null,
    whatever the decoder makes of other texts. *)
Lemma v2_emits_call_for_string_null (ci : claude.ClaudeContentItem.t F)
    (text sig : string) :
  claude.ClaudeContentItem.Input ci = Some (JStr text) ->
  UnmarshalString text = Some JNull ->
  exists part call,
    claude.processToolUseContentV2 HasValidSignature UnmarshalString ci sig
      = Some part
    /\ claude.Part.FunctionCall part = Some call
    /\ claude.FunctionCall.Args call = Some JNull.
Proof.
  intros Hinput Hnull. unfold claude.processToolUseContentV2.
  rewrite Hinput. simpl. rewrite Hnull. simpl. eauto.
Qed.

(** What the V2 translator does drop: an absent input, an input that is a
    number, a boolean or an array, and a string whose text decodes to
    neither an object nor null. *)
Lemma v2_drops_other_inputs (ci : claude.ClaudeContentItem.t F) (sig : string) :
  match claude.ClaudeContentItem.Input ci with
  | None | Some (JBool _) | Some (JNum _) | Some (JArr _) => True
  | Some (JStr text) =>
      match UnmarshalString text with
      | Some (JObj _) | Some JNull => False
      | _ => True
      end
  | Some (JObj _) | Some JNull => False
  end ->
  claude.processToolUseContentV2 HasValidSignature UnmarshalString ci sig = None.
Proof.
  unfold claude.processToolUseContentV2.
  destruct (claude.ClaudeContentItem.Input ci) as [[| | |text| |]|]; try done.
  simpl. by destruct (UnmarshalString text) as [[]|].
Qed.

(** The optimized translator drops every input that is neither an object
    nor a string whose text parses to an object, JSON null included. *)
Lemma optimized_drops_non_object_input (Raw : json F -> string)
    (Parse : string -> option (json F)) (contentResult : option (json F))
    (modelName sig : string) :
  match claude.gjson.Get contentResult "input" with
  | Some (JObj _) => False
  | Some (JStr text) => match Parse text with Some (JObj _) => False | _ => True end
  | _ => True
  end ->
  claude.processToolUseContent HasValidSignature Raw Parse contentResult
    modelName sig = None.
Proof.
  unfold claude.processToolUseContent.
  destruct (claude.gjson.Get contentResult "input") as [[| | |text| |]|];
    try done.
  simpl. by destruct (Parse text) as [[]|].
Qed.

(** *** The thinking directive in the optimized translator *)

(** C6 (the code at a failing input).  For the directive
    [{"type":"enabled","budget_tokens":b}] the optimized translator sets
    includeThoughts to true whatever the budget, also for the budget 0. *)
Theorem C6_optimized_includes_thoughts_for_every_budget
    (Raw : json F -> string) (b : F) :
  claude.thinkingConfigOptimized Raw true
    (Some (object [ ("type", JStr "enabled"); ("budget_tokens", JNum b) ]))
  = Some (claude.ThinkingConfig.mk (Some (floatToInt b)) "" true).
Proof.
  unfold claude.thinkingConfigOptimized, object. simpl.
  rewrite lookup_insert_eq. simpl.
  rewrite lookup_insert_ne by done. by rewrite lookup_insert_eq.
Qed.

End tool_properties.

(** ** Closed examples of the translators *)

(** C5 (counterexample).  The unsigned thinking block is dropped, which
    lowers the flag; the directive of mode "adaptive" then yields no
    thinkingConfig, and no generation config at all. *)
Lemma C5_counterexample_adaptive_suppressed :
  claude.ConvertClaudeRequestToAntigravityV2 noCachedSignature
    (acceptOnly "valid-token") anyModel id noDecoder noEncoder
    "claude-sonnet-4-5-thinking" adaptive_request_with_unsigned_thought
    ascendingOrders util.schemaCache
  = Ok (translated_adaptive_request, util.schemaCache)
  /\ claude.RequestContent.GenerationConfig
       (claude.AntigravityRequest.Request translated_adaptive_request)
     ≫= claude.GenerationConfig.ThinkingConfig = None
  /\ claude.thinkingConfigV2 false (Some (claude.ClaudeThinking.mk "adaptive" None))
     <> Some (claude.ThinkingConfig.mk None "high" true).
Proof. split; [vm_compute; reflexivity|split; [reflexivity|discriminate]]. Qed.

(** C7 (counterexample).  The cleaner is called for the text of
    [titled_string_schema], the cache is cleared, and the cleaner is called
    for the same text again while the runtime iterates over the keys in
    another order: the two outputs are different texts. *)
Lemma C7_counterexample_cleared_cache_other_key_order :
  let decoder := readKnown [titled_string_schema] in
  let c1 := util.Set_ util.schemaCache titled_string_ascending
              titled_string_ascending in
  util.CleanJSONSchemaForAntigravityOptimized id decoder writeJSON
    Ascending titled_string_ascending util.schemaCache
  = Ok (titled_string_ascending, c1)
  /\ util.CleanJSONSchemaForAntigravityOptimized id decoder writeJSON
       Descending titled_string_ascending (util.ClearSchemaCache c1)
     = Ok (titled_string_descending,
           util.Set_ util.schemaCache titled_string_ascending
             titled_string_descending)
  /\ titled_string_descending <> titled_string_ascending.
Proof.
  split; [vm_compute; reflexivity|]. split; [vm_compute; reflexivity|].
  vm_compute. discriminate.
Qed.

(** C9 (counterexample).  An id without a dash has a single segment;
    stripping its trailing segments leaves nothing, but the translator uses
    the whole id as the function name. *)
Lemma C9_counterexample_id_without_dash :
  function_name_of (claude.processToolResultContentV2 (tool_result_block "toolu_01A09q90qw"))
    = Some "toolu_01A09q90qw"
  /\ stripTrailingTwoSegments "toolu_01A09q90qw" = ""
  /\ function_name_of (claude.processToolResultContentV2 (tool_result_block "toolu_01A09q90qw"))
     <> Some (stripTrailingTwoSegments "toolu_01A09q90qw").
Proof. split; [|split]; vm_compute; [reflexivity|reflexivity|discriminate]. Qed.

(** The scenario of C9: "call-abc-123-456" yields "call-abc". *)
Example function_name_call_abc :
  function_name_of (claude.processToolResultContentV2 (tool_result_block "call-abc-123-456"))
  = Some "call-abc".
Proof. vm_compute. reflexivity. Qed.

(** C6 (the code at the failing input).  For
    [{"type":"enabled","budget_tokens":0}] the optimized translator emits
    includeThoughts = true, where the V2 translator emits false. *)
Theorem C6_zero_budget_optimized_includes_thoughts :
  claude.thinkingConfigOptimized (fun _ : json Z => "") true
    (Some (object [ ("type", JStr "enabled"); ("budget_tokens", JNum 0%Z) ]))
  = Some (claude.ThinkingConfig.mk (Some 0%Z) "" true)
  /\ claude.thinkingConfigV2 true
       (Some (claude.ClaudeThinking.mk "enabled" (Some 0%Z)))
     = Some (claude.ThinkingConfig.mk (Some 0%Z) "" false).
Proof. split; vm_compute; reflexivity. Qed.

(** ** The theorems at concrete inputs *)


(** The theorem at the schema [titled_string_schema], first cleaned under
    the ascending order: the call that follows returns the same text under
    the descending order too, and after [ClearSchemaCache] the call returns
    a text that decodes to the same schema. *)
Lemma C7_witness :
  let decoder := readKnown [titled_string_schema] in
  let c1 := util.Set_ util.schemaCache titled_string_ascending
              titled_string_ascending in
  (forall s1 s2 : string, id s1 = id s2 -> s1 = s2)
  /\ (forall cleaned,
        cleanedTree decoder titled_string_ascending = Some cleaned ->
        decodesBack decoder writeJSON cleaned
        /\ encodesAlike writeJSON cleaned)
  /\ reachable id decoder writeJSON util.schemaCache
  /\ util.CleanJSONSchemaForAntigravityOptimized id decoder writeJSON
       Ascending titled_string_ascending util.schemaCache
     = Ok (titled_string_ascending, c1)
  /\ util.CleanJSONSchemaForAntigravityOptimized id decoder writeJSON
       Descending titled_string_ascending c1
     = Ok (titled_string_ascending, c1)
  /\ exists out2 c3,
       util.CleanJSONSchemaForAntigravityOptimized id decoder writeJSON
         Descending titled_string_ascending (util.ClearSchemaCache c1)
       = Ok (out2, c3)
       /\ decoder out2 = decoder titled_string_ascending.
Proof.
  intros decoder c1.
  assert (forall s1 s2 : string, id s1 = id s2 -> s1 = s2) as Hinj
    by (intros s1 s2 Heq; exact Heq).
  assert (forall cleaned,
            cleanedTree decoder titled_string_ascending = Some cleaned ->
            decodesBack decoder writeJSON cleaned
            /\ encodesAlike writeJSON cleaned) as Hcodec.
  { intros cleaned Hcleaned.
    assert (cleaned = titled_string_schema) as ->.
    { assert (cleanedTree decoder titled_string_ascending
              = Some titled_string_schema) as Htree
        by (vm_compute; reflexivity).
      rewrite Htree in Hcleaned. by injection Hcleaned. }
    split.
    - intros order text Htext.
      assert (text = default "" (writeJSON order titled_string_schema))
        as -> by (by rewrite Htext).
      destruct order; vm_compute; reflexivity.
    - intros order order' _. destruct order'; vm_compute; by eexists. }
  assert (util.CleanJSONSchemaForAntigravityOptimized id decoder writeJSON
            Ascending titled_string_ascending util.schemaCache
          = Ok (titled_string_ascending, c1)) as Hfirst
    by (vm_compute; reflexivity).
  destruct (C7_repeated_call_returns_the_same_schema id decoder writeJSON Hinj
              util.schemaCache c1 Ascending titled_string_ascending
              titled_string_ascending Hcodec (reachable_initial _ _ _) Hfirst)
    as (Hagain & _ & Hcleared).
  split; [exact Hinj|]. split; [exact Hcodec|].
  split; [apply reachable_initial|]. split; [exact Hfirst|].
  split; [exact (Hagain Descending)|].
  destruct (Hcleared Descending) as (out2 & c3 & Hsecond & _ & Hsame).
  exists out2, c3. split; [exact Hsecond|exact Hsame].
Defined.


Lemma C5_witness :
  let req := adaptive_request_with_unsigned_thought in
  let msg := claude.ClaudeMessage.mk "assistant"
               (claude.ContentItems
                  [ unsigned_thinking_block; text_block "hello" ]) in
  msg ∈ claude.ClaudeRequest.Messages req
  /\ unsigned_thinking_block ∈ [ unsigned_thinking_block; text_block "hello" ]
  /\ isThinkingBlock unsigned_thinking_block
  /\ thoughtPartV2 noCachedSignature (acceptOnly "valid-token")
       "claude-sonnet-4-5-thinking" unsigned_thinking_block = None
  /\ exists out c',
       claude.ConvertClaudeRequestToAntigravityV2 noCachedSignature
         (acceptOnly "valid-token") anyModel id noDecoder noEncoder
         "claude-sonnet-4-5-thinking" req ascendingOrders util.schemaCache
       = Ok (out, c')
       /\ claude.RequestContent.GenerationConfig
            (claude.AntigravityRequest.Request out)
          ≫= claude.GenerationConfig.ThinkingConfig = None.
Proof.
  intros req msg.
  assert (msg ∈ claude.ClaudeRequest.Messages req) as Hmsg
    by apply list_elem_of_here.
  assert (unsigned_thinking_block
            ∈ [ unsigned_thinking_block; text_block "hello" ]) as Hci
    by apply list_elem_of_here.
  assert (isThinkingBlock unsigned_thinking_block) as Hthinking by reflexivity.
  assert (thoughtPartV2 noCachedSignature (acceptOnly "valid-token")
            "claude-sonnet-4-5-thinking" unsigned_thinking_block = None)
    as Hdropped by reflexivity.
  split; [exact Hmsg|]. split; [exact Hci|]. split; [exact Hthinking|].
  split; [exact Hdropped|].
  assert (claude.ConvertClaudeRequestToAntigravityV2 noCachedSignature
            (acceptOnly "valid-token") anyModel id noDecoder noEncoder
            "claude-sonnet-4-5-thinking" req ascendingOrders util.schemaCache
          = Ok (translated_adaptive_request, util.schemaCache)) as Hout
    by (vm_compute; reflexivity).
  exists translated_adaptive_request, util.schemaCache. split; [exact Hout|].
  exact (C5_dropped_thought_suppresses_every_thinking_config noCachedSignature
           (acceptOnly "valid-token") noDecoder anyModel id noEncoder
           "claude-sonnet-4-5-thinking" req ascendingOrders util.schemaCache
           util.schemaCache translated_adaptive_request msg _
           unsigned_thinking_block Hmsg eq_refl Hci Hthinking Hdropped Hout).
Defined.

Lemma C9_witness :
  claude.ClaudeContentItem.ToolUseID (tool_result_block "call-abc-123-456") <> ""
  /\ exists part response,
       claude.processToolResultContentV2 (tool_result_block "call-abc-123-456")
         = Some part
       /\ claude.Part.FunctionResponse part = Some response
       /\ claude.FunctionResponse.Name response = "call-abc".
Proof.
  assert (claude.ClaudeContentItem.ToolUseID (tool_result_block "call-abc-123-456")
          <> "") as Hid by discriminate.
  split; [exact Hid|].
  destruct (C9_function_name_of_tool_result
              (tool_result_block "call-abc-123-456") Hid)
    as (part & response & Hpart & Hresponse & _ & Hname).
  exists part, response. split; [exact Hpart|]. split; [exact Hresponse|].
  rewrite Hname. vm_compute. reflexivity.
Defined.

(** ** Schema normalizer: the traversal never runs out of fuel *)

Section termination.
Context {F : Type} `{Float64 F}.

Lemma map_fold_max_le {A} (g : string -> A -> nat) (m : gmap string A) (b : nat) :
  map_fold (fun k c acc => g k c `max` acc) 0 m <= b
  <-> forall k c, m !! k = Some c -> g k c <= b.
Proof.
  apply (map_fold_weak_ind
           (fun r m => r <= b <-> forall k c, m !! k = Some c -> g k c <= b)).
  - split; [by intros _ k c; rewrite lookup_empty|lia].
  - intros i x m' r Hnone IH. split.
    + intros Hmax k c [[<- <-]|[Hne Hk]]%lookup_insert_Some; [lia|].
      apply IH; [lia|done].
    + intros Hall.
      assert (g i x <= b) by (apply Hall, lookup_insert_eq).
      assert (r <= b); [|lia].
      apply IH. intros k c Hk. apply Hall.
      rewrite lookup_insert_ne; [done|]. by intros ->; rewrite Hnone in Hk.
Qed.

Lemma foldr_max_le {A} (g : A -> nat) (l : list A) (b : nat) :
  foldr (fun c acc => g c `max` acc) 0 l <= b <-> Forall (fun c => g c <= b) l.
Proof.
  induction l as [|c l IH]; simpl.
  - split; [constructor|lia].
  - rewrite Forall_cons, <- IH. lia.
Qed.

Lemma depthBound_obj_le (m : gmap string (json F)) (b : nat) :
  util.depthBound (JObj m) <= S b <-> bounded b m.
Proof.
  simpl. rewrite <- Nat.succ_le_mono, map_fold_max_le. unfold bounded.
  split; intros Hall k c Hk; specialize (Hall k c Hk); lia.
Qed.

Lemma depthBound_arr_le (l : list (json F)) (b : nat) :
  util.depthBound (JArr l) <= S b <-> Forall (fun c => util.depthBound c <= b) l.
Proof. simpl. by rewrite <- Nat.succ_le_mono, foldr_max_le. Qed.

Lemma depthBound_obj_inv (m : gmap string (json F)) (b : nat) :
  util.depthBound (JObj m) <= b -> exists b', b = S b' /\ bounded b' m.
Proof.
  destruct b as [|b']; [simpl; lia|].
  intros Hm. exists b'. by rewrite <- depthBound_obj_le.
Qed.

Lemma depthBound_arr_inv (l : list (json F)) (b : nat) :
  util.depthBound (JArr l) <= b ->
  exists b', b = S b' /\ Forall (fun c => util.depthBound c <= b') l.
Proof.
  destruct b as [|b']; [simpl; lia|].
  intros Hl. exists b'. by rewrite <- depthBound_arr_le.
Qed.

Lemma depthBound_strings (l : list string) :
  util.depthBound (JArr (JStr <$> l) : json F) <= 1.
Proof.
  apply depthBound_arr_le, Forall_fmap, Forall_forall. intros s _. simpl. lia.
Qed.

Lemma bounded_weaken b b' (m : gmap string (json F)) :
  b <= b' -> bounded b m -> bounded b' m.
Proof. intros Hle Hm k c Hk. destruct (Hm k c Hk). lia. Qed.

Lemma bounded_empty b : bounded b (∅ : gmap string (json F)).
Proof. intros k c. by rewrite lookup_empty. Qed.

Lemma bounded_insert b (m : gmap string (json F)) k c :
  bounded b m -> util.depthBound c <= b -> util.keyBound k c <= b ->
  bounded b (<[k := c]> m).
Proof.
  intros Hm Hc Hk k' c' [[<- <-]|[_ Hk']]%lookup_insert_Some; [done|by apply Hm].
Qed.

Lemma bounded_delete b (m : gmap string (json F)) k :
  bounded b m -> bounded b (delete k m).
Proof. intros Hm k' c' [_ Hk']%lookup_delete_Some. by apply Hm. Qed.

Lemma bounded_union b (m1 m2 : gmap string (json F)) :
  bounded b m1 -> bounded b m2 -> bounded b (m1 ∪ m2).
Proof.
  intros H1 H2 k c [Hk|[_ Hk]]%lookup_union_Some_raw; [by apply H1|by apply H2].
Qed.

Lemma keyBound_plain k (c : json F) :
  k <> "type" -> k <> "anyOf" -> k <> "oneOf" -> k <> "const" ->
  util.keyBound k c = 0.
Proof.
  intros Htype Hany Hone Hconst. unfold util.keyBound.
  rewrite decide_False by done.
  rewrite decide_False by (by intros [?|?]).
  by rewrite decide_False by done.
Qed.

Lemma bounded_insert_plain b (m : gmap string (json F)) k c :
  k <> "type" -> k <> "anyOf" -> k <> "oneOf" -> k <> "const" ->
  bounded b m -> util.depthBound c <= b -> bounded b (<[k := c]> m).
Proof.
  intros. apply bounded_insert; [done..|]. rewrite keyBound_plain by done. lia.
Qed.

Lemma bounded_appendHint b (node : gmap string (json F)) hint :
  bounded b node -> bounded b (util.appendHintToNode node hint).
Proof.
  intros Hnode. unfold util.appendHintToNode.
  destruct (decide _); apply bounded_insert_plain; try done; simpl; lia.
Qed.

(** Steps 2 and 3: a [const] becomes a one-element [enum], whose members
    are then replaced by strings. *)
Lemma bounded_stringifyEnum b (node : gmap string (json F)) :
  (forall k c, k <> "enum" -> node !! k = Some c ->
     util.depthBound c <= b /\ util.keyBound k c <= b) ->
  (forall c, node !! "enum" = Some c ->
     (exists l, c = JArr l /\ 1 <= b) \/ util.depthBound c <= b) ->
  bounded b (util.stringifyEnum node).
Proof.
  intros Hother Henum. unfold util.stringifyEnum.
  destruct (node !! "enum") as [c|] eqn:Hc; simpl.
  - destruct (Henum c eq_refl) as [(l & -> & Hb)|Hdepth].
    + assert (bounded b (<["enum" :=
                JArr ((fun v => JStr (fmt.Sprint v)) <$> l)]> node)) as Hnew.
      { intros k c' [[<- <-]|[Hne Hk]]%lookup_insert_Some; [|by apply Hother].
        split; [|by rewrite keyBound_plain by done; lia].
        etrans; [|exact Hb].
        apply depthBound_arr_le, Forall_fmap, Forall_forall.
        intros v _. simpl. lia. }
      destruct (_ && _); [by apply bounded_appendHint|done].
    + assert (bounded b node) as Hnode.
      { intros k c' Hk. destruct (decide (k = "enum")) as [->|Hne];
          [|by apply Hother].
        rewrite Hc in Hk. injection Hk as <-.
        split; [done|by rewrite keyBound_plain by done; lia]. }
      destruct c as [| | | |l|]; try done.
      apply depthBound_arr_inv in Hdepth as (b' & -> & _).
      assert (bounded (S b') (<["enum" :=
                JArr ((fun v => JStr (fmt.Sprint v)) <$> l)]> node)) as Hnew.
      { apply bounded_insert_plain; try done.
        apply depthBound_arr_le, Forall_fmap, Forall_forall.
        intros v _. simpl. lia. }
      destruct (_ && _); [by apply bounded_appendHint|done].
  - intros k c Hk. apply Hother; [|done]. by intros ->; rewrite Hc in Hk.
Qed.

Lemma bounded_enum_steps b (node : gmap string (json F)) :
  bounded b node -> bounded b (util.stringifyEnum (util.constToEnum node)).
Proof.
  intros Hnode. apply bounded_stringifyEnum; unfold util.constToEnum.
  - intros k c Hne. destruct (node !! "const") as [constVal|];
      [|by apply Hnode].
    intros [_ Hk]%lookup_delete_Some. destruct (decide _); [by apply Hnode|].
    rewrite lookup_insert_ne in Hk by done. by apply Hnode.
  - intros c. destruct (node !! "const") as [constVal|] eqn:Hconst;
      [|by intros Hk; right; apply Hnode in Hk as [? _]].
    intros [_ Hk]%lookup_delete_Some.
    destruct (decide _); [by right; apply Hnode in Hk as [? _]|].
    rewrite lookup_insert_eq in Hk. injection Hk as <-.
    left. eexists. split; [done|].
    by apply Hnode in Hconst as [_ Hkey].
Qed.

Lemma bounded_dropAdditionalProperties b (node : gmap string (json F)) :
  bounded b node -> bounded b (util.dropAdditionalProperties node).
Proof.
  intros Hnode. unfold util.dropAdditionalProperties.
  destruct (node !! "additionalProperties") as [addProps|]; [|done].
  apply bounded_delete.
  destruct (util.asBool _) as [[]|]; [done| |done].
  by apply bounded_appendHint.
Qed.

Lemma bounded_demoteUnsupported b (node : gmap string (json F)) :
  bounded b node -> bounded b (util.demoteUnsupported node).
Proof.
  unfold util.demoteUnsupported. revert node.
  induction util.unsupportedKeys as [|key keys IH]; intros node Hnode; [done|].
  simpl. apply IH.
  destruct (node !! key) as [[]|]; try done;
    by apply bounded_delete, bounded_appendHint.
Qed.

Lemma depthBound_filter b (P : json F -> Prop) `{!forall x, Decision (P x)}
    (l : list (json F)) :
  util.depthBound (JArr l) <= b -> util.depthBound (JArr (filter P l)) <= b.
Proof.
  intros (b' & -> & Hl)%depthBound_arr_inv.
  apply depthBound_arr_le, Forall_forall.
  intros c [_ Hc]%list_elem_of_filter.
  by eapply Forall_forall in Hl.
Qed.

Lemma bounded_cleanupRequired b (node : gmap string (json F)) :
  bounded b node -> bounded b (util.cleanupRequiredInPlace node).
Proof.
  intros Hnode. unfold util.cleanupRequiredInPlace.
  destruct (util.asSlice (node !! "required")) as [reqArr|] eqn:Hreq; [|done].
  destruct (util.asMap (node !! "properties")) as [props|]; [|done].
  destruct (decide _); [|done].
  destruct (decide _); [by apply bounded_delete|].
  apply bounded_insert_plain; try done.
  apply depthBound_filter.
  destruct (node !! "required") as [[]|] eqn:Hk; try done.
  injection Hreq as ->. by apply Hnode in Hk as [? _].
Qed.

Lemma bounded_removeUnsupportedKeywords b (node : gmap string (json F)) :
  bounded b node -> bounded b (util.removeUnsupportedKeywords node).
Proof.
  unfold util.removeUnsupportedKeywords. revert node.
  induction util.removeKeys as [|key keys IH]; intros node Hnode; [done|].
  simpl. by apply IH, bounded_delete.
Qed.

(** Step 6. *)
Lemma bounded_mergeAllOfInPlace b (parent merged : gmap string (json F))
    (allOf : list (json F)) :
  bounded b parent ->
  util.depthBound (JArr allOf) <= b ->
  util.mergeAllOfInPlace parent allOf = Ok merged ->
  bounded b merged.
Proof.
  intros Hparent (b' & -> & Hitems)%depthBound_arr_inv.
  unfold util.mergeAllOfInPlace.
  set (parent1 := if decide (is_Some (parent !! "properties")) then parent
                  else <["properties" := JObj ∅]> parent).
  assert (bounded (S b') parent1) as Hparent1.
  { unfold parent1. destruct (decide _); [done|].
    apply bounded_insert_plain; try done. simpl. rewrite map_fold_empty. lia. }
  destruct (parent1 !! "properties") as [[| | | | |props]|] eqn:Hprops; try done.
  simpl.
  assert (bounded b' props) as Hbounded.
  { apply Hparent1 in Hprops as [Hprops _]. by apply depthBound_obj_le. }
  set (required0 := match util.asSlice (parent1 !! "required") with
                    | Some reqArr => util.stringsOf reqArr
                    | None => []
                    end).
  generalize required0. clear required0. clear Hprops. revert props Hbounded.
  induction allOf as [|item allOf IH]; intros props Hbounded required0.
  - simpl. intros [= <-].
    assert (bounded (S b') (<["properties" := JObj props]> parent1)) as Hnew.
    { apply bounded_insert_plain; try done. by apply depthBound_obj_le. }
    destruct (decide (0 < length required0)); [|exact Hnew].
    apply bounded_insert_plain; try done.
    etrans; [apply depthBound_strings|lia].
  - apply Forall_cons in Hitems as [Hitem Hitems]. cbn [foldl].
    destruct item as [| | | | |itemObj]; try (by apply IH).
    apply IH; [done|].
    destruct (util.asMap (itemObj !! "properties")) as [itemProps|] eqn:Hitem';
      [|done].
    apply bounded_union; [|done].
    apply depthBound_obj_inv in Hitem as (b2 & -> & Hitem).
    destruct (itemObj !! "properties") as [[| | | | |m]|] eqn:Hk; try done.
    injection Hitem' as ->.
    apply Hitem in Hk as [Hk _].
    apply depthBound_obj_inv in Hk as (b3 & -> & Hk).
    eapply bounded_weaken; [|exact Hk]. lia.
Qed.

Lemma bounded_mergeAllOf b (node merged : gmap string (json F)) :
  bounded b node -> util.mergeAllOf node = Ok merged -> bounded b merged.
Proof.
  intros Hnode. unfold util.mergeAllOf.
  destruct (node !! "allOf") as [[| | | |allOf|]|] eqn:Hk; simpl;
    try (by intros [= <-]).
  intros (merged' & Hmerged & [= <-])%res_bind_Ok.
  apply bounded_delete. eapply bounded_mergeAllOfInPlace; [done| |done].
  by apply Hnode in Hk as [? _].
Qed.

(** Step 7. *)
Lemma bounded_flattenUnionInPlace b (parent : gmap string (json F))
    (arr : list (json F)) (unionType : string) :
  bounded b parent ->
  util.depthBound (JArr arr) <= b ->
  bounded b (util.flattenUnionInPlace parent arr unionType).
Proof.
  intros Hparent (b1 & -> & Harr)%depthBound_arr_inv.
  unfold util.flattenUnionInPlace.
  destruct (decide (length arr = 0)); [done|].
  destruct (util.selectBestSchema arr) as [bestIdx allTypes].
  set (idx := Z.to_nat _).
  destruct (arr !! idx) as [[| | | | |best]|] eqn:Hbest; try done. simpl.
  assert (bounded (S b1) best) as Hbounded.
  { eapply Forall_lookup_1 in Harr; [|exact Hbest].
    apply depthBound_obj_inv in Harr as (b2 & -> & Harr).
    eapply bounded_weaken; [|exact Harr]. lia. }
  set (merged := map_fold _ parent best).
  assert (bounded (S b1) merged) as Hmerged.
  { revert Hbounded. unfold merged.
    apply (map_fold_weak_ind
             (fun r m => bounded (S b1) m -> bounded (S b1) r)); [done|].
    intros k c m r Hnone IH Hm.
    assert (bounded (S b1) r) as Hr.
    { apply IH. intros k' c' Hk'. apply Hm.
      rewrite lookup_insert_ne; [done|]. by intros ->; rewrite Hnone in Hk'. }
    destruct (Hm k c (lookup_insert_eq _ _ _)) as [Hdepth Hkey].
    destruct (decide (k = "description")); [|by apply bounded_insert].
    destruct c; try done.
    repeat (destruct (decide _); try done);
      apply bounded_insert_plain; try done; simpl; lia. }
  destruct (decide (1 < _)); [by apply bounded_appendHint|done].
Qed.

Lemma bounded_flattenUnions b (node : gmap string (json F)) :
  bounded b node -> bounded b (util.flattenUnions node).
Proof.
  assert (forall key (node : gmap string (json F)),
    bounded b node ->
    bounded b match util.asSlice (node !! key) with
              | Some arr =>
                  if decide (0 < length arr)
                  then delete key (util.flattenUnionInPlace node arr key)
                  else node
              | None => node
              end) as Hstep.
  { intros key node' Hnode.
    destruct (node' !! key) as [[| | | |arr|]|] eqn:Hk; try done. simpl.
    destruct (decide _); [|done].
    apply bounded_delete, bounded_flattenUnionInPlace; [done|].
    by apply Hnode in Hk as [? _]. }
  intros Hnode. unfold util.flattenUnions. simpl. by apply Hstep, Hstep.
Qed.

Lemma keyBound_le_2 k (c : json F) : util.keyBound k c <= 2.
Proof. unfold util.keyBound. repeat case_match; lia. Qed.

(** Step 8. *)
Lemma bounded_flattenTypeArray b (node : gmap string (json F)) path ctx :
  bounded b node -> bounded b (util.flattenTypeArray node path ctx).1.
Proof.
  intros Hnode. unfold util.flattenTypeArray.
  destruct (node !! "type") as [[| | | |typeVal|]|] eqn:Hk; try done. simpl.
  destruct (decide _); [|done].
  assert (2 <= b) as Hb by (by apply Hnode in Hk as [_ ?]).
  unfold util.handleTypeArrayInPlace.
  destruct (foldl _ _ typeVal) as [nonNullTypes hasNull].
  set (typed := <["type" := _]> node).
  assert (bounded b typed) as Htyped.
  { apply bounded_insert; [done|simpl; lia|].
    etrans; [apply keyBound_le_2|done]. }
  set (hinted := if decide (1 < length nonNullTypes) then _ else typed).
  assert (bounded b hinted) as Hhinted.
  { unfold hinted. destruct (decide _); [by apply bounded_appendHint|done]. }
  destruct (_ && _); [|done].
  destruct (util.firstPropertiesSegment _ _) as [[objectPath fieldName]|];
    by apply bounded_appendHint.
Qed.

Lemma depthBound_reasonPlaceholder :
  util.depthBound (util.reasonPlaceholder : json F) = 1.
Proof. vm_compute. reflexivity. Qed.

Lemma depthBound_underscorePlaceholder :
  util.depthBound (util.underscorePlaceholder : json F) = 1.
Proof. vm_compute. reflexivity. Qed.

(** Step 9. *)
Lemma bounded_handleEmptyObjectSchema b (node : gmap string (json F)) path :
  bounded b node -> 2 <= b ->
  bounded b (util.handleEmptyObjectSchema node path).
Proof.
  intros Hnode Hb. unfold util.handleEmptyObjectSchema.
  assert (forall props : gmap string (json F), props = ∅ ->
    bounded b (<["required" := JArr [JStr "reason"]]>
                 (<["properties" :=
                      JObj (<["reason" := util.reasonPlaceholder]> props)]> node)))
    as Hreason.
  { intros props ->. apply bounded_insert_plain; try done; [|simpl; lia].
    apply bounded_insert_plain; [done..|].
    etrans; [|exact Hb]. apply depthBound_obj_le.
    apply bounded_insert_plain; [done..|apply bounded_empty|].
    by rewrite depthBound_reasonPlaceholder. }
  destruct (node !! "properties") as [[| | | | |props]|] eqn:Hk; simpl;
    try (by apply Hreason).
  destruct (decide (size props = 0)) as [Hsize|Hsize];
    [by apply Hreason, map_size_empty_inv|].
  destruct (_ && _); [|done].
  apply bounded_insert_plain; try done; [|simpl; lia].
  apply bounded_insert_plain; try done.
  apply Hnode in Hk as [Hprops _].
  destruct (decide _); [done|].
  apply depthBound_obj_inv in Hprops as (b1 & -> & Hprops).
  apply depthBound_obj_le. apply bounded_insert_plain; try done.
  rewrite depthBound_underscorePlaceholder. lia.
Qed.

Lemma bounded_placeholderIfObject b (node : gmap string (json F)) path :
  bounded b node -> bounded b (util.placeholderIfObject node path).
Proof.
  intros Hnode. unfold util.placeholderIfObject.
  destruct (node !! "type") as [[| | |typeStr| |]|] eqn:Hk; try done. simpl.
  destruct (decide _) as [->|]; [|done].
  apply bounded_handleEmptyObjectSchema; [done|].
  by apply Hnode in Hk as [_ ?].
Qed.

(** The children of a processed node are within the bound of the node. *)
Lemma processObjectNode_children b (node node' : gmap string (json F))
    path ctx ctx' :
  bounded b node ->
  util.processObjectNode node path ctx = Ok (node', ctx') ->
  forall k c, node' !! k = Some c -> util.depthBound c <= b.
Proof.
  intros Hnode. unfold util.processObjectNode.
  destruct (util.asString (node !! "$ref")) as [refVal|].
  { intros [= <- <-] k c. unfold util.refReplacement.
    intros [[_ <-]|[_ [[_ <-]|[_ Hk]]%lookup_insert_Some]]%lookup_insert_Some;
      [simpl; lia..|done]. }
  intros (merged & Hmerged & Hrest)%res_bind_Ok.
  pose proof (bounded_flattenTypeArray b (util.flattenUnions merged) path ctx)
    as Htyped.
  destruct (util.flattenTypeArray _ _ _) as [typed ctx1].
  injection Hrest as <- <-.
  intros k c Hk.
  eapply bounded_removeUnsupportedKeywords in Hk as [Hc _]; [done|].
  apply bounded_cleanupRequired, bounded_placeholderIfObject, Htyped,
    bounded_flattenUnions.
  eapply bounded_mergeAllOf; [|done].
  by apply bounded_demoteUnsupported, bounded_dropAdditionalProperties,
    bounded_enum_steps.
Qed.

(** [processObjectNode] itself uses no fuel. *)
Lemma processObjectNode_not_out_of_fuel (node : gmap string (json F)) path ctx :
  util.processObjectNode node path ctx <> Fail OutOfFuel.
Proof.
  unfold util.processObjectNode.
  destruct (util.asString _); [done|].
  assert (forall (node : gmap string (json F)) e,
            util.mergeAllOf node = Fail e -> e = TypeAssertionPanic) as Hmerge.
  { intros node' e. unfold util.mergeAllOf.
    destruct (util.asSlice (node' !! "allOf")) as [allOf|]; [|done].
    unfold util.mergeAllOfInPlace.
    destruct (util.asMap _); [|by intros [= <-]].
    by destruct (foldl _ _ allOf). }
  unfold mbind, res_bind.
  destruct (util.mergeAllOf _) as [merged|e] eqn:Hmerged.
  - by destruct (util.flattenTypeArray _ _ _).
  - by apply Hmerge in Hmerged as ->.
Qed.

Lemma rangeChildren_fold_not_out_of_fuel
    (rec : json F -> string -> util.cleanContext -> res (json F * util.cleanContext))
    (init : res (gmap string (json F) * util.cleanContext))
    (m : gmap string (json F)) (path : string) :
  init <> Fail OutOfFuel ->
  (forall k c path ctx, m !! k = Some c -> rec c path ctx <> Fail OutOfFuel) ->
  map_fold (fun key child (acc : res (gmap string (json F) * util.cleanContext)) =>
              '(v, ctx) ← acc;
              '(child, ctx) ← rec child (util.buildPath path key) ctx;
              mret (<[key := child]> v, ctx)) init m
  <> Fail OutOfFuel.
Proof.
  intros Hinit.
  apply (map_fold_weak_ind
           (fun r m => (forall k c path ctx, m !! k = Some c ->
                          rec c path ctx <> Fail OutOfFuel) ->
                       r <> Fail OutOfFuel)); [done|].
  intros k c m' r Hnone IH Hrec.
  assert (r <> Fail OutOfFuel) as Hr.
  { apply IH. intros k' c' path' ctx' Hk'. apply (Hrec k' c').
    rewrite lookup_insert_ne; [done|]. by intros ->; rewrite Hnone in Hk'. }
  destruct r as [[v' ctx']|e]; [|done].
  pose proof (Hrec k c (util.buildPath path k) ctx' (lookup_insert_eq _ _ _))
    as Hc.
  unfold mbind, res_bind.
  destruct (rec c _ ctx') as [[child ctx'']|e];
    [by unfold mret, res_ret|by intros [= ->]].
Qed.

Lemma rangeChildren_not_out_of_fuel
    (rec : json F -> string -> util.cleanContext -> res (json F * util.cleanContext))
    (v : gmap string (json F)) (path : string) (ctx : util.cleanContext) :
  (forall k c path ctx, v !! k = Some c -> rec c path ctx <> Fail OutOfFuel) ->
  util.rangeChildren rec v path ctx <> Fail OutOfFuel.
Proof. intros Hrec. by apply rangeChildren_fold_not_out_of_fuel. Qed.

Lemma rangeElements_not_out_of_fuel
    (rec : json F -> string -> util.cleanContext -> res (json F * util.cleanContext))
    (v : list (json F)) (path : string) (i : nat) (ctx : util.cleanContext) :
  Forall (fun c => forall path ctx, rec c path ctx <> Fail OutOfFuel) v ->
  util.rangeElements rec v path i ctx <> Fail OutOfFuel.
Proof.
  revert i ctx. induction v as [|c v IH]; intros i ctx Hrec; [done|].
  apply Forall_cons in Hrec as [Hc Hrec].
  cbn [util.rangeElements]. unfold mbind, res_bind.
  specialize (Hc (path +:+ "[" +:+ pretty i +:+ "]") ctx).
  destruct (rec c _ ctx) as [[c' ctx']|e]; [|by intros [= ->]].
  specialize (IH (S i) ctx' Hrec).
  destruct (util.rangeElements rec v path (S i) ctx') as [[v' ctx'']|e];
    [done|by intros [= ->]].
Qed.

(** The fuel of [cleanSchemaValue] is sufficient: with [depthBound v] units
    the traversal of [v] never stops for lack of fuel. *)
Theorem cleanSchemaRecursive_never_out_of_fuel
    (fuel : nat) (v : json F) (path : string) (ctx : util.cleanContext) :
  util.depthBound v <= fuel ->
  util.cleanSchemaRecursive fuel v path ctx <> Fail OutOfFuel.
Proof.
  revert v path ctx. induction fuel as [|fuel IH]; intros v path ctx Hv.
  { destruct v; try done; cbn [util.depthBound] in Hv; lia. }
  destruct v as [| | | |l|m]; try done.
  - apply depthBound_arr_le in Hv.
    cbn [util.cleanSchemaRecursive]. unfold mbind, res_bind.
    assert (util.rangeElements (util.cleanSchemaRecursive fuel) l path 0 ctx
            <> Fail OutOfFuel) as Hl.
    { apply rangeElements_not_out_of_fuel.
      eapply Forall_impl; [exact Hv|]. intros c Hc path' ctx'. by apply IH. }
    destruct (util.rangeElements _ l path 0 ctx) as [[l' ctx']|e];
      [done|by intros [= ->]].
  - apply depthBound_obj_le in Hv.
    cbn [util.cleanSchemaRecursive]. unfold mbind, res_bind.
    pose proof (processObjectNode_not_out_of_fuel m path ctx) as Hnode.
    destruct (util.processObjectNode m path ctx) as [[m' ctx']|e] eqn:Hm;
      [|by intros [= ->]].
    assert (util.rangeChildren (util.cleanSchemaRecursive fuel) m' path ctx'
            <> Fail OutOfFuel) as Hchildren.
    { apply rangeChildren_not_out_of_fuel. intros k c path' ctx'' Hk.
      apply IH. by eapply processObjectNode_children. }
    destruct (util.rangeChildren _ m' path ctx') as [[m'' ctx'']|e];
      [done|by intros [= ->]].
Qed.

Corollary cleanSchemaValue_never_out_of_fuel (schema : json F) :
  util.cleanSchemaValue schema <> Fail OutOfFuel.
Proof.
  unfold util.cleanSchemaValue, mbind, res_bind.
  pose proof (cleanSchemaRecursive_never_out_of_fuel (util.depthBound schema)
                schema "" (util.CleanContext ∅) (le_n _)) as Hclean.
  destruct (util.cleanSchemaRecursive _ _ _ _) as [[cleaned ctx]|e];
    [by destruct cleaned|by intros [= ->]].
Qed.

End termination.

(** ** Schema normalizer: the schemas that a pass leaves unchanged *)

Section settled.
Context {F : Type} `{Float64 F}.

Lemma stringify_strings (l : list (json F)) :
  forallb isString l ->
  (fun v => JStr (fmt.Sprint v)) <$> l = l.
Proof.
  induction l as [|v l IH]; [done|].
  cbn [forallb]. intros [Hv Hl]%andb_True. rewrite fmap_cons, IH by done.
  by destruct v.
Qed.

Lemma filter_all {A} (f : A -> bool) (l : list A) :
  forallb f l -> filter (fun x => Is_true (f x)) l = l.
Proof.
  induction l as [|x l IH]; [done|].
  simpl. intros [Hx Hl]%andb_True.
  rewrite filter_cons, decide_True by done. by rewrite IH.
Qed.

Lemma settledNode_fixed (path : string) (m : gmap string (json F))
    (ctx : util.cleanContext) :
  settledNode path m ->
  util.processObjectNode m path ctx = Ok (m, ctx).
Proof.
  unfold settledNode.
  intros Hsettled.
  apply andb_True in Hsettled as [Hsettled Hrequired].
  apply andb_True in Hsettled as [Hsettled Hobject].
  apply andb_True in Hsettled as [Hsettled Hunion].
  apply andb_True in Hsettled as [Hsettled Hunsupported].
  apply andb_True in Hsettled as [Hdropped Henum].
  apply forallb_True in Hdropped.
  apply Forall_cons in Hdropped as [Hconst Hdropped].
  apply Forall_cons in Hdropped as [Hadditional Hremoved].
  unfold absent in Hconst, Hadditional.
  assert (m !! "$ref" = None) as Href.
  { eapply Forall_forall with (x := "$ref") in Hremoved;
      [|unfold util.removeKeys; by repeat constructor].
    unfold absent in Hremoved. by destruct (m !! "$ref"). }
  unfold util.processObjectNode. rewrite Href. cbn [util.asString].
  (* const, enum *)
  assert (util.constToEnum m = m) as ->.
  { unfold util.constToEnum. by destruct (m !! "const"). }
  assert (util.stringifyEnum m = m) as ->.
  { unfold util.stringifyEnum, enumSettled in *.
    destruct (m !! "enum") as [[| | | |enumVal|]|] eqn:Hk; try done.
    cbn [util.asSlice] in *. apply andb_True in Henum as [Hstrings Hsize].
    rewrite stringify_strings by done.
    rewrite insert_id by done.
    by destruct (_ && _). }
  assert (util.dropAdditionalProperties m = m) as ->.
  { unfold util.dropAdditionalProperties.
    by destruct (m !! "additionalProperties"). }
  assert (util.demoteUnsupported m = m) as ->.
  { unfold util.demoteUnsupported, unsupportedSettled in *.
    induction util.unsupportedKeys as [|key keys IH]; [done|].
    simpl in *. apply andb_True in Hunsupported as [Hkey Hkeys].
    destruct (m !! key) as [[]|]; try done; by apply IH. }
  unfold noUnionOrTypeArray in Hunion.
  apply andb_True in Hunion as [HallOf Hunion].
  apply forallb_True in Hunion.
  apply Forall_cons in Hunion as [HanyOf Hunion].
  apply Forall_cons in Hunion as [HoneOf Hunion].
  apply Forall_cons in Hunion as [Htype _].
  assert (util.mergeAllOf m = Ok m) as ->.
  { unfold util.mergeAllOf. by destruct (util.asSlice (m !! "allOf")). }
  simpl.
  assert (util.flattenUnions m = m) as ->.
  { unfold util.flattenUnions. simpl.
    destruct (util.asSlice (m !! "anyOf")) as [[|? ?]|]; try done; simpl;
      by destruct (util.asSlice (m !! "oneOf")) as [[|? ?]|]. }
  assert (util.flattenTypeArray m path ctx = (m, ctx)) as ->.
  { unfold util.flattenTypeArray.
    by destruct (util.asSlice (m !! "type")) as [[|? ?]|]. }
  assert (util.placeholderIfObject m path = m) as ->.
  { unfold util.placeholderIfObject, objectSettled in *.
    destruct (util.asString (m !! "type")) as [typeStr|]; [|done].
    destruct (decide (typeStr = "object")); [|done].
    unfold util.handleEmptyObjectSchema.
    destruct (util.asMap (m !! "properties")) as [props|]; [|done].
    apply andb_True in Hobject as [Hsize Hreq].
    apply bool_decide_unpack in Hsize.
    rewrite decide_False by done.
    apply orb_True in Hreq as [Hroot|Hreq].
    - apply bool_decide_unpack in Hroot as ->.
      by rewrite andb_false_r.
    - destruct (util.asSlice (m !! "required")) as [req|]; [|done].
      apply Is_true_true in Hreq. rewrite Hreq. simpl.
      by rewrite andb_false_r. }
  assert (util.cleanupRequiredInPlace m = m) as ->.
  { unfold util.cleanupRequiredInPlace, requiredSettled in *.
    destruct (util.asSlice (m !! "required")) as [reqArr|]; [|done].
    destruct (util.asMap (m !! "properties")) as [props|]; [|done].
    rewrite filter_all by done. by rewrite decide_False by (by intros []). }
  assert (util.removeUnsupportedKeywords m = m) as ->; [|done].
  unfold util.removeUnsupportedKeywords.
  induction util.removeKeys as [|key keys IH]; [done|].
  apply Forall_cons in Hremoved as [Hkey Hkeys]. simpl.
  unfold absent in Hkey. rewrite delete_id; [by apply IH|].
  by destruct (m !! key).
Qed.

Lemma map_fold_and {A} (g : string -> A -> bool) (m : gmap string A) :
  map_fold (fun k c acc => g k c && acc) true m
  <-> forall k c, m !! k = Some c -> g k c.
Proof.
  apply (map_fold_weak_ind
           (fun (r : bool) m => r <-> forall k c, m !! k = Some c -> g k c)).
  - split; [by intros _ k c; rewrite lookup_empty|done].
  - intros i x m' r Hnone IH. rewrite andb_True, IH. split.
    + intros [Hx Hm] k c [[<- <-]|[Hne Hk]]%lookup_insert_Some; [done|].
      by apply Hm.
    + intros Hall. split; [apply Hall, lookup_insert_eq|].
      intros k c Hk. apply Hall.
      rewrite lookup_insert_ne; [done|]. by intros ->; rewrite Hnone in Hk.
Qed.

Lemma settled_elements (path : string) (l : list (json F)) (i : nat) :
  (fix elements (l : list (json F)) (i : nat) : bool :=
     match l with
     | [] => true
     | child :: rest =>
         settled (path +:+ "[" +:+ pretty i +:+ "]") child
         && elements rest (S i)
     end) l i ->
  forall j child, l !! j = Some child ->
    settled (path +:+ "[" +:+ pretty (i + j) +:+ "]") child.
Proof.
  revert i. induction l as [|c l IH]; intros i; [done|].
  intros [Hc Hl]%andb_True [|j] child Hj.
  - injection Hj as <-. by rewrite Nat.add_0_r.
  - rewrite <- Nat.add_succ_comm. by apply IH.
Qed.

(** A settled value is a fixed point of the traversal, which leaves the
    context as it is. *)
Theorem settled_fixed (fuel : nat) (v : json F) (path : string)
    (ctx : util.cleanContext) :
  util.depthBound v <= fuel ->
  settled path v ->
  util.cleanSchemaRecursive fuel v path ctx = Ok (v, ctx).
Proof.
  revert v path ctx. induction fuel as [|fuel IH]; intros v path ctx Hdepth Hv.
  { destruct v; try done; cbn [util.depthBound] in Hdepth; lia. }
  destruct v as [| | | |l|m]; try done.
  - apply depthBound_arr_le in Hdepth.
    cbn [util.cleanSchemaRecursive].
    rewrite rangeElements_unchanged; [done|].
    intros j child Hj. apply IH.
    + by eapply Forall_lookup_1 in Hdepth.
    + by apply (settled_elements path l 0 Hv j child).
  - apply depthBound_obj_le in Hdepth.
    cbn [settled] in Hv. apply andb_True in Hv as [Hnode Hchildren].
    cbn [util.cleanSchemaRecursive].
    rewrite settledNode_fixed by done. cbn [mbind res_bind].
    rewrite rangeChildren_unchanged; [done|].
    intros key child Hkey. apply IH.
    + by apply Hdepth in Hkey as [? _].
    + by eapply (proj1 (map_fold_and _ m) Hchildren).
Qed.

Corollary cleanSchemaValue_settled (v : json F) :
  settled "" v -> util.cleanSchemaValue v = Ok v.
Proof.
  intros Hv. unfold util.cleanSchemaValue.
  rewrite settled_fixed by done. cbn [mbind res_bind].
  by destruct v.
Qed.

End settled.

Section idempotence.
Context {F : Type} `{Float64 F} {mapOrder : Type}.
Variable computeHash : string -> string.
Variable UnmarshalString : string -> option (json F).
Variable MarshalString : mapOrder -> json F -> option string.
Hypothesis computeHash_inj :
  forall s1 s2, computeHash s1 = computeHash s2 -> s1 = s2.

(** C3 (amended).  Normalizing again a text that decodes to a settled
    schema, one that has no construct left that a pass rewrites (see
    [settledNode]), leaves the schema as it is: the passes return the same
    tree, and from every state of the cache that the program can reach the
    call returns the text itself or a text that the encoder writes for that
    tree under some order of the keys.  The text returned decodes to the
    same schema when the decoder reads the encoder's texts of it back.  It
    need not be the same text, because the encoder writes the keys of an
    object in the varying order of the runtime. *)
Theorem C3_settled_output_is_a_fixed_point
    (c : util.SchemaCache) (order : mapOrder) (out : string)
    (normalized : json F) :
  reachable computeHash UnmarshalString MarshalString c ->
  UnmarshalString out = Some normalized ->
  settled "" normalized ->
  util.cleanSchemaValue normalized = Ok normalized
  /\ exists out2 c2 order2,
       util.CleanJSONSchemaForAntigravityOptimized computeHash
         UnmarshalString MarshalString order out c = Ok (out2, c2)
       /\ out2 = default out (MarshalString order2 normalized)
       /\ (decodesBack UnmarshalString MarshalString normalized ->
           UnmarshalString out2 = Some normalized).
Proof.
  intros Hreach Hparse Hsettled.
  pose proof (cleanSchemaValue_settled _ Hsettled) as Hfixed.
  split; [done|].
  pose proof (reachable_sound _ _ _ computeHash_inj _ Hreach) as Hsound.
  assert (forall order',
            cleanUncached UnmarshalString MarshalString order' out
            = Ok (default out (MarshalString order' normalized))) as Hcomputed.
  { intros order'. unfold cleanUncached. by rewrite Hparse, Hfixed. }
  destruct (cleaner_returns _ _ _ c order out _ Hsound (Hcomputed order))
    as (out2 & c2 & Hcall).
  destruct (cleaner_sound _ _ _ computeHash_inj _ _ _ _ _ Hsound Hcall)
    as [[order2 Hout2] _].
  rewrite Hcomputed in Hout2. injection Hout2 as Hout2.
  exists out2, c2, order2. split; [done|]. split; [done|].
  intros Hback. subst out2.
  destruct (MarshalString order2 normalized) as [text|] eqn:Htext; simpl.
  - by eapply Hback.
  - done.
Qed.

End idempotence.

Example plain_object_schema_fixed :
  util.cleanSchemaValue plain_object_schema = Ok plain_object_schema
  /\ (util.cleanSchemaValue plain_object_schema ≫= util.cleanSchemaValue)
     = util.cleanSchemaValue plain_object_schema.
Proof.
  assert (util.cleanSchemaValue plain_object_schema = Ok plain_object_schema)
    as Hfixed by (apply cleanSchemaValue_settled; vm_compute; exact I).
  split; [done|]. by rewrite Hfixed.
Qed.

(** The settled schema [plain_object_schema], cleaned again under the
    descending order, comes back as another text of the same schema. *)
Example settled_schema_in_another_key_order :
  let decoder := readKnown [plain_object_schema] in
  util.CleanJSONSchemaForAntigravityOptimized id decoder writeJSON
    Descending plain_object_ascending util.schemaCache
  = Ok (plain_object_descending,
        util.Set_ util.schemaCache plain_object_ascending
          plain_object_descending)
  /\ plain_object_descending <> plain_object_ascending
  /\ decoder plain_object_descending = decoder plain_object_ascending.
Proof.
  split; [vm_compute; reflexivity|].
  split; [vm_compute; discriminate|vm_compute; reflexivity].
Qed.

(** The theorem at the text of [plain_object_schema] with its keys in
    ascending order, cleaned again under the descending order. *)
Lemma C3_witness :
  let decoder := readKnown [plain_object_schema] in
  (forall s1 s2 : string, id s1 = id s2 -> s1 = s2)
  /\ reachable id decoder writeJSON util.schemaCache
  /\ decoder plain_object_ascending = Some plain_object_schema
  /\ settled "" plain_object_schema
  /\ decodesBack decoder writeJSON plain_object_schema
  /\ exists out2 c2,
       util.CleanJSONSchemaForAntigravityOptimized id decoder writeJSON
         Descending plain_object_ascending util.schemaCache = Ok (out2, c2)
       /\ decoder out2 = Some plain_object_schema.
Proof.
  intros decoder.
  assert (forall s1 s2 : string, id s1 = id s2 -> s1 = s2) as Hinj
    by (intros s1 s2 Heq; exact Heq).
  assert (decoder plain_object_ascending = Some plain_object_schema) as Hparse
    by (vm_compute; reflexivity).
  assert (settled "" plain_object_schema) as Hsettled
    by (vm_compute; exact I).
  assert (decodesBack decoder writeJSON plain_object_schema) as Hback.
  { intros order text Htext.
    assert (text = default "" (writeJSON order plain_object_schema))
      as -> by (by rewrite Htext).
    destruct order; vm_compute; reflexivity. }
  split; [exact Hinj|]. split; [apply reachable_initial|].
  split; [exact Hparse|]. split; [exact Hsettled|]. split; [exact Hback|].
  destruct (C3_settled_output_is_a_fixed_point id decoder writeJSON Hinj
              util.schemaCache Descending plain_object_ascending
              plain_object_schema (reachable_initial _ _ _) Hparse Hsettled)
    as (_ & out2 & c2 & order2 & Hcall & _ & Hsame).
  exists out2, c2. split; [exact Hcall|exact (Hsame Hback)].
Defined.

(** ** Schema normalizer: [required] within [properties] in the whole output *)

Section required_everywhere.
Context {F : Type} `{Float64 F}.

#[local] Abbreviation droppedKeys :=
  ("const" :: "additionalProperties" :: util.removeKeys).

Lemma plainProperties_entries (props : gmap string (json F)) :
  plainProperties props <->
  forall k c, props !! k = Some c -> isObject c /\ k ∉ droppedKeys.
Proof.
  unfold plainProperties, noDroppedKeyword.
  rewrite andb_True, (map_fold_and (fun _ c => isObject c)), forallb_True,
    Forall_forall.
  split.
  - intros [Hdropped Hobjects] k c Hk. split; [by eapply Hobjects|].
    intros Hin. apply Hdropped in Hin. unfold absent in Hin.
    by rewrite Hk in Hin.
  - intros Hentries. split.
    + intros k Hin. unfold absent.
      destruct (props !! k) as [c|] eqn:Hk; [|done].
      by apply Hentries in Hk as [_ ?].
    + intros k c Hk. by apply Hentries in Hk as [? _].
Qed.

Lemma plainPropertiesEverywhere_obj (m : gmap string (json F)) :
  plainPropertiesEverywhere (JObj m) <-> goodNode m.
Proof.
  cbn [plainPropertiesEverywhere].
  rewrite andb_True, (map_fold_and (fun _ c => plainPropertiesEverywhere c)).
  unfold goodNode, good, propertiesPlain. split.
  - intros [Hprops Hchildren] k c Hk. split; [by eapply Hchildren|].
    intros -> props ->. by rewrite Hk in Hprops.
  - intros Hgood. split.
    + destruct (m !! "properties") as [[| | | | |props]|] eqn:Hk; try done.
      by apply (Hgood _ _ Hk).
    + intros k c Hk. by apply Hgood in Hk as [? _].
Qed.

Lemma plainPropertiesEverywhere_arr (l : list (json F)) :
  plainPropertiesEverywhere (JArr l)
  <-> Forall (fun c => plainPropertiesEverywhere c) l.
Proof. cbn [plainPropertiesEverywhere]. by rewrite forallb_True. Qed.

Lemma requiredSettledEverywhere_obj (m : gmap string (json F)) :
  requiredSettledEverywhere (JObj m)
  <-> requiredSettled m
      /\ forall k c, m !! k = Some c -> requiredSettledEverywhere c.
Proof.
  cbn [requiredSettledEverywhere].
  by rewrite andb_True, (map_fold_and (fun _ c => requiredSettledEverywhere c)).
Qed.

Lemma requiredSettledEverywhere_arr (l : list (json F)) :
  requiredSettledEverywhere (JArr l)
  <-> Forall (fun c => requiredSettledEverywhere c) l.
Proof. cbn [requiredSettledEverywhere]. by rewrite forallb_True. Qed.

Lemma plainPropertiesEverywhere_strings (l : list string) :
  plainPropertiesEverywhere (JArr (JStr <$> l) : json F).
Proof.
  apply plainPropertiesEverywhere_arr, Forall_fmap, Forall_forall. by intros.
Qed.

(** *** Every step of the node pass keeps the [properties] maps plain *)

Lemma good_plain k (c : json F) :
  k <> "properties" -> plainPropertiesEverywhere c -> good k c.
Proof. intros Hk Hc. split; [done|]. by intros ->. Qed.

Lemma good_properties (props : gmap string (json F)) :
  goodNode props -> plainProperties props -> good "properties" (JObj props).
Proof.
  intros Hgood Hplain. split; [by apply plainPropertiesEverywhere_obj|].
  by intros _ ? [= <-].
Qed.

Lemma goodNode_properties (m props : gmap string (json F)) :
  goodNode m -> m !! "properties" = Some (JObj props) ->
  goodNode props /\ plainProperties props.
Proof.
  intros Hm Hk. apply Hm in Hk as [Hprops Hplain].
  split; [by apply plainPropertiesEverywhere_obj|by apply Hplain].
Qed.

Lemma goodNode_empty : goodNode (∅ : gmap string (json F)).
Proof. intros k c. by rewrite lookup_empty. Qed.

Lemma goodNode_insert (m : gmap string (json F)) k c :
  goodNode m -> good k c -> goodNode (<[k := c]> m).
Proof.
  intros Hm Hc k' c' [[<- <-]|[_ Hk']]%lookup_insert_Some; [done|by apply Hm].
Qed.

Lemma goodNode_insert_plain (m : gmap string (json F)) k c :
  k <> "properties" -> goodNode m -> plainPropertiesEverywhere c ->
  goodNode (<[k := c]> m).
Proof. intros. by apply goodNode_insert, good_plain. Qed.

Lemma goodNode_delete (m : gmap string (json F)) k :
  goodNode m -> goodNode (delete k m).
Proof. intros Hm k' c' [_ Hk']%lookup_delete_Some. by apply Hm. Qed.

Lemma goodNode_union (m1 m2 : gmap string (json F)) :
  goodNode m1 -> goodNode m2 -> goodNode (m1 ∪ m2).
Proof.
  intros H1 H2 k c [Hk|[_ Hk]]%lookup_union_Some_raw; [by apply H1|by apply H2].
Qed.

Lemma plainProperties_union (m1 m2 : gmap string (json F)) :
  plainProperties m1 -> plainProperties m2 -> plainProperties (m1 ∪ m2).
Proof.
  rewrite !plainProperties_entries.
  intros H1 H2 k c [Hk|[_ Hk]]%lookup_union_Some_raw; [by apply H1|by apply H2].
Qed.

Lemma plainProperties_insert (m : gmap string (json F)) k c :
  plainProperties m -> isObject c -> k ∉ droppedKeys ->
  plainProperties (<[k := c]> m).
Proof.
  rewrite !plainProperties_entries.
  intros Hm Hc Hk k' c' [[<- <-]|[_ Hk']]%lookup_insert_Some; [done|by apply Hm].
Qed.

Lemma goodNode_appendHint (node : gmap string (json F)) hint :
  goodNode node -> goodNode (util.appendHintToNode node hint).
Proof.
  intros Hnode. unfold util.appendHintToNode.
  by destruct (decide _); apply goodNode_insert_plain.
Qed.

Lemma goodNode_constToEnum (node : gmap string (json F)) :
  goodNode node -> goodNode (util.constToEnum node).
Proof.
  intros Hnode. unfold util.constToEnum.
  destruct (node !! "const") as [constVal|] eqn:Hconst; [|done].
  apply goodNode_delete. destruct (decide _); [done|].
  apply goodNode_insert_plain; [done..|].
  apply plainPropertiesEverywhere_arr. constructor; [|done].
  by apply Hnode in Hconst as [? _].
Qed.

Lemma goodNode_stringifyEnum (node : gmap string (json F)) :
  goodNode node -> goodNode (util.stringifyEnum node).
Proof.
  intros Hnode. unfold util.stringifyEnum.
  destruct (util.asSlice (node !! "enum")) as [enumVal|]; [|done].
  assert (goodNode (<["enum" :=
            JArr ((fun v => JStr (fmt.Sprint v)) <$> enumVal)]> node)) as Hnew.
  { apply goodNode_insert_plain; [done..|].
    apply plainPropertiesEverywhere_arr, Forall_fmap, Forall_forall.
    by intros. }
  destruct (_ && _); [by apply goodNode_appendHint|done].
Qed.

Lemma goodNode_dropAdditionalProperties (node : gmap string (json F)) :
  goodNode node -> goodNode (util.dropAdditionalProperties node).
Proof.
  intros Hnode. unfold util.dropAdditionalProperties.
  destruct (node !! "additionalProperties") as [addProps|]; [|done].
  apply goodNode_delete.
  destruct (util.asBool _) as [[]|]; [done| |done].
  by apply goodNode_appendHint.
Qed.

Lemma goodNode_demoteUnsupported (node : gmap string (json F)) :
  goodNode node -> goodNode (util.demoteUnsupported node).
Proof.
  unfold util.demoteUnsupported. revert node.
  induction util.unsupportedKeys as [|key keys IH]; intros node Hnode; [done|].
  simpl. apply IH.
  destruct (node !! key) as [[]|]; try done;
    by apply goodNode_delete, goodNode_appendHint.
Qed.

Lemma goodNode_cleanupRequired (node : gmap string (json F)) :
  goodNode node -> goodNode (util.cleanupRequiredInPlace node).
Proof.
  intros Hnode. unfold util.cleanupRequiredInPlace.
  destruct (util.asSlice (node !! "required")) as [reqArr|] eqn:Hreq; [|done].
  destruct (util.asMap (node !! "properties")) as [props|]; [|done].
  destruct (decide _); [|done].
  destruct (decide _); [by apply goodNode_delete|].
  apply goodNode_insert_plain; [done..|].
  destruct (node !! "required") as [[]|] eqn:Hk; try done.
  injection Hreq as ->. apply Hnode in Hk as [Hk _].
  apply plainPropertiesEverywhere_arr, Forall_forall.
  intros c [_ Hc]%list_elem_of_filter.
  apply plainPropertiesEverywhere_arr in Hk. by eapply Forall_forall in Hk.
Qed.

Lemma goodNode_removeUnsupportedKeywords (node : gmap string (json F)) :
  goodNode node -> goodNode (util.removeUnsupportedKeywords node).
Proof.
  unfold util.removeUnsupportedKeywords. revert node.
  induction util.removeKeys as [|key keys IH]; intros node Hnode; [done|].
  simpl. by apply IH, goodNode_delete.
Qed.

Lemma goodNode_mergeAllOfInPlace (parent merged : gmap string (json F))
    (allOf : list (json F)) :
  goodNode parent ->
  plainPropertiesEverywhere (JArr allOf) ->
  util.mergeAllOfInPlace parent allOf = Ok merged ->
  goodNode merged.
Proof.
  intros Hparent Hitems%plainPropertiesEverywhere_arr.
  unfold util.mergeAllOfInPlace.
  set (parent1 := if decide (is_Some (parent !! "properties")) then parent
                  else <["properties" := JObj ∅]> parent).
  assert (goodNode parent1) as Hparent1.
  { unfold parent1. destruct (decide _); [done|].
    apply goodNode_insert, good_properties; [done|apply goodNode_empty|].
    by apply plainProperties_entries. }
  destruct (parent1 !! "properties") as [[| | | | |props]|] eqn:Hprops; try done.
  simpl.
  apply (goodNode_properties _ _ Hparent1) in Hprops as [Hgood Hplain].
  set (required0 := match util.asSlice (parent1 !! "required") with
                    | Some reqArr => util.stringsOf reqArr
                    | None => []
                    end).
  generalize required0. clear required0. revert props Hgood Hplain.
  induction allOf as [|item allOf IH]; intros props Hgood Hplain required0.
  - simpl. intros [= <-].
    assert (goodNode (<["properties" := JObj props]> parent1)) as Hnew
      by (by apply goodNode_insert, good_properties).
    destruct (decide (0 < length required0)); [|exact Hnew].
    apply goodNode_insert_plain; [done..|].
    apply plainPropertiesEverywhere_strings.
  - apply Forall_cons in Hitems as [Hitem Hitems]. cbn [foldl].
    destruct item as [| | | | |itemObj]; try (by apply IH).
    apply plainPropertiesEverywhere_obj in Hitem.
    destruct (itemObj !! "properties") as [[| | | | |itemProps]|] eqn:Hk;
      try (by apply IH).
    apply (goodNode_properties _ _ Hitem) in Hk as [Hgood' Hplain'].
    cbn [util.asMap].
    apply IH; [done|by apply goodNode_union|by apply plainProperties_union].
Qed.

Lemma goodNode_mergeAllOf (node merged : gmap string (json F)) :
  goodNode node -> util.mergeAllOf node = Ok merged -> goodNode merged.
Proof.
  intros Hnode. unfold util.mergeAllOf.
  destruct (node !! "allOf") as [[| | | |allOf|]|] eqn:Hk; simpl;
    try (by intros [= <-]).
  intros (merged' & Hmerged & [= <-])%res_bind_Ok.
  apply goodNode_delete. eapply goodNode_mergeAllOfInPlace; [done| |done].
  by apply Hnode in Hk as [? _].
Qed.

Lemma goodNode_flattenUnionInPlace (parent : gmap string (json F))
    (arr : list (json F)) (unionType : string) :
  goodNode parent ->
  plainPropertiesEverywhere (JArr arr) ->
  goodNode (util.flattenUnionInPlace parent arr unionType).
Proof.
  intros Hparent Harr%plainPropertiesEverywhere_arr.
  unfold util.flattenUnionInPlace.
  destruct (decide (length arr = 0)); [done|].
  destruct (util.selectBestSchema arr) as [bestIdx allTypes].
  set (idx := Z.to_nat _).
  destruct (arr !! idx) as [[| | | | |best]|] eqn:Hbest; try done. simpl.
  assert (goodNode best) as Hgood.
  { eapply Forall_lookup_1 in Harr; [|exact Hbest].
    by apply plainPropertiesEverywhere_obj. }
  set (merged := map_fold _ parent best).
  assert (goodNode merged) as Hmerged.
  { revert Hgood. unfold merged.
    apply (map_fold_weak_ind (fun r m => goodNode m -> goodNode r)); [done|].
    intros k c m r Hnone IH Hm.
    assert (goodNode r) as Hr.
    { apply IH. intros k' c' Hk'. apply Hm.
      rewrite lookup_insert_ne; [done|]. by intros ->; rewrite Hnone in Hk'. }
    pose proof (Hm k c (lookup_insert_eq _ _ _)) as Hc.
    destruct (decide (k = "description")); [|by apply goodNode_insert].
    destruct c; try done.
    repeat (destruct (decide _); try done);
      by apply goodNode_insert_plain. }
  destruct (decide (1 < _)); [by apply goodNode_appendHint|done].
Qed.

Lemma goodNode_flattenUnions (node : gmap string (json F)) :
  goodNode node -> goodNode (util.flattenUnions node).
Proof.
  assert (forall key (node : gmap string (json F)),
    goodNode node ->
    goodNode match util.asSlice (node !! key) with
             | Some arr =>
                 if decide (0 < length arr)
                 then delete key (util.flattenUnionInPlace node arr key)
                 else node
             | None => node
             end) as Hstep.
  { intros key node' Hnode.
    destruct (node' !! key) as [[| | | |arr|]|] eqn:Hk; try done. simpl.
    destruct (decide _); [|done].
    apply goodNode_delete, goodNode_flattenUnionInPlace; [done|].
    by apply Hnode in Hk as [? _]. }
  intros Hnode. unfold util.flattenUnions. simpl. by apply Hstep, Hstep.
Qed.

Lemma goodNode_flattenTypeArray (node : gmap string (json F)) path ctx :
  goodNode node -> goodNode (util.flattenTypeArray node path ctx).1.
Proof.
  intros Hnode. unfold util.flattenTypeArray.
  destruct (node !! "type") as [[| | | |typeVal|]|] eqn:Hk; try done. simpl.
  destruct (decide _); [|done].
  unfold util.handleTypeArrayInPlace.
  destruct (foldl _ _ typeVal) as [nonNullTypes hasNull].
  set (typed := <["type" := _]> node).
  assert (goodNode typed) as Htyped by (by apply goodNode_insert_plain).
  set (hinted := if decide (1 < length nonNullTypes) then _ else typed).
  assert (goodNode hinted) as Hhinted.
  { unfold hinted. destruct (decide _); [by apply goodNode_appendHint|done]. }
  destruct (_ && _); [|done].
  destruct (util.firstPropertiesSegment _ _) as [[objectPath fieldName]|];
    by apply goodNode_appendHint.
Qed.

Lemma goodNode_handleEmptyObjectSchema (node : gmap string (json F)) path :
  goodNode node -> goodNode (util.handleEmptyObjectSchema node path).
Proof.
  intros Hnode. unfold util.handleEmptyObjectSchema.
  assert (forall props : gmap string (json F), props = ∅ ->
    goodNode (<["required" := JArr [JStr "reason"]]>
                (<["properties" :=
                     JObj (<["reason" := util.reasonPlaceholder]> props)]> node)))
    as Hreason.
  { intros props ->. apply goodNode_insert_plain; [done| |done].
    apply goodNode_insert, good_properties; [done| |].
    - apply goodNode_insert_plain; [done|apply goodNode_empty|].
      by vm_compute.
    - apply plainProperties_insert; [by apply plainProperties_entries|done|].
      by apply (bool_decide_eq_false_1 _); vm_compute. }
  destruct (node !! "properties") as [[| | | | |props]|] eqn:Hk; simpl;
    try (by apply Hreason).
  destruct (decide (size props = 0)) as [Hsize|Hsize];
    [by apply Hreason, map_size_empty_inv|].
  destruct (_ && _); [|done].
  apply goodNode_insert_plain; [done| |done].
  apply (goodNode_properties _ _ Hnode) in Hk as [Hgood Hplain].
  apply goodNode_insert; [done|].
  destruct (decide _); [by apply good_properties|].
  apply good_properties.
  - apply goodNode_insert_plain; [done..|]. by vm_compute.
  - apply plainProperties_insert; [done..|].
    by apply (bool_decide_eq_false_1 _); vm_compute.
Qed.

Lemma goodNode_placeholderIfObject (node : gmap string (json F)) path :
  goodNode node -> goodNode (util.placeholderIfObject node path).
Proof.
  intros Hnode. unfold util.placeholderIfObject.
  destruct (util.asString (node !! "type")) as [typeStr|]; [|done].
  destruct (decide _) as [->|]; [|done].
  by apply goodNode_handleEmptyObjectSchema.
Qed.

(** The node pass keeps the [properties] maps plain. *)
Lemma goodNode_processObjectNode (node node' : gmap string (json F))
    path ctx ctx' :
  goodNode node ->
  util.processObjectNode node path ctx = Ok (node', ctx') ->
  goodNode node'.
Proof.
  intros Hnode. unfold util.processObjectNode.
  destruct (util.asString (node !! "$ref")) as [refVal|].
  { intros [= <- <-]. unfold util.refReplacement.
    apply goodNode_insert_plain; [done| |done].
    apply goodNode_insert_plain; [done|apply goodNode_empty|done]. }
  intros (merged & Hmerged & Hrest)%res_bind_Ok.
  pose proof (goodNode_flattenTypeArray (util.flattenUnions merged) path ctx)
    as Htyped.
  destruct (util.flattenTypeArray _ _ _) as [typed ctx1].
  injection Hrest as <- <-.
  apply goodNode_removeUnsupportedKeywords, goodNode_cleanupRequired,
    goodNode_placeholderIfObject, Htyped, goodNode_flattenUnions.
  eapply goodNode_mergeAllOf; [|done].
  by apply goodNode_demoteUnsupported, goodNode_dropAdditionalProperties,
    goodNode_stringifyEnum, goodNode_constToEnum.
Qed.

#[local] Abbreviation cleans fuel c c' :=
  (exists p ctx1 ctx2, util.cleanSchemaRecursive fuel c p ctx1 = Ok (c', ctx2)).

(** *** The traversal, child by child *)

(** What the loop over the children leaves under each key. *)
Lemma rangeChildren_lookup
    (rec : json F -> string -> util.cleanContext -> res (json F * util.cleanContext))
    (v v' : gmap string (json F)) (path : string) (ctx ctx' : util.cleanContext) :
  util.rangeChildren rec v path ctx = Ok (v', ctx') ->
  forall k,
    match v !! k with
    | Some c => exists c', (exists p ctx1 ctx2, rec c p ctx1 = Ok (c', ctx2))
                           /\ v' !! k = Some c'
    | None => v' !! k = None
    end.
Proof.
  unfold util.rangeChildren. intros Hfold.
  assert (forall k,
    match v !! k with
    | Some c => exists c', (exists p ctx1 ctx2, rec c p ctx1 = Ok (c', ctx2))
                           /\ v' !! k = Some c'
    | None => v' !! k = v !! k
    end) as Hall.
  { revert v' ctx' Hfold.
    apply (map_fold_weak_ind
             (fun (r : res (gmap string (json F) * util.cleanContext)) m =>
                forall v' ctx', r = Ok (v', ctx') ->
                forall k,
                  match m !! k with
                  | Some c =>
                      exists c', (exists p ctx1 ctx2, rec c p ctx1 = Ok (c', ctx2))
                                 /\ v' !! k = Some c'
                  | None => v' !! k = v !! k
                  end)).
    - intros v' ctx' [= <- <-] k. by rewrite lookup_empty.
    - intros k0 c0 m r Hnone IH v' ctx' Hr k.
      apply res_bind_Ok in Hr as ([v1 ctx1] & Hr & Hstep).
      apply res_bind_Ok in Hstep as ([c' ctx2] & Hrec & [= <- <-]).
      specialize (IH v1 ctx1 Hr k).
      destruct (decide (k = k0)) as [->|Hne].
      + rewrite !lookup_insert_eq. exists c'. split; [|done]. eauto.
      + by rewrite !lookup_insert_ne. }
  intros k. specialize (Hall k). by destruct (v !! k).
Qed.

Lemma rangeElements_Forall2
    (rec : json F -> string -> util.cleanContext -> res (json F * util.cleanContext))
    (l l' : list (json F)) (path : string) (i : nat)
    (ctx ctx' : util.cleanContext) :
  util.rangeElements rec l path i ctx = Ok (l', ctx') ->
  Forall2 (fun c c' => exists p ctx1 ctx2, rec c p ctx1 = Ok (c', ctx2)) l l'.
Proof.
  revert l' i ctx ctx'. induction l as [|c l IH]; intros l' i ctx ctx'.
  { intros [= <- <-]. constructor. }
  cbn [util.rangeElements].
  intros ([c' ctx1] & Hc & Hrest)%res_bind_Ok.
  apply res_bind_Ok in Hrest as ([rest ctx2] & Hrest & [= <- <-]).
  constructor; [eauto|]. by eapply IH.
Qed.

Lemma cleanSchemaRecursive_obj_inv fuel (m : gmap string (json F)) v' p ctx ctx2 :
  util.cleanSchemaRecursive fuel (JObj m) p ctx = Ok (v', ctx2) ->
  exists fuel' m1 ctx1 m2,
    fuel = S fuel'
    /\ util.processObjectNode m p ctx = Ok (m1, ctx1)
    /\ util.rangeChildren (util.cleanSchemaRecursive fuel') m1 p ctx1
       = Ok (m2, ctx2)
    /\ v' = JObj m2.
Proof.
  destruct fuel as [|fuel']; [done|]. cbn [util.cleanSchemaRecursive].
  intros ([m1 ctx1] & Hnode & Hrest)%res_bind_Ok.
  apply res_bind_Ok in Hrest as ([m2 ctx2'] & Hchildren & [= <- <-]).
  by exists fuel', m1, ctx1, m2.
Qed.

Lemma cleanSchemaRecursive_arr_inv fuel (l : list (json F)) v' p ctx ctx2 :
  util.cleanSchemaRecursive fuel (JArr l) p ctx = Ok (v', ctx2) ->
  exists fuel' l',
    fuel = S fuel'
    /\ util.rangeElements (util.cleanSchemaRecursive fuel') l p 0 ctx
       = Ok (l', ctx2)
    /\ v' = JArr l'.
Proof.
  destruct fuel as [|fuel']; [done|]. cbn [util.cleanSchemaRecursive].
  intros ([l' ctx2'] & Helements & [= <- <-])%res_bind_Ok.
  by exists fuel', l'.
Qed.

(** The traversal keeps the kind of a value: only an object becomes an
    object, only an array becomes an array. *)
Lemma cleans_obj fuel (v : json F) (m' : gmap string (json F)) :
  cleans fuel v (JObj m') -> exists m, v = JObj m.
Proof.
  intros (p & ctx1 & ctx2 & Hv). destruct v as [| | | |l|m]; [..|by eexists];
    try (by rewrite cleanSchemaRecursive_scalar in Hv).
  by apply cleanSchemaRecursive_arr_inv in Hv as (? & ? & _ & _ & ?).
Qed.

Lemma cleans_arr fuel (v : json F) (l' : list (json F)) :
  cleans fuel v (JArr l') -> exists l, v = JArr l.
Proof.
  intros (p & ctx1 & ctx2 & Hv). destruct v as [| | | |l|m]; [..|by eexists|];
    try (by rewrite cleanSchemaRecursive_scalar in Hv).
  by apply cleanSchemaRecursive_obj_inv in Hv as (? & ? & ? & ? & _ & _ & _ & ?).
Qed.

(** An array of strings is left as it is. *)
Lemma cleans_strings fuel (l : list (json F)) (v' : json F) :
  cleans fuel (JArr l) v' -> Forall (fun c => isString c) l -> v' = JArr l.
Proof.
  intros (p & ctx1 & ctx2 & Hv) Hl.
  apply cleanSchemaRecursive_arr_inv in Hv as (fuel' & l' & -> & Hl' & ->).
  rewrite rangeElements_unchanged in Hl'; [by injection Hl' as <- _|].
  intros j child Hj. eapply Forall_lookup_1 in Hl; [|exact Hj].
  destruct child; try done. by destruct fuel'.
Qed.

(** *** Plain [properties] maps pass through the traversal with their keys *)

Lemma plainProperties_lookup (props : gmap string (json F)) (k : string) :
  plainProperties props ->
  props !! k = None \/ exists m, props !! k = Some (JObj m).
Proof.
  intros Hplain. destruct (props !! k) as [c|] eqn:Hk; [|by left].
  apply (proj1 (plainProperties_entries props) Hplain) in Hk as [Hc _].
  destruct c; try done. right. by eexists.
Qed.

Lemma plainProperties_settledNode (path : string)
    (props : gmap string (json F)) :
  plainProperties props -> settledNode path props.
Proof.
  intros Hplain.
  assert (forall k, util.asSlice (props !! k) = None) as Hslice.
  { intros k.
    by destruct (plainProperties_lookup props k Hplain) as [->|[m ->]]. }
  assert (forall k, util.asString (props !! k) = None) as Hstring.
  { intros k.
    by destruct (plainProperties_lookup props k Hplain) as [->|[m ->]]. }
  unfold settledNode, enumSettled, unsupportedSettled, noUnionOrTypeArray,
    objectSettled, requiredSettled.
  rewrite !Hslice, Hstring. cbn [forallb]. rewrite !Hslice.
  rewrite !andb_true_r.
  apply andb_True. split.
  - unfold plainProperties in Hplain. by apply andb_True in Hplain as [? _].
  - apply forallb_True, Forall_forall. intros k _.
    by destruct (plainProperties_lookup props k Hplain) as [->|[m ->]].
Qed.

Lemma cleans_plainProperties fuel (props props' : gmap string (json F)) :
  cleans fuel (JObj props) (JObj props') ->
  plainProperties props ->
  plainProperties props'
  /\ forall k, is_Some (props !! k) -> is_Some (props' !! k).
Proof.
  intros (p & ctx1 & ctx2 & Hv) Hplain.
  apply cleanSchemaRecursive_obj_inv in Hv
    as (fuel' & m1 & ctx1' & m2 & -> & Hnode & Hchildren & [= <-]).
  rewrite (settledNode_fixed p props ctx1) in Hnode
    by (by apply plainProperties_settledNode).
  injection Hnode as <- <-.
  pose proof (rangeChildren_lookup _ _ _ _ _ _ Hchildren) as Hlookup.
  split.
  - apply plainProperties_entries. intros k c' Hk. specialize (Hlookup k).
    destruct (props !! k) as [c|] eqn:Hc; [|by rewrite Hlookup in Hk].
    destruct Hlookup as (c'' & Hclean & Hk'). rewrite Hk in Hk'.
    injection Hk' as <-.
    apply (proj1 (plainProperties_entries props) Hplain) in Hc as [Hc Hdropped].
    split; [|done].
    destruct c as [| | | | |m]; try done.
    destruct Hclean as (p' & ctx3 & ctx4 & Hclean).
    by apply cleanSchemaRecursive_obj_inv in Hclean
      as (? & ? & ? & ? & _ & _ & _ & ->).
  - intros k [c Hc]. specialize (Hlookup k). rewrite Hc in Hlookup.
    destruct Hlookup as (c' & _ & ->). by eexists.
Qed.

(** *** The traversal *)

Lemma cleans_required_settled fuel (v v' : json F) :
  cleans fuel v v' ->
  plainPropertiesEverywhere v ->
  plainPropertiesEverywhere v' /\ requiredSettledEverywhere v'.
Proof.
  revert v v'. induction fuel as [|fuel IH]; intros v v' (p & ctx & ctx' & Hv) Hplain.
  { destruct v; try done; by injection Hv as <- _. }
  destruct v as [| | | |l|m]; try (by injection Hv as <- _).
  - apply cleanSchemaRecursive_arr_inv in Hv as (fuel' & l' & [= <-] & Hl' & ->).
    apply rangeElements_Forall2 in Hl'.
    apply plainPropertiesEverywhere_arr in Hplain.
    rewrite plainPropertiesEverywhere_arr, requiredSettledEverywhere_arr.
    rewrite <- Forall_and.
    induction Hl' as [|c c' l l' Hc Hl' IHl]; [done|].
    apply Forall_cons in Hplain as [Hc' Hplain].
    constructor; [by eapply IH|by apply IHl].
  - apply cleanSchemaRecursive_obj_inv in Hv
      as (fuel' & m1 & ctx1 & m2 & [= <-] & Hnode & Hchildren & ->).
    apply plainPropertiesEverywhere_obj in Hplain.
    pose proof (goodNode_processObjectNode _ _ _ _ _ Hplain Hnode) as Hgood.
    pose proof (rangeChildren_lookup _ _ _ _ _ _ Hchildren) as Hlookup.
    assert (forall k c', m2 !! k = Some c' ->
              exists c, m1 !! k = Some c /\ cleans fuel c c') as Hback.
    { intros k c' Hk. specialize (Hlookup k).
      destruct (m1 !! k) as [c|]; [|by rewrite Hlookup in Hk].
      destruct Hlookup as (c'' & Hclean & Hk'). rewrite Hk in Hk'.
      injection Hk' as <-. by exists c. }
    rewrite plainPropertiesEverywhere_obj, requiredSettledEverywhere_obj.
    split; [|split].
    + intros k c' Hk. destruct (Hback k c' Hk) as (c & Hc & Hclean).
      destruct (Hgood k c Hc) as [Hc_plain Hc_props]. split.
      * by destruct (IH c c' Hclean Hc_plain).
      * intros -> props' ->.
        destruct (cleans_obj _ _ _ Hclean) as [props ->].
        by destruct (cleans_plainProperties _ _ _ Hclean
                       (Hc_props eq_refl props eq_refl)).
    + unfold requiredSettled.
      destruct (m2 !! "required") as [[| | | |reqArr'|]|] eqn:Hreq'; try done.
      destruct (m2 !! "properties") as [[| | | | |props']|] eqn:Hprops';
        try done.
      cbn [util.asSlice util.asMap].
      destruct (Hback _ _ Hreq') as (creq & Hreq & Hclean_req).
      destruct (Hback _ _ Hprops') as (cprops & Hprops & Hclean_props).
      destruct (cleans_arr _ _ _ Hclean_req) as [reqArr ->].
      destruct (cleans_obj _ _ _ Hclean_props) as [props ->].
      pose proof (processObjectNode_required_within _ _ _ _ _ _ _
                    Hnode Hprops Hreq) as Hwithin.
      assert (JArr reqArr' = JArr reqArr) as [= ->].
      { eapply cleans_strings; [exact Hclean_req|].
        eapply Forall_impl; [exact Hwithin|]. by intros r (name & -> & _). }
      destruct (goodNode_properties _ _ Hgood Hprops) as [_ Hplain_props].
      destruct (cleans_plainProperties _ _ _ Hclean_props Hplain_props)
        as [_ Hdom].
      apply forallb_True. eapply Forall_impl; [exact Hwithin|].
      intros r (name & -> & Hname). apply bool_decide_pack. by apply Hdom.
    + intros k c' Hk. destruct (Hback k c' Hk) as (c & Hc & Hclean).
      destruct (Hgood k c Hc) as [Hc_plain _].
      by destruct (IH c c' Hclean Hc_plain).
Qed.

(** *** The nullable post-processing *)

Lemma storeParts_required_settled (parts : list string)
    (current obj : gmap string (json F)) (reqArr filtered : list (json F)) :
  goodNode current ->
  requiredSettledEverywhere (JObj current) ->
  util.navigateParts current parts = Some obj ->
  util.asSlice (obj !! "required") = Some reqArr ->
  filtered ⊆ reqArr ->
  let new := if decide (length filtered = 0) then delete "required" obj
             else <["required" := JArr filtered]> obj in
  let result := util.storeParts current parts new in
  goodNode result
  /\ requiredSettledEverywhere (JObj result)
  /\ (plainProperties current ->
      plainProperties result
      /\ forall k, is_Some (current !! k) -> is_Some (result !! k)).
Proof.
  intros Hgood Hsettled Hnav Hreq Hsub new. revert current Hgood Hsettled Hnav.
  induction parts as [|part rest IH]; intros current Hgood Hsettled Hnav.
  - injection Hnav as ->. cbn [util.storeParts].
    destruct (obj !! "required") as [[| | | |reqArr0|]|] eqn:Hk; try done.
    injection Hreq as ->.
    apply requiredSettledEverywhere_obj in Hsettled as [Hnode Hchildren].
    assert (plainPropertiesEverywhere (JArr filtered)
            /\ requiredSettledEverywhere (JArr filtered)) as [Hf1 Hf2].
    { rewrite plainPropertiesEverywhere_arr, requiredSettledEverywhere_arr.
      destruct (Hgood _ _ Hk) as [Hplain _].
      apply plainPropertiesEverywhere_arr in Hplain.
      pose proof (Hchildren _ _ Hk) as Hok.
      apply requiredSettledEverywhere_arr in Hok.
      rewrite !Forall_forall in *. split; intros c Hc; auto. }
    split; [|split].
    + unfold new. destruct (decide _); [by apply goodNode_delete|].
      by apply goodNode_insert_plain.
    + apply requiredSettledEverywhere_obj. unfold new.
      destruct (decide _).
      * split.
        -- unfold requiredSettled. by rewrite lookup_delete_eq.
        -- intros k c [_ Hc]%lookup_delete_Some. by eapply Hchildren.
      * split.
        -- unfold requiredSettled in *.
           rewrite lookup_insert_eq, lookup_insert_ne by done.
           rewrite Hk in Hnode. cbn [util.asSlice] in *.
           destruct (util.asMap (obj !! "properties")) as [props|]; [|done].
           rewrite forallb_True, Forall_forall in *.
           intros r Hr. by apply Hnode, Hsub.
        -- intros k c [[<- <-]|[_ Hc]]%lookup_insert_Some; [done|].
           by eapply Hchildren.
    + intros Hplain.
      by destruct (plainProperties_lookup obj "required" Hplain)
        as [Hnone|[m Hm]]; rewrite Hk in *.
  - cbn [util.navigateParts util.storeParts] in *.
    destruct (decide (part = "")); [by apply IH|].
    destruct (current !! part) as [[| | | | |next]|] eqn:Hpart; try done.
    cbn [util.asMap] in *.
    destruct (Hgood _ _ Hpart) as [Hnext Hnext_plain].
    apply plainPropertiesEverywhere_obj in Hnext.
    apply requiredSettledEverywhere_obj in Hsettled as [Hnode Hchildren].
    destruct (IH next Hnext (Hchildren _ _ Hpart) Hnav)
      as (Hgood' & Hsettled' & Hplain').
    set (result' := util.storeParts next rest new) in *.
    split; [|split].
    + apply goodNode_insert; [done|]. split.
      * by apply plainPropertiesEverywhere_obj.
      * intros -> ? [= <-]. by apply Hplain', (Hnext_plain eq_refl next).
    + apply requiredSettledEverywhere_obj. split.
      * unfold requiredSettled in *.
        destruct (decide (part = "required")) as [->|Hne_req].
        { by rewrite lookup_insert_eq. }
        rewrite (lookup_insert_ne _ part "required") by done.
        destruct (decide (part = "properties")) as [->|Hne_props].
        -- rewrite lookup_insert_eq. rewrite Hpart in Hnode.
           cbn [util.asMap] in *.
           destruct (util.asSlice (current !! "required")) as [req|]; [|done].
           rewrite forallb_True, Forall_forall in *.
           intros r Hr. specialize (Hnode r Hr).
           destruct r; try done.
           apply bool_decide_unpack in Hnode. apply bool_decide_pack.
           by apply Hplain'; [apply (Hnext_plain eq_refl next)|].
        -- by rewrite lookup_insert_ne by done.
      * intros k c [[<- <-]|[_ Hc]]%lookup_insert_Some; [done|].
        by eapply Hchildren.
    + intros Hplain. split.
      * apply plainProperties_entries.
        intros k c [[<- <-]|[_ Hc]]%lookup_insert_Some.
        -- split; [done|].
           by apply (proj1 (plainProperties_entries current) Hplain)
             in Hpart as [_ ?].
        -- by apply (proj1 (plainProperties_entries current) Hplain).
      * intros k Hk. destruct (decide (part = k)) as [->|Hne].
        -- by rewrite lookup_insert_eq.
        -- by rewrite lookup_insert_ne.
Qed.

Lemma applyNullableEntry_required_settled (objectPath : string)
    (fields : list string) (schema : gmap string (json F)) :
  goodNode schema ->
  requiredSettledEverywhere (JObj schema) ->
  goodNode (util.applyNullableEntry objectPath fields schema)
  /\ requiredSettledEverywhere
       (JObj (util.applyNullableEntry objectPath fields schema)).
Proof.
  intros Hgood Hsettled. unfold util.applyNullableEntry.
  destruct (util.navigateToPath schema objectPath) as [obj|] eqn:Hnav; [|done].
  destruct (util.asSlice (obj !! "required")) as [reqArr|] eqn:Hreq; [|done].
  set (filtered := filter _ reqArr).
  assert (filtered ⊆ reqArr) as Hsub.
  { intros r Hr. by apply list_elem_of_filter in Hr as [_ ?]. }
  unfold util.navigateToPath, util.storeAtPath in *.
  destruct (decide (objectPath = "")).
  - injection Hnav as <-.
    by destruct (storeParts_required_settled [] schema schema reqArr filtered
                   Hgood Hsettled eq_refl Hreq Hsub) as (? & ? & _).
  - by destruct (storeParts_required_settled _ schema obj reqArr filtered
                   Hgood Hsettled Hnav Hreq Hsub) as (? & ? & _).
Qed.

Lemma applyNullableFields_required_settled (ctx : util.cleanContext)
    (schema : gmap string (json F)) :
  goodNode schema ->
  requiredSettledEverywhere (JObj schema) ->
  requiredSettledEverywhere (JObj (util.applyNullableFields ctx schema)).
Proof.
  intros Hgood Hsettled. unfold util.applyNullableFields.
  apply (map_fold_weak_ind
           (fun (r : gmap string (json F)) (_ : gmap string (list string)) =>
              goodNode r /\ requiredSettledEverywhere (JObj r))); [done|].
  intros objectPath fields m r _ [Hr1 Hr2].
  by apply applyNullableEntry_required_settled.
Qed.

(** C2 (amended).  For every schema in which each [properties] map holds
    object schemas only, none of them under the name of a keyword that the
    cleaner deletes, the cleaner either stops at the unchecked type
    assertion of [mergeAllOfInPlace] or returns a schema in which, on every
    object node that has a [required] array and a [properties] map, the
    array lists only strings that are keys of that map. *)
Theorem C2_required_within_properties_everywhere (schema : json F) :
  plainPropertiesEverywhere schema ->
  match util.cleanSchemaValue schema with
  | Ok out => requiredSettledEverywhere out = true
  | Fail e => e = TypeAssertionPanic
  end.
Proof.
  intros Hplain.
  pose proof (cleanSchemaValue_never_out_of_fuel schema) as Hfuel.
  destruct (util.cleanSchemaValue schema) as [out|e] eqn:Hout;
    [|by destruct e].
  unfold util.cleanSchemaValue in Hout.
  apply res_bind_Ok in Hout as ([cleaned ctx] & Hclean & Hout).
  destruct (cleans_required_settled (util.depthBound schema) schema cleaned)
    as [Hplain' Hsettled]; [by eauto|done|].
  destruct cleaned as [| | | | |m];
    try (by injection Hout as <-; apply Is_true_true).
  injection Hout as <-. apply Is_true_true.
  apply applyNullableFields_required_settled; [|done].
  by apply plainPropertiesEverywhere_obj.
Qed.

End required_everywhere.

(** The theorem at a schema whose [required] array names a property that
    does not exist: the name is gone from the output. *)
Lemma C2_witness :
  let schema : json Z := JObj required_with_unknown_name in
  let out : json Z :=
    object [ ("type", JStr "object");
             ("properties", object [ ("a", object [ ("type", JStr "string") ]) ]);
             ("required", JArr [JStr "a"]) ] in
  plainPropertiesEverywhere schema
  /\ util.cleanSchemaValue schema = Ok out
  /\ requiredSettledEverywhere out = true.
Proof.
  intros schema out.
  assert (plainPropertiesEverywhere schema) as Hplain by (by vm_compute).
  assert (util.cleanSchemaValue schema = Ok out) as Hout
    by (vm_compute; reflexivity).
  split; [exact Hplain|]. split; [exact Hout|].
  pose proof (C2_required_within_properties_everywhere schema Hplain) as Hall.
  rewrite Hout in Hall. exact Hall.
Defined.

(** A property under the name of a deleted keyword is lost when its
    [properties] map is visited as a node, after the [required] array of its
    owner has been cleaned: the name stays in [required]. *)
Example keyword_named_property_dropped :
  plainPropertiesEverywhere keyword_named_property = false
  /\ util.cleanSchemaValue keyword_named_property
     = Ok (object [ ("type", JStr "object");
                    ("properties", object []);
                    ("required", JArr [JStr "$id"]) ]).
Proof. split; vm_compute; reflexivity. Qed.

(** Nothing is kept of the [required] array of a node without a
    [properties] map either: the flattening of a union copies the array of
    the selected member over it. *)
Example required_replaced_by_union_member :
  plainPropertiesEverywhere required_beside_union
  /\ util.cleanSchemaValue required_beside_union
     = Ok (object [ ("required", JArr [JStr "b"]) ]).
Proof. split; [by vm_compute|vm_compute; reflexivity]. Qed.

(** ** Request translation (optimized): ordering of the parts of a model turn *)

Section optimized_properties.
Context {F : Type} `{Float64 F}.
Variable GetCachedSignature : string -> string -> string.
Variable HasValidSignature : string -> string -> bool.
Variable Raw : json F -> string.
Variable Parse : string -> option (json F).
Variable GetThinkingText : option (json F) -> string.

#[local] Abbreviation stepOptimized :=
  (claude.contentItemStepOptimized GetCachedSignature HasValidSignature Raw
     Parse GetThinkingText).
#[local] Abbreviation thinkingOptimized :=
  (claude.processThinkingContent GetCachedSignature HasValidSignature Raw
     GetThinkingText).

Lemma thinkingOptimized_part (contentResult : option (json F))
    modelName sessionID enable part sig skip enable' :
  thinkingOptimized contentResult modelName sessionID enable
    = ((part, sig, skip), enable') ->
  match part with
  | Some part => isThought part /\ skip = false
  | None => skip = true
  end.
Proof.
  unfold claude.processThinkingContent.
  destruct (negb _); [by intros [= <- _ <- _]|]. by intros [= <- _ <- _].
Qed.

Lemma toolUseOptimized_not_thought (contentResult : option (json F))
    modelName sig part :
  claude.processToolUseContent HasValidSignature Raw Parse contentResult
    modelName sig = Some part ->
  claude.Part.Thought part = None.
Proof.
  unfold claude.processToolUseContent.
  by destruct (if claude.gjson.IsObject _ then _ else _); [intros [= <-]|].
Qed.

Lemma toolResultOptimized_not_thought (contentResult : option (json F)) part :
  claude.processToolResultContent Raw contentResult = Some part ->
  claude.Part.Thought part = None.
Proof.
  unfold claude.processToolResultContent.
  destruct (decide _); [done|]. by intros [= <-].
Qed.

Lemma imageOptimized_not_thought (contentResult : option (json F)) part :
  claude.processImageContent Raw contentResult = Some part ->
  claude.Part.Thought part = None.
Proof.
  unfold claude.processImageContent.
  destruct (decide _); [done|]. by intros [= <-].
Qed.

Lemma partitioned_step_optimized modelName sessionID model other contentResult :
  partitioned model other ->
  partitioned (stepOptimized modelName sessionID "model" model contentResult)
              (stepOptimized modelName sessionID "user" other contentResult).
Proof.
  intros Hrel. pose proof Hrel as (Hsig & Hflag & Hthoughts & Hothers).
  unfold claude.contentItemStepOptimized.
  destruct (decide (_ = "thinking")).
  { rewrite Hflag, Hsig.
    destruct (thinkingOptimized contentResult modelName sessionID _)
      as [[[part sig] skip] enable] eqn:Hthink.
    apply thinkingOptimized_part in Hthink.
    destruct part as [part|]; [destruct Hthink as [Hpart ->]|by subst skip].
    unfold partitioned. simpl.
    rewrite !filter_app, !filter_cons, !filter_nil.
    rewrite decide_True by done.
    rewrite decide_False by (by intros Hnot).
    rewrite app_nil_r. by rewrite Hthoughts. }
  destruct (decide (_ = "text")); [by apply partitioned_appendOther|].
  destruct (decide (_ = "tool_use")).
  { rewrite Hsig.
    destruct (claude.processToolUseContent _ _ _ _ _ _) eqn:Hpart; [|done].
    apply partitioned_appendOther; [done|].
    by eapply toolUseOptimized_not_thought. }
  destruct (decide (_ = "tool_result")).
  { destruct (claude.processToolResultContent _ _) eqn:Hpart; [|done].
    apply partitioned_appendOther; [done|].
    by eapply toolResultOptimized_not_thought. }
  destruct (decide (_ = "image")); [|done].
  destruct (claude.processImageContent _ _) eqn:Hpart; [|done].
  apply partitioned_appendOther; [done|]. by eapply imageOptimized_not_thought.
Qed.

Lemma partitioned_foldl_optimized modelName sessionID blocks model other :
  partitioned model other ->
  partitioned (foldl (stepOptimized modelName sessionID "model") model blocks)
              (foldl (stepOptimized modelName sessionID "user") other blocks).
Proof.
  revert model other.
  induction blocks as [|block blocks IH]; intros model other Hrel; [done|].
  cbn [foldl]. by apply IH, partitioned_step_optimized.
Qed.

(** The optimized translator orders the parts of a model turn in the same
    way: thought parts first, then the other parts, each group in source
    order. *)
Lemma optimized_model_turn_thought_parts_first
    (modelName sessionID : string) (enable : bool)
    (blocks : list (option (json F))) :
  let st := foldl (stepOptimized modelName sessionID "model")
                  (claude.BlockState "" [] [] [] enable) blocks in
  let inOrder :=
    sourceOrderPartsOptimized GetCachedSignature HasValidSignature Raw Parse
      GetThinkingText modelName sessionID enable blocks in
  claude.thinkingParts st ++ claude.otherParts st
  = filter isThought inOrder ++ filter (fun p => ~ isThought p) inOrder.
Proof.
  intros st inOrder.
  assert (partitioned (claude.BlockState (F:=F) "" [] [] [] enable)
                      (claude.BlockState "" [] [] [] enable)) as Hinit by done.
  destruct (partitioned_foldl_optimized modelName sessionID blocks _ _ Hinit)
    as (_ & _ & Hthoughts & Hothers).
  unfold st. by rewrite Hthoughts, Hothers.
Qed.

End optimized_properties.

(** ** The name of a reference *)

Lemma substring_whole (s : string) : String.substring 0 (String.length s) s = s.
Proof. induction s as [|a s IH]; [done|]. simpl. by rewrite IH. Qed.

Lemma LastIndex_absent (s : string) (sep : Ascii.ascii) :
  hasByte sep s = false -> strings.LastIndex s sep = (-1)%Z.
Proof.
  induction s as [|a s IH]; [done|].
  simpl. intros [Ha Hs]%orb_false_elim. by rewrite IH, Ha.
Qed.

Lemma LastIndex_last (pre name : string) (sep : Ascii.ascii) :
  hasByte sep name = false ->
  strings.LastIndex (pre +:+ String sep name) sep
  = Z.of_nat (String.length pre).
Proof.
  intros Hname. induction pre as [|a pre IH].
  - simpl. rewrite (LastIndex_absent _ _ Hname). simpl.
    by rewrite Ascii.eqb_refl.
  - change (String a pre +:+ String sep name)
      with (String a (pre +:+ String sep name)).
    cbn [strings.LastIndex String.length]. rewrite IH.
    destruct (Z.leb_spec 0 (Z.of_nat (String.length pre))); lia.
Qed.

Lemma from_suffix (pre name : string) (sep : Ascii.ascii) :
  strings.from (S (String.length pre)) (pre +:+ String sep name) = name.
Proof.
  unfold strings.from. induction pre as [|a pre IH].
  - simpl. rewrite Nat.sub_0_r. apply substring_whole.
  - change (String a pre +:+ String sep name)
      with (String a (pre +:+ String sep name)).
    cbn [String.length String.substring Nat.sub]. exact IH.
Qed.

(** [refDefName] is the part of the reference after its last "/", and the
    whole reference when it has no "/". *)
Lemma refDefName_after_last_slash (pre name : string) :
  hasByte "/" name = false ->
  util.refDefName (pre +:+ String "/" name) = name.
Proof.
  intros Hname. unfold util.refDefName.
  rewrite (LastIndex_last _ _ _ Hname).
  rewrite decide_True by lia.
  replace (Z.to_nat (Z.of_nat (String.length pre) + 1))
    with (S (String.length pre)) by lia.
  apply from_suffix.
Qed.

Lemma refDefName_without_slash (refVal : string) :
  hasByte "/" refVal = false -> util.refDefName refVal = refVal.
Proof.
  intros Href. unfold util.refDefName.
  by rewrite (LastIndex_absent _ _ Href).
Qed.

(** ** Nullable properties below the root *)

(** For the nested property [age] the hint is added, but the field recorded
    is the one after the first "properties" segment of the path: [user] is
    taken off the root's [required], and [age] stays required in [user]. *)
Example nested_nullable_property_wrong_owner :
  util.cleanSchemaValue nested_nullable_age_schema =
  Ok (object [ ("type", JStr "object");
               ("properties",
                object [ ("user",
                          object [ ("type", JStr "object");
                                   ("properties",
                                    object [ ("age",
                                              object [ ("type", JStr "integer");
                                                       ("description",
                                                        JStr "(nullable)") ]) ]);
                                   ("required", JArr [JStr "age"]) ]) ]) ]).
Proof. vm_compute. reflexivity. Qed.

Example items_nullable_property_leaves_required :
  util.cleanSchemaValue items_nullable_age_schema =
  Ok (object [ ("type", JStr "array");
               ("items",
                object [ ("type", JStr "object");
                         ("properties",
                          object [ ("age",
                                    object [ ("type", JStr "integer");
                                             ("description",
                                              JStr "(nullable)") ]);
                                   ("id", object [ ("type", JStr "string") ]) ]);
                         ("required", JArr [JStr "id"]) ]) ]).
Proof. vm_compute. reflexivity. Qed.

(** ** The schema cache: eviction, bound, insert and lookup *)

Section cache_operations.
Context {F : Type} `{Float64 F} {mapOrder : Type}.
Variable computeHash : string -> string.
Variable UnmarshalString : string -> option (json F).
Variable MarshalString : mapOrder -> json F -> option string.

Lemma String_compare_trans (s1 s2 s3 : string) :
  (s1 ?= s2)%string <> Gt -> (s2 ?= s3)%string <> Gt -> (s1 ?= s3)%string <> Gt.
Proof.
  revert s2 s3. induction s1 as [|a1 s1 IH]; intros [|a2 s2] [|a3 s3]; simpl;
    try done.
  unfold Ascii.compare.
  destruct (N.compare_spec (Ascii.N_of_ascii a1) (Ascii.N_of_ascii a2)),
    (N.compare_spec (Ascii.N_of_ascii a2) (Ascii.N_of_ascii a3)),
    (N.compare_spec (Ascii.N_of_ascii a1) (Ascii.N_of_ascii a3));
    try done; try lia.
  apply IH.
Qed.

Lemma string_le_trans : Transitive util.string_le.
Proof.
  intros s1 s2 s3. unfold util.string_le, String.leb.
  pose proof (String_compare_trans s1 s2 s3) as Htrans.
  destruct (s1 ?= s2)%string, (s2 ?= s3)%string, (s1 ?= s3)%string;
    try done; intros; exfalso; by apply Htrans.
Qed.

Lemma string_le_total : Total util.string_le.
Proof. intros s1 s2. apply String.leb_total. Qed.

Lemma lookup_foldl_delete_keys {A} (m : gmap string A) (keys : list string) key :
  foldl (fun m k => delete k m) m keys !! key
  = if decide (key ∈ keys) then None else m !! key.
Proof.
  revert m. induction keys as [|k keys IH]; intros m; [done|].
  simpl. rewrite IH. destruct (decide (key ∈ keys)) as [Hin|Hnot].
  - by rewrite decide_True by (by right).
  - destruct (decide (key = k)) as [->|Hne].
    + rewrite lookup_delete_eq. by rewrite decide_True by (by left).
    + rewrite lookup_delete_ne by done.
      rewrite decide_False; [done|]. by intros [?|?]%elem_of_cons.
Qed.

Lemma size_foldl_delete {A} (m : gmap string A) (keys : list string) :
  NoDup keys -> (forall k, k ∈ keys -> is_Some (m !! k)) ->
  size (foldl (fun m k => delete k m) m keys) = size m - length keys.
Proof.
  revert m. induction keys as [|k keys IH]; intros m Hnodup Hin; simpl; [lia|].
  apply NoDup_cons in Hnodup as [Hk Hnodup].
  rewrite IH; [|done|].
  - rewrite map_size_delete_Some by (apply Hin; by left). lia.
  - intros k' Hk'. rewrite lookup_delete_ne by (by intros ->).
    apply Hin. by right.
Qed.

(** The keys of the cache in the order of [sort.Strings]. *)
Lemma sorted_keys (m : gmap string string) :
  let keys := merge_sort util.string_le (map_to_list m).*1 in
  NoDup keys /\ length keys = size m
  /\ (forall k, k ∈ keys <-> is_Some (m !! k))
  /\ StronglySorted util.string_le keys.
Proof.
  intros keys.
  assert (keys ≡ₚ (map_to_list m).*1) as Hperm
    by apply merge_sort_Permutation.
  split; [|split; [|split]].
  - rewrite Hperm. apply NoDup_fst_map_to_list.
  - rewrite Hperm, length_fmap. apply length_map_to_list.
  - intros k. rewrite Hperm, list_elem_of_fmap. split.
    + intros ([k' v] & -> & Hkv%elem_of_map_to_list). by eexists.
    + intros [v Hv]. exists (k, v). split; [done|].
      by apply elem_of_map_to_list.
  - apply StronglySorted_merge_sort;
      [apply string_le_trans|apply string_le_total].
Qed.

Lemma evictHalf_size (c : util.SchemaCache) :
  size (util.cache (util.evictHalf c))
  = size (util.cache c) - size (util.cache c) `div` 2.
Proof.
  unfold util.evictHalf. cbn [util.cache].
  destruct (sorted_keys (util.cache c)) as (Hnodup & Hlen & Hin & _).
  set (keys := merge_sort _ _) in *.
  rewrite size_foldl_delete.
  - rewrite length_take_le by (apply Nat.Div0.div_le_upper_bound; lia).
    by rewrite Hlen.
  - rewrite <- (take_drop (length keys `div` 2) keys) in Hnodup.
    by apply NoDup_app in Hnodup as [? _].
  - intros k Hk. apply Hin. eapply elem_of_take in Hk as (i & Hi & _).
    by eapply list_elem_of_lookup_2.
Qed.

(** X9.  [evictHalf] removes half of the entries, rounded down:
    those with the smallest keys in the order of [sort.Strings].  What it
    keeps is unchanged, and with a key it keeps every greater key of the
    cache. *)
Theorem evictHalf_removes_the_smallest_half (c : util.SchemaCache) :
  size (util.cache (util.evictHalf c))
    = size (util.cache c) - size (util.cache c) `div` 2
  /\ util.maxSize (util.evictHalf c) = util.maxSize c
  /\ (forall k v, util.Get (util.evictHalf c) k = Some v ->
        util.Get c k = Some v)
  /\ (forall k k', is_Some (util.Get (util.evictHalf c) k) ->
        is_Some (util.Get c k') -> String.leb k k' = true ->
        is_Some (util.Get (util.evictHalf c) k')).
Proof.
  split; [apply evictHalf_size|]. split; [done|]. split.
  - intros k v. unfold util.Get, util.evictHalf. cbn [util.cache].
    apply lookup_foldl_delete.
  - intros k k'. unfold util.Get, util.evictHalf. cbn [util.cache].
    destruct (sorted_keys (util.cache c)) as (Hnodup & Hlen & Hin & Hsorted).
    set (keys := merge_sort _ _) in *.
    set (n := length keys `div` 2).
    rewrite !lookup_foldl_delete_keys.
    destruct (decide (k ∈ take n keys)) as [|Hk]; [by intros []|].
    intros Hk_cache Hk'_cache Hle.
    rewrite decide_False; [done|]. intros Hk'.
    apply Hin in Hk_cache. rewrite <- (take_drop n keys) in Hk_cache, Hsorted.
    apply elem_of_app in Hk_cache as [?|Hk_drop]; [done|].
    pose proof (StronglySorted_app_1_elem_of _ _ _ _ _ Hsorted Hk' Hk_drop)
      as Hge.
    apply Hk. by rewrite (String.leb_antisym _ _ Hle Hge).
Qed.

Lemma Set_size (c : util.SchemaCache) (key value : string) :
  2 <= util.maxSize c ->
  size (util.cache c) <= util.maxSize c ->
  size (util.cache (util.Set_ c key value)) <= util.maxSize c
  /\ util.maxSize (util.Set_ c key value) = util.maxSize c.
Proof.
  intros Hmax Hsize. unfold util.Set_.
  destruct (decide (util.maxSize c <= size (util.cache c))) as [Hfull|Hroom];
    simpl; (split; [|done]).
  - pose proof (evictHalf_size c) as Hevicted.
    pose proof (map_size_insert key value (util.cache (util.evictHalf c)))
      as Hinsert.
    assert (1 <= size (util.cache c) `div` 2)
      by (apply Nat.div_le_lower_bound; lia).
    destruct (util.cache (util.evictHalf c) !! key); simpl in *; lia.
  - pose proof (map_size_insert key value (util.cache c)) as Hinsert.
    destruct (util.cache c !! key); simpl in *; lia.
Qed.

(** X10.  In every state that the global cache can reach it
    holds at most [maxSize] = 1000 entries. *)
Theorem reachable_cache_is_bounded (c : util.SchemaCache) :
  reachable computeHash UnmarshalString MarshalString c ->
  (util.GetSchemaCacheStats c).1 <= (util.GetSchemaCacheStats c).2
  /\ (util.GetSchemaCacheStats c).2 = 1000.
Proof.
  unfold util.GetSchemaCacheStats. simpl.
  induction 1
    as [|c order jsonStr out c' _ [IHsize IHmax] Hclean|c _ [IHsize IHmax]].
  - simpl. rewrite map_size_empty. lia.
  - unfold util.CleanJSONSchemaForAntigravityOptimized in Hclean.
    destruct (util.Get c _); [by injection Hclean as _ <-|].
    destruct (UnmarshalString jsonStr); [|by injection Hclean as _ <-].
    apply res_bind_Ok in Hclean as (cleaned & _ & Hclean).
    destruct (MarshalString order cleaned) as [result|];
      injection Hclean as _ <-; [|done].
    destruct (Set_size c (computeHash jsonStr) result) as [? ?]; lia.
  - simpl. rewrite map_size_empty. lia.
Qed.

(** X8.  After [Set] a [Get] of the same key returns the
    value, also when the call evicted entries; [Set] adds no other entry,
    and below capacity it leaves every other key as it was. *)
Theorem Set_then_Get (c : util.SchemaCache) (key value : string) :
  util.Get (util.Set_ c key value) key = Some value
  /\ (forall k v, util.Get (util.Set_ c key value) k = Some v ->
        k = key /\ v = value \/ util.Get c k = Some v)
  /\ (size (util.cache c) < util.maxSize c ->
      forall k, k <> key -> util.Get (util.Set_ c key value) k = util.Get c k).
Proof.
  unfold util.Set_, util.Get. split; [|split].
  - simpl. apply lookup_insert_eq.
  - simpl. intros k v [[<- <-]|[_ Hk]]%lookup_insert_Some; [by left|right].
    destruct (decide _); [|done].
    by apply lookup_foldl_delete in Hk.
  - intros Hroom k Hne. rewrite decide_False by lia. simpl.
    by rewrite lookup_insert_ne.
Qed.

Section collision_free_cache.
Hypothesis computeHash_inj :
  forall s1 s2, computeHash s1 = computeHash s2 -> s1 = s2.

(** X11.  In every reachable state of the cache, a text
    that the decoder rejects is returned as it is and the cache is left as
    it was: such a text is never cached. *)
Theorem undecodable_schema_returned_unchanged
    (c : util.SchemaCache) (order : mapOrder) (jsonStr : string) :
  reachable computeHash UnmarshalString MarshalString c ->
  UnmarshalString jsonStr = None ->
  util.CleanJSONSchemaForAntigravityOptimized computeHash UnmarshalString
    MarshalString order jsonStr c = Ok (jsonStr, c).
Proof.
  intros Hreach Hparse.
  pose proof (reachable_sound _ _ _ computeHash_inj c Hreach) as Hsound.
  unfold util.CleanJSONSchemaForAntigravityOptimized.
  destruct (util.Get c (computeHash jsonStr)) as [cached|] eqn:Hget.
  - apply Hsound in Hget as [order' Hget]. unfold cleanUncached in Hget.
    rewrite Hparse in Hget. by injection Hget as <-.
  - by rewrite Hparse.
Qed.

End collision_free_cache.
End cache_operations.

(** The theorem at the initial cache. *)
Lemma reachable_cache_is_bounded_witness :
  reachable id emptyObjectDecoder emptyObjectEncoder util.schemaCache
  /\ (util.GetSchemaCacheStats util.schemaCache).1
     <= (util.GetSchemaCacheStats util.schemaCache).2
  /\ (util.GetSchemaCacheStats util.schemaCache).2 = 1000.
Proof.
  split; [apply reachable_initial|].
  exact (reachable_cache_is_bounded id emptyObjectDecoder emptyObjectEncoder
           util.schemaCache (reachable_initial _ _ _)).
Defined.

(** The theorem at the initial cache and a text that is no JSON. *)
Lemma undecodable_schema_returned_unchanged_witness :
  (forall s1 s2 : string, id s1 = id s2 -> s1 = s2)
  /\ reachable id emptyObjectDecoder emptyObjectEncoder util.schemaCache
  /\ emptyObjectDecoder "{" = None
  /\ util.CleanJSONSchemaForAntigravityOptimized id emptyObjectDecoder
       emptyObjectEncoder Ascending "{" util.schemaCache
     = Ok ("{", util.schemaCache).
Proof.
  assert (forall s1 s2 : string, id s1 = id s2 -> s1 = s2) as Hinj
    by (intros s1 s2 Heq; exact Heq).
  assert (emptyObjectDecoder "{" = None) as Hparse by (vm_compute; reflexivity).
  split; [exact Hinj|]. split; [apply reachable_initial|].
  split; [exact Hparse|].
  exact (undecodable_schema_returned_unchanged id emptyObjectDecoder
           emptyObjectEncoder Hinj util.schemaCache Ascending "{"
           (reachable_initial _ _ _) Hparse).
Defined.

(** ** Schema normalizer: the failure of the node pass, and the keywords removed *)

Section node_pass.
Context {F : Type} `{Float64 F}.

#[local] Abbreviation cleans fuel c c' :=
  (exists p ctx1 ctx2, util.cleanSchemaRecursive fuel c p ctx1 = Ok (c', ctx2)).

(** *** The keys that each step of the node pass touches *)

Lemma lookup_appendHintToNode (node : gmap string (json F)) hint k :
  k <> "description" -> util.appendHintToNode node hint !! k = node !! k.
Proof.
  intros Hk. unfold util.appendHintToNode.
  by destruct (decide _); rewrite lookup_insert_ne.
Qed.

Lemma lookup_constToEnum (node : gmap string (json F)) k :
  k <> "const" -> k <> "enum" -> util.constToEnum node !! k = node !! k.
Proof.
  intros Hconst Henum. unfold util.constToEnum.
  destruct (node !! "const"); [|done].
  rewrite lookup_delete_ne by done.
  destruct (decide _); [done|]. by rewrite lookup_insert_ne.
Qed.

Lemma lookup_stringifyEnum (node : gmap string (json F)) k :
  k <> "enum" -> k <> "description" ->
  util.stringifyEnum node !! k = node !! k.
Proof.
  intros Henum Hdesc. unfold util.stringifyEnum.
  destruct (util.asSlice (node !! "enum")); [|done].
  destruct (_ && _).
  - rewrite lookup_appendHintToNode by done. by rewrite lookup_insert_ne.
  - by rewrite lookup_insert_ne.
Qed.

Lemma lookup_dropAdditionalProperties (node : gmap string (json F)) k :
  k <> "additionalProperties" -> k <> "description" ->
  util.dropAdditionalProperties node !! k = node !! k.
Proof.
  intros Hadd Hdesc. unfold util.dropAdditionalProperties.
  destruct (node !! "additionalProperties"); [|done].
  rewrite lookup_delete_ne by done.
  destruct (util.asBool _) as [[]|]; [done| |done].
  by rewrite lookup_appendHintToNode.
Qed.

Lemma lookup_demoteUnsupported (node : gmap string (json F)) k :
  k ∉ util.unsupportedKeys -> k <> "description" ->
  util.demoteUnsupported node !! k = node !! k.
Proof.
  intros Hk Hdesc. unfold util.demoteUnsupported. revert node.
  induction util.unsupportedKeys as [|key keys IH]; intros node; [done|].
  apply not_elem_of_cons in Hk as [Hne Hk]. simpl. rewrite IH by done.
  destruct (node !! key) as [[]|]; try done;
    rewrite lookup_delete_ne by done; by rewrite lookup_appendHintToNode.
Qed.

(** Steps 2 to 5 leave [allOf] and [properties] as they are. *)
Lemma lookup_before_merge (node : gmap string (json F)) k :
  k = "allOf" \/ k = "properties" ->
  util.demoteUnsupported
    (util.dropAdditionalProperties
       (util.stringifyEnum (util.constToEnum node))) !! k
  = node !! k.
Proof.
  intros Hk.
  rewrite lookup_demoteUnsupported, lookup_dropAdditionalProperties,
    lookup_stringifyEnum, lookup_constToEnum;
    try done; try (by destruct Hk as [-> | ->]).
  apply (bool_decide_eq_false_1 _). by destruct Hk as [-> | ->]; vm_compute.
Qed.

Lemma mergeAllOf_Fail (node : gmap string (json F)) (e : fault) :
  util.mergeAllOf node = Fail e
  <-> e = TypeAssertionPanic
      /\ is_Some (util.asSlice (node !! "allOf"))
      /\ is_Some (node !! "properties")
      /\ util.asMap (node !! "properties") = None.
Proof.
  unfold util.mergeAllOf.
  destruct (util.asSlice (node !! "allOf")) as [allOf|]; cbn [mbind res_bind];
    [|split; [done|by intros (_ & [? [=]] & _)]].
  unfold util.mergeAllOfInPlace.
  destruct (node !! "properties") as [c|] eqn:Hprops.
  - rewrite decide_True by done. rewrite Hprops.
    destruct c; cbn [util.asMap];
      try (split; [by intros [= <-]; eauto|by intros (-> & _)]).
    destruct (foldl _ _ allOf). split; [done|by intros (_ & _ & _ & [=])].
  - rewrite decide_False by (by intros [? [=]]).
    rewrite lookup_insert_eq. cbn [util.asMap].
    destruct (foldl _ _ allOf). split; [done|by intros (_ & _ & [? [=]] & _)].
Qed.

Lemma processObjectNode_Fail
    (node : gmap string (json F)) (path : string) (ctx : util.cleanContext)
    (e : fault) :
  util.processObjectNode node path ctx = Fail e
  <-> e = TypeAssertionPanic
      /\ util.asString (node !! "$ref") = None
      /\ is_Some (util.asSlice (node !! "allOf"))
      /\ is_Some (node !! "properties")
      /\ util.asMap (node !! "properties") = None.
Proof.
  unfold util.processObjectNode.
  destruct (util.asString (node !! "$ref")) as [refVal|];
    [split; [done|by intros (_ & [=] & _)]|].
  set (node1 := util.demoteUnsupported _).
  pose proof (mergeAllOf_Fail node1 e) as Hmerge.
  unfold node1 in Hmerge at 2 3 4.
  rewrite !lookup_before_merge in Hmerge by auto.
  unfold mbind, res_bind.
  destruct (util.mergeAllOf node1) as [merged|e'].
  - destruct (util.flattenTypeArray _ _ _).
    split; [done|]. intros (He & _ & Hrest).
    destruct Hmerge as [_ Hmerge]. by specialize (Hmerge (conj He Hrest)).
  - destruct Hmerge as [Hfail Hcase]. split.
    + intros [= ->]. by destruct (Hfail eq_refl) as (? & ? & ? & ?).
    + intros (He & _ & Hrest). by injection (Hcase (conj He Hrest)) as ->.
Qed.

(** X1.  The node pass fails in one case only, the unchecked type
    assertion of [mergeAllOfInPlace]: the node has no string [$ref], its
    [allOf] is an array, and its [properties] is present and is not an
    object. *)
Theorem processObjectNode_panics_exactly
    (node : gmap string (json F)) (path : string) (ctx : util.cleanContext)
    (e : fault) :
  util.processObjectNode node path ctx = Fail e
  <-> e = TypeAssertionPanic
      /\ util.asString (node !! "$ref") = None
      /\ is_Some (util.asSlice (node !! "allOf"))
      /\ is_Some (node !! "properties")
      /\ util.asMap (node !! "properties") = None.
Proof. apply processObjectNode_Fail. Qed.

(** *** What the node pass leaves behind *)

Lemma lookup_cleanupRequiredInPlace (node : gmap string (json F)) k :
  k <> "required" -> util.cleanupRequiredInPlace node !! k = node !! k.
Proof.
  intros Hk. unfold util.cleanupRequiredInPlace.
  destruct (util.asSlice _); [|done]. destruct (util.asMap _); [|done].
  destruct (decide _); [|done].
  destruct (decide _); [by rewrite lookup_delete_ne|by rewrite lookup_insert_ne].
Qed.

Lemma lookup_placeholderIfObject (node : gmap string (json F)) path k :
  k <> "required" -> k <> "properties" ->
  util.placeholderIfObject node path !! k = node !! k.
Proof.
  intros Hreq Hprops. unfold util.placeholderIfObject.
  destruct (util.asString _); [|done]. destruct (decide _); [|done].
  unfold util.handleEmptyObjectSchema.
  destruct (util.asMap _); [|by rewrite !lookup_insert_ne].
  destruct (decide _); [by rewrite !lookup_insert_ne|].
  destruct (_ && _); [by rewrite !lookup_insert_ne|done].
Qed.

Lemma flattenTypeArray_type (node : gmap string (json F)) path ctx :
  typeFlattened (util.flattenTypeArray node path ctx).1.
Proof.
  unfold util.flattenTypeArray, typeFlattened.
  destruct (util.asSlice (node !! "type")) as [typeVal|] eqn:Htype;
    [|by cbn [fst]; rewrite Htype].
  destruct (decide (0 < length typeVal)) as [Hlen|Hlen].
  - unfold util.handleTypeArrayInPlace.
    destruct (foldl _ _ typeVal) as [nonNullTypes hasNull].
    set (firstType := default "string" (head nonNullTypes)).
    set (typed := <["type" := JStr firstType]> node).
    set (hinted := if decide (1 < length nonNullTypes) then _ else typed).
    assert (hinted !! "type" = Some (JStr firstType)) as Hhinted.
    { unfold hinted, typed. destruct (decide _).
      - rewrite lookup_appendHintToNode by done. apply lookup_insert_eq.
      - apply lookup_insert_eq. }
    destruct (_ && _);
      [destruct (util.firstPropertiesSegment _ _) as [[? ?]|]|];
      cbn [fst]; rewrite ?lookup_appendHintToNode by done;
      by rewrite Hhinted.
  - cbn [fst]. rewrite Htype. destruct typeVal; [done|simpl in Hlen; lia].
Qed.

Lemma removeUnsupportedKeywords_removed (node : gmap string (json F)) k :
  k ∈ util.removeKeys -> util.removeUnsupportedKeywords node !! k = None.
Proof.
  intros Hk. unfold util.removeUnsupportedKeywords.
  rewrite lookup_foldl_delete_keys. by rewrite decide_True.
Qed.

Lemma processObjectNode_cleaned (node node' : gmap string (json F)) path ctx ctx' :
  util.processObjectNode node path ctx = Ok (node', ctx') ->
  nodeCleaned node'.
Proof.
  unfold util.processObjectNode.
  destruct (util.asString (node !! "$ref")) as [refVal|].
  { intros [= <- <-]. by vm_compute. }
  intros (merged & _ & Hrest)%res_bind_Ok.
  pose proof (flattenTypeArray_type (util.flattenUnions merged) path ctx)
    as Htype.
  destruct (util.flattenTypeArray _ _ _) as [typed ctx1].
  injection Hrest as <- <-.
  unfold nodeCleaned. apply andb_True. split.
  - apply forallb_True, Forall_forall. intros k Hk. unfold absent.
    by rewrite removeUnsupportedKeywords_removed.
  - unfold typeFlattened in *.
    rewrite lookup_removeUnsupportedKeywords
      by (by apply (bool_decide_eq_false_1 _); vm_compute).
    rewrite lookup_cleanupRequiredInPlace by done.
    by rewrite lookup_placeholderIfObject by done.
Qed.

Lemma cleanedEverywhere_obj (m : gmap string (json F)) :
  cleanedEverywhere (JObj m)
  <-> nodeCleaned m /\ forall k c, m !! k = Some c -> cleanedEverywhere c.
Proof.
  cbn [cleanedEverywhere].
  by rewrite andb_True, (map_fold_and (fun _ c => cleanedEverywhere c)).
Qed.

Lemma cleanedEverywhere_arr (l : list (json F)) :
  cleanedEverywhere (JArr l) <-> Forall (fun c => cleanedEverywhere c) l.
Proof. cbn [cleanedEverywhere]. by rewrite forallb_True. Qed.

Lemma nodeCleaned_lookups (m m' : gmap string (json F)) :
  nodeCleaned m ->
  (forall k, k ∈ util.removeKeys -> m !! k = None -> m' !! k = None) ->
  (forall l', m' !! "type" = Some (JArr l') -> m !! "type" = Some (JArr l')
              \/ l' = []) ->
  nodeCleaned m'.
Proof.
  unfold nodeCleaned, typeFlattened, absent.
  intros [Hkeys Htype]%andb_True Hnone Htype'.
  apply andb_True. split.
  - rewrite forallb_True, Forall_forall in *. intros k Hk.
    specialize (Hkeys k Hk). rewrite Hnone; [done..|].
    by destruct (m !! k).
  - destruct (m' !! "type") as [[| | | |l'|]|] eqn:Hk; try done.
    destruct (Htype' l' eq_refl) as [Hm| ->]; [|done].
    by rewrite Hm in Htype.
Qed.

Lemma cleans_cleaned fuel (v v' : json F) :
  cleans fuel v v' -> cleanedEverywhere v'.
Proof.
  revert v v'. induction fuel as [|fuel IH]; intros v v' (p & ctx & ctx' & Hv).
  { destruct v; try done; by injection Hv as <- _. }
  destruct v as [| | | |l|m]; try (by injection Hv as <- _).
  - apply cleanSchemaRecursive_arr_inv in Hv as (fuel' & l' & [= <-] & Hl' & ->).
    apply rangeElements_Forall2 in Hl'.
    apply cleanedEverywhere_arr.
    induction Hl' as [|c c' l l' Hc Hl' IHl]; [done|].
    constructor; [by eapply IH|done].
  - apply cleanSchemaRecursive_obj_inv in Hv
      as (fuel' & m1 & ctx1 & m2 & [= <-] & Hnode & Hchildren & ->).
    pose proof (processObjectNode_cleaned _ _ _ _ _ Hnode) as Hcleaned.
    pose proof (rangeChildren_lookup _ _ _ _ _ _ Hchildren) as Hlookup.
    apply cleanedEverywhere_obj. split.
    + eapply nodeCleaned_lookups; [exact Hcleaned| |].
      * intros k _ Hk. specialize (Hlookup k). by rewrite Hk in Hlookup.
      * intros l' Hl'. right. specialize (Hlookup "type").
        destruct (m1 !! "type") as [c|] eqn:Hc; [|by rewrite Hlookup in Hl'].
        destruct Hlookup as (c' & Hclean & Hc'). rewrite Hl' in Hc'.
        injection Hc' as <-.
        destruct (cleans_arr _ _ _ Hclean) as [l ->].
        apply andb_True in Hcleaned as [_ Htype].
        unfold typeFlattened in Htype. rewrite Hc in Htype.
        destruct l; [|done].
        by apply cleans_strings in Hclean as [= ->].
    + intros k c' Hk. specialize (Hlookup k).
      destruct (m1 !! k) as [c|]; [|by rewrite Hlookup in Hk].
      destruct Hlookup as (c'' & Hclean & Hk'). rewrite Hk in Hk'.
      injection Hk' as <-. by eapply IH.
Qed.


(** *** The nullable post-processing keeps the nodes cleaned *)

Lemma storeParts_cleaned (parts : list string)
    (current obj : gmap string (json F)) (reqArr filtered : list (json F)) :
  cleanedEverywhere (JObj current) ->
  util.navigateParts current parts = Some obj ->
  util.asSlice (obj !! "required") = Some reqArr ->
  filtered ⊆ reqArr ->
  cleanedEverywhere
    (JObj (util.storeParts current parts
             (if decide (length filtered = 0) then delete "required" obj
              else <["required" := JArr filtered]> obj))).
Proof.
  intros Hcleaned Hnav Hreq Hsub.
  set (new := if decide (length filtered = 0) then _ else _).
  revert current Hcleaned Hnav.
  induction parts as [|part rest IH]; intros current Hcleaned Hnav.
  - injection Hnav as ->. cbn [util.storeParts].
    destruct (obj !! "required") as [[| | | |reqArr0|]|] eqn:Hk; try done.
    injection Hreq as ->.
    apply cleanedEverywhere_obj in Hcleaned as [Hnode Hchildren].
    apply cleanedEverywhere_obj. split.
    + eapply nodeCleaned_lookups; [exact Hnode| |].
      * intros k _ Hnone. unfold new. destruct (decide _).
        -- apply lookup_delete_None. by right.
        -- apply lookup_insert_None. split; [done|].
           by intros <-; rewrite Hk in Hnone.
      * intros l' Hl'. left. unfold new in Hl'. destruct (decide _).
        -- by rewrite lookup_delete_ne in Hl'.
        -- by rewrite lookup_insert_ne in Hl'.
    + unfold new. destruct (decide _).
      * intros k c [_ Hc]%lookup_delete_Some. by eapply Hchildren.
      * intros k c [[<- <-]|[_ Hc]]%lookup_insert_Some; [|by eapply Hchildren].
        pose proof (Hchildren _ _ Hk) as Hall.
        rewrite cleanedEverywhere_arr, Forall_forall in *.
        intros r Hr. by apply Hall, Hsub.
  - cbn [util.navigateParts util.storeParts] in *.
    destruct (decide (part = "")); [by apply IH|].
    destruct (current !! part) as [[| | | | |next]|] eqn:Hpart; try done.
    cbn [util.asMap] in *.
    apply cleanedEverywhere_obj in Hcleaned as [Hnode Hchildren].
    specialize (IH next (Hchildren _ _ Hpart) Hnav).
    apply cleanedEverywhere_obj. split.
    + eapply nodeCleaned_lookups; [exact Hnode| |].
      * intros k _ Hnone. apply lookup_insert_None. split; [done|].
        by intros <-; rewrite Hpart in Hnone.
      * intros l' [[_ [=]]|[_ Hl']]%lookup_insert_Some. by left.
    + intros k c [[<- <-]|[_ Hc]]%lookup_insert_Some; [done|].
      by eapply Hchildren.
Qed.

Lemma applyNullableFields_cleaned (ctx : util.cleanContext)
    (schema : gmap string (json F)) :
  cleanedEverywhere (JObj schema) ->
  cleanedEverywhere (JObj (util.applyNullableFields ctx schema)).
Proof.
  intros Hcleaned. unfold util.applyNullableFields.
  apply (map_fold_weak_ind
           (fun (r : gmap string (json F)) (_ : gmap string (list string)) =>
              cleanedEverywhere (JObj r))); [done|].
  intros objectPath fields m r _ Hr. unfold util.applyNullableEntry.
  destruct (util.navigateToPath r objectPath) as [obj|] eqn:Hnav; [|done].
  destruct (util.asSlice (obj !! "required")) as [reqArr|] eqn:Hreq; [|done].
  set (filtered := filter _ reqArr).
  assert (filtered ⊆ reqArr) as Hsub.
  { intros x Hx. by apply list_elem_of_filter in Hx as [_ ?]. }
  unfold util.navigateToPath, util.storeAtPath in *.
  destruct (decide (objectPath = "")).
  - injection Hnav as <-.
    exact (storeParts_cleaned [] r r reqArr filtered Hr eq_refl Hreq Hsub).
  - exact (storeParts_cleaned _ r obj reqArr filtered Hr Hnav Hreq Hsub).
Qed.

(** X3.  Whenever the cleaner returns, no object node of
    the output, at any depth, has one of the keywords [$schema], [$defs],
    [definitions], [$ref], [$id], [propertyNames], [patternProperties],
    [enumTitles], [prefill], and no node has a non-empty array as its
    [type]; the only other outcome is the panic of the unchecked type
    assertion. *)
Theorem cleaner_output_has_no_removed_keyword (schema : json F) :
  match util.cleanSchemaValue schema with
  | Ok out => cleanedEverywhere out = true
  | Fail e => e = TypeAssertionPanic
  end.
Proof.
  pose proof (cleanSchemaValue_never_out_of_fuel schema) as Hfuel.
  destruct (util.cleanSchemaValue schema) as [out|e] eqn:Hout;
    [|by destruct e].
  unfold util.cleanSchemaValue in Hout.
  apply res_bind_Ok in Hout as ([cleaned ctx] & Hclean & Hout).
  assert (cleanedEverywhere cleaned) as Hcleaned
    by (eapply cleans_cleaned; eauto).
  apply Is_true_true.
  destruct cleaned as [| | | | |m]; try (by injection Hout as <-).
  injection Hout as <-. by apply applyNullableFields_cleaned.
Qed.

(** X4.  A node that the pass leaves with the type "object",
    and that was not replaced for a [$ref], has a [properties] object with
    at least one property: where there was none the pass adds the
    placeholder property [reason], or [_] next to an existing one. *)
Theorem object_node_has_a_property
    (node node' : gmap string (json F)) (path : string)
    (ctx ctx' : util.cleanContext) :
  util.asString (node !! "$ref") = None ->
  util.processObjectNode node path ctx = Ok (node', ctx') ->
  node' !! "type" = Some (JStr "object") ->
  exists props, node' !! "properties" = Some (JObj props) /\ props <> ∅.
Proof.
  intros Href. unfold util.processObjectNode. rewrite Href.
  intros (merged & _ & Hrest)%res_bind_Ok.
  destruct (util.flattenTypeArray _ _ _) as [typed ctx1].
  injection Hrest as <- <-.
  rewrite !lookup_removeUnsupportedKeywords
    by (by apply (bool_decide_eq_false_1 _); vm_compute).
  rewrite !lookup_cleanupRequiredInPlace by done.
  intros Htype.
  assert (typed !! "type" = Some (JStr "object")) as Htyped
    by (by rewrite lookup_placeholderIfObject in Htype).
  clear Htype. unfold util.placeholderIfObject. rewrite Htyped.
  cbn [util.asString]. rewrite decide_True by done.
  unfold util.handleEmptyObjectSchema.
  assert (forall props : gmap string (json F),
    exists props',
      <["required" := JArr [JStr "reason"]]>
        (<["properties" :=
             JObj (<["reason" := util.reasonPlaceholder]> props)]> typed)
        !! "properties" = Some (JObj props') /\ props' <> ∅) as Hreason.
  { intros props. eexists. rewrite lookup_insert_ne by done.
    rewrite lookup_insert_eq. split; [done|]. apply insert_non_empty. }
  destruct (typed !! "properties") as [[| | | | |props]|] eqn:Hprops;
    cbn [util.asMap]; try apply Hreason.
  destruct (decide (size props = 0)) as [Hsize|Hsize]; [apply Hreason|].
  assert (props <> ∅) as Hnonempty
    by (by intros ->; rewrite map_size_empty in Hsize).
  destruct (_ && _); [|by eexists].
  eexists. rewrite lookup_insert_ne by done. rewrite lookup_insert_eq.
  split; [done|]. destruct (decide _); [done|apply insert_non_empty].
Qed.

End node_pass.

(** The theorem at the node [{"type":"object"}]: the pass gives it the placeholder property. *)
Lemma object_node_has_a_property_witness :
  let node : gmap string (json Z) := {[ "type" := JStr "object" ]} in
  let node' : gmap string (json Z) :=
    list_to_map
      [ ("type", JStr "object");
        ("properties",
         object [ ("reason",
                   object [ ("type", JStr "string");
                            ("description",
                             JStr "Brief explanation of why you are calling this tool") ]) ]);
        ("required", JArr [JStr "reason"]) ] in
  util.asString (node !! "$ref") = None
  /\ util.processObjectNode node "" (util.CleanContext ∅)
     = Ok (node', util.CleanContext ∅)
  /\ node' !! "type" = Some (JStr "object")
  /\ exists props, node' !! "properties" = Some (JObj props) /\ props <> ∅.
Proof.
  intros node node'.
  assert (util.asString (node !! "$ref") = None) as Href
    by (vm_compute; reflexivity).
  assert (util.processObjectNode node "" (util.CleanContext ∅)
          = Ok (node', util.CleanContext ∅)) as Hnode
    by (vm_compute; reflexivity).
  assert (node' !! "type" = Some (JStr "object")) as Htype
    by (vm_compute; reflexivity).
  split; [exact Href|]. split; [exact Hnode|]. split; [exact Htype|].
  exact (object_node_has_a_property node node' "" (util.CleanContext ∅)
           (util.CleanContext ∅) Href Hnode Htype).
Defined.

(** ** Schema normalizer: schemas on which the cleaner returns *)

Section totality.
Context {F : Type} `{Float64 F}.

(** *** Schemas whose [properties] are objects *)

Lemma propertiesAreObjects_obj (m : gmap string (json F)) :
  propertiesAreObjects (JObj m) <-> soundNode m.
Proof.
  cbn [propertiesAreObjects].
  rewrite andb_True, (map_fold_and (fun _ c => propertiesAreObjects c)).
  unfold soundNode, sound, propertiesIsObject. split.
  - intros [Hprops Hchildren] k c Hk. split; [by eapply Hchildren|].
    intros ->. by rewrite Hk in Hprops.
  - intros Hsound. split.
    + destruct (m !! "properties") as [c|] eqn:Hk; [|done].
      by apply (Hsound _ _ Hk).
    + intros k c Hk. by apply Hsound in Hk as [? _].
Qed.

Lemma propertiesAreObjects_arr (l : list (json F)) :
  propertiesAreObjects (JArr l)
  <-> Forall (fun c => propertiesAreObjects c) l.
Proof. cbn [propertiesAreObjects]. by rewrite forallb_True. Qed.

Lemma propertiesAreObjects_strings (l : list string) :
  propertiesAreObjects (JArr (JStr <$> l) : json F).
Proof.
  apply propertiesAreObjects_arr, Forall_fmap, Forall_forall. by intros.
Qed.

Lemma sound_plain k (c : json F) :
  k <> "properties" -> propertiesAreObjects c -> sound k c.
Proof. intros Hk Hc. split; [done|]. by intros ->. Qed.

Lemma sound_properties (props : gmap string (json F)) :
  soundNode props -> sound "properties" (JObj props).
Proof. intros Hsound. split; [by apply propertiesAreObjects_obj|done]. Qed.

Lemma soundNode_properties (m props : gmap string (json F)) :
  soundNode m -> m !! "properties" = Some (JObj props) -> soundNode props.
Proof.
  intros Hm Hk. apply Hm in Hk as [Hprops _].
  by apply propertiesAreObjects_obj.
Qed.

Lemma soundNode_empty : soundNode (∅ : gmap string (json F)).
Proof. intros k c. by rewrite lookup_empty. Qed.

Lemma soundNode_insert (m : gmap string (json F)) k c :
  soundNode m -> sound k c -> soundNode (<[k := c]> m).
Proof.
  intros Hm Hc k' c' [[<- <-]|[_ Hk']]%lookup_insert_Some; [done|by apply Hm].
Qed.

Lemma soundNode_insert_plain (m : gmap string (json F)) k c :
  k <> "properties" -> soundNode m -> propertiesAreObjects c ->
  soundNode (<[k := c]> m).
Proof. intros. by apply soundNode_insert, sound_plain. Qed.

Lemma soundNode_delete (m : gmap string (json F)) k :
  soundNode m -> soundNode (delete k m).
Proof. intros Hm k' c' [_ Hk']%lookup_delete_Some. by apply Hm. Qed.

Lemma soundNode_union (m1 m2 : gmap string (json F)) :
  soundNode m1 -> soundNode m2 -> soundNode (m1 ∪ m2).
Proof.
  intros H1 H2 k c [Hk|[_ Hk]]%lookup_union_Some_raw; [by apply H1|by apply H2].
Qed.

Lemma soundNode_appendHint (node : gmap string (json F)) hint :
  soundNode node -> soundNode (util.appendHintToNode node hint).
Proof.
  intros Hnode. unfold util.appendHintToNode.
  by destruct (decide _); apply soundNode_insert_plain.
Qed.

Lemma soundNode_constToEnum (node : gmap string (json F)) :
  soundNode node -> soundNode (util.constToEnum node).
Proof.
  intros Hnode. unfold util.constToEnum.
  destruct (node !! "const") as [constVal|] eqn:Hconst; [|done].
  apply soundNode_delete. destruct (decide _); [done|].
  apply soundNode_insert_plain; [done..|].
  apply propertiesAreObjects_arr. constructor; [|done].
  by apply Hnode in Hconst as [? _].
Qed.

Lemma soundNode_stringifyEnum (node : gmap string (json F)) :
  soundNode node -> soundNode (util.stringifyEnum node).
Proof.
  intros Hnode. unfold util.stringifyEnum.
  destruct (util.asSlice (node !! "enum")) as [enumVal|]; [|done].
  assert (soundNode (<["enum" :=
            JArr ((fun v => JStr (fmt.Sprint v)) <$> enumVal)]> node)) as Hnew.
  { apply soundNode_insert_plain; [done..|].
    apply propertiesAreObjects_arr, Forall_fmap, Forall_forall.
    by intros. }
  destruct (_ && _); [by apply soundNode_appendHint|done].
Qed.

Lemma soundNode_dropAdditionalProperties (node : gmap string (json F)) :
  soundNode node -> soundNode (util.dropAdditionalProperties node).
Proof.
  intros Hnode. unfold util.dropAdditionalProperties.
  destruct (node !! "additionalProperties") as [addProps|]; [|done].
  apply soundNode_delete.
  destruct (util.asBool _) as [[]|]; [done| |done].
  by apply soundNode_appendHint.
Qed.

Lemma soundNode_demoteUnsupported (node : gmap string (json F)) :
  soundNode node -> soundNode (util.demoteUnsupported node).
Proof.
  unfold util.demoteUnsupported. revert node.
  induction util.unsupportedKeys as [|key keys IH]; intros node Hnode; [done|].
  simpl. apply IH.
  destruct (node !! key) as [[]|]; try done;
    by apply soundNode_delete, soundNode_appendHint.
Qed.

Lemma soundNode_cleanupRequired (node : gmap string (json F)) :
  soundNode node -> soundNode (util.cleanupRequiredInPlace node).
Proof.
  intros Hnode. unfold util.cleanupRequiredInPlace.
  destruct (util.asSlice (node !! "required")) as [reqArr|] eqn:Hreq; [|done].
  destruct (util.asMap (node !! "properties")) as [props|]; [|done].
  destruct (decide _); [|done].
  destruct (decide _); [by apply soundNode_delete|].
  apply soundNode_insert_plain; [done..|].
  destruct (node !! "required") as [[]|] eqn:Hk; try done.
  injection Hreq as ->. apply Hnode in Hk as [Hk _].
  apply propertiesAreObjects_arr, Forall_forall.
  intros c [_ Hc]%list_elem_of_filter.
  apply propertiesAreObjects_arr in Hk. by eapply Forall_forall in Hk.
Qed.

Lemma soundNode_removeUnsupportedKeywords (node : gmap string (json F)) :
  soundNode node -> soundNode (util.removeUnsupportedKeywords node).
Proof.
  unfold util.removeUnsupportedKeywords. revert node.
  induction util.removeKeys as [|key keys IH]; intros node Hnode; [done|].
  simpl. by apply IH, soundNode_delete.
Qed.

Lemma soundNode_mergeAllOfInPlace (parent merged : gmap string (json F))
    (allOf : list (json F)) :
  soundNode parent ->
  propertiesAreObjects (JArr allOf) ->
  util.mergeAllOfInPlace parent allOf = Ok merged ->
  soundNode merged.
Proof.
  intros Hparent Hitems%propertiesAreObjects_arr.
  unfold util.mergeAllOfInPlace.
  set (parent1 := if decide (is_Some (parent !! "properties")) then parent
                  else <["properties" := JObj ∅]> parent).
  assert (soundNode parent1) as Hparent1.
  { unfold parent1. destruct (decide _); [done|].
    apply soundNode_insert, sound_properties; [done|apply soundNode_empty]. }
  destruct (parent1 !! "properties") as [[| | | | |props]|] eqn:Hprops; try done.
  simpl.
  pose proof (soundNode_properties _ _ Hparent1 Hprops) as Hgood.
  clear Hprops.
  set (required0 := match util.asSlice (parent1 !! "required") with
                    | Some reqArr => util.stringsOf reqArr
                    | None => []
                    end).
  generalize required0. clear required0. revert props Hgood.
  induction allOf as [|item allOf IH]; intros props Hgood required0.
  - simpl. intros [= <-].
    assert (soundNode (<["properties" := JObj props]> parent1)) as Hnew
      by (by apply soundNode_insert, sound_properties).
    destruct (decide (0 < length required0)); [|exact Hnew].
    apply soundNode_insert_plain; [done..|].
    apply propertiesAreObjects_strings.
  - apply Forall_cons in Hitems as [Hitem Hitems]. cbn [foldl].
    destruct item as [| | | | |itemObj]; try (by apply IH).
    apply propertiesAreObjects_obj in Hitem.
    destruct (itemObj !! "properties") as [[| | | | |itemProps]|] eqn:Hk;
      try (by apply IH).
    pose proof (soundNode_properties _ _ Hitem Hk) as Hgood'.
    cbn [util.asMap].
    apply IH; [done|by apply soundNode_union].
Qed.

Lemma soundNode_mergeAllOf (node merged : gmap string (json F)) :
  soundNode node -> util.mergeAllOf node = Ok merged -> soundNode merged.
Proof.
  intros Hnode. unfold util.mergeAllOf.
  destruct (node !! "allOf") as [[| | | |allOf|]|] eqn:Hk; simpl;
    try (by intros [= <-]).
  intros (merged' & Hmerged & [= <-])%res_bind_Ok.
  apply soundNode_delete. eapply soundNode_mergeAllOfInPlace; [done| |done].
  by apply Hnode in Hk as [? _].
Qed.

Lemma soundNode_flattenUnionInPlace (parent : gmap string (json F))
    (arr : list (json F)) (unionType : string) :
  soundNode parent ->
  propertiesAreObjects (JArr arr) ->
  soundNode (util.flattenUnionInPlace parent arr unionType).
Proof.
  intros Hparent Harr%propertiesAreObjects_arr.
  unfold util.flattenUnionInPlace.
  destruct (decide (length arr = 0)); [done|].
  destruct (util.selectBestSchema arr) as [bestIdx allTypes].
  set (idx := Z.to_nat _).
  destruct (arr !! idx) as [[| | | | |best]|] eqn:Hbest; try done. simpl.
  assert (soundNode best) as Hgood.
  { eapply Forall_lookup_1 in Harr; [|exact Hbest].
    by apply propertiesAreObjects_obj. }
  set (merged := map_fold _ parent best).
  assert (soundNode merged) as Hmerged.
  { revert Hgood. unfold merged.
    apply (map_fold_weak_ind (fun r m => soundNode m -> soundNode r)); [done|].
    intros k c m r Hnone IH Hm.
    assert (soundNode r) as Hr.
    { apply IH. intros k' c' Hk'. apply Hm.
      rewrite lookup_insert_ne; [done|]. by intros ->; rewrite Hnone in Hk'. }
    pose proof (Hm k c (lookup_insert_eq _ _ _)) as Hc.
    destruct (decide (k = "description")); [|by apply soundNode_insert].
    destruct c; try done.
    repeat (destruct (decide _); try done);
      by apply soundNode_insert_plain. }
  destruct (decide (1 < _)); [by apply soundNode_appendHint|done].
Qed.

Lemma soundNode_flattenUnions (node : gmap string (json F)) :
  soundNode node -> soundNode (util.flattenUnions node).
Proof.
  assert (forall key (node : gmap string (json F)),
    soundNode node ->
    soundNode match util.asSlice (node !! key) with
             | Some arr =>
                 if decide (0 < length arr)
                 then delete key (util.flattenUnionInPlace node arr key)
                 else node
             | None => node
             end) as Hstep.
  { intros key node' Hnode.
    destruct (node' !! key) as [[| | | |arr|]|] eqn:Hk; try done. simpl.
    destruct (decide _); [|done].
    apply soundNode_delete, soundNode_flattenUnionInPlace; [done|].
    by apply Hnode in Hk as [? _]. }
  intros Hnode. unfold util.flattenUnions. simpl. by apply Hstep, Hstep.
Qed.

Lemma soundNode_flattenTypeArray (node : gmap string (json F)) path ctx :
  soundNode node -> soundNode (util.flattenTypeArray node path ctx).1.
Proof.
  intros Hnode. unfold util.flattenTypeArray.
  destruct (node !! "type") as [[| | | |typeVal|]|] eqn:Hk; try done. simpl.
  destruct (decide _); [|done].
  unfold util.handleTypeArrayInPlace.
  destruct (foldl _ _ typeVal) as [nonNullTypes hasNull].
  set (typed := <["type" := _]> node).
  assert (soundNode typed) as Htyped by (by apply soundNode_insert_plain).
  set (hinted := if decide (1 < length nonNullTypes) then _ else typed).
  assert (soundNode hinted) as Hhinted.
  { unfold hinted. destruct (decide _); [by apply soundNode_appendHint|done]. }
  destruct (_ && _); [|done].
  destruct (util.firstPropertiesSegment _ _) as [[objectPath fieldName]|];
    by apply soundNode_appendHint.
Qed.

Lemma soundNode_handleEmptyObjectSchema (node : gmap string (json F)) path :
  soundNode node -> soundNode (util.handleEmptyObjectSchema node path).
Proof.
  intros Hnode. unfold util.handleEmptyObjectSchema.
  assert (forall props : gmap string (json F), props = ∅ ->
    soundNode (<["required" := JArr [JStr "reason"]]>
                (<["properties" :=
                     JObj (<["reason" := util.reasonPlaceholder]> props)]> node)))
    as Hreason.
  { intros props ->. apply soundNode_insert_plain; [done| |done].
    apply soundNode_insert, sound_properties; [done|].
    apply soundNode_insert_plain; [done|apply soundNode_empty|].
    by vm_compute. }
  destruct (node !! "properties") as [[| | | | |props]|] eqn:Hk; simpl;
    try (by apply Hreason).
  destruct (decide (size props = 0)) as [Hsize|Hsize];
    [by apply Hreason, map_size_empty_inv|].
  destruct (_ && _); [|done].
  apply soundNode_insert_plain; [done| |done].
  pose proof (soundNode_properties _ _ Hnode Hk) as Hgood.
  apply soundNode_insert; [done|].
  destruct (decide _); [by apply sound_properties|].
  apply sound_properties.
  apply soundNode_insert_plain; [done..|]. by vm_compute.
Qed.

Lemma soundNode_placeholderIfObject (node : gmap string (json F)) path :
  soundNode node -> soundNode (util.placeholderIfObject node path).
Proof.
  intros Hnode. unfold util.placeholderIfObject.
  destruct (util.asString (node !! "type")) as [typeStr|]; [|done].
  destruct (decide _) as [->|]; [|done].
  by apply soundNode_handleEmptyObjectSchema.
Qed.

(** The node pass keeps every [properties] an object. *)
Lemma soundNode_processObjectNode (node node' : gmap string (json F))
    path ctx ctx' :
  soundNode node ->
  util.processObjectNode node path ctx = Ok (node', ctx') ->
  soundNode node'.
Proof.
  intros Hnode. unfold util.processObjectNode.
  destruct (util.asString (node !! "$ref")) as [refVal|].
  { intros [= <- <-]. unfold util.refReplacement.
    apply soundNode_insert_plain; [done| |done].
    apply soundNode_insert_plain; [done|apply soundNode_empty|done]. }
  intros (merged & Hmerged & Hrest)%res_bind_Ok.
  pose proof (soundNode_flattenTypeArray (util.flattenUnions merged) path ctx)
    as Htyped.
  destruct (util.flattenTypeArray _ _ _) as [typed ctx1].
  injection Hrest as <- <-.
  apply soundNode_removeUnsupportedKeywords, soundNode_cleanupRequired,
    soundNode_placeholderIfObject, Htyped, soundNode_flattenUnions.
  eapply soundNode_mergeAllOf; [|done].
  by apply soundNode_demoteUnsupported, soundNode_dropAdditionalProperties,
    soundNode_stringifyEnum, soundNode_constToEnum.
Qed.


(** A node whose [properties] is absent or an object passes the merge. *)
Lemma soundNode_no_panic (node : gmap string (json F)) path ctx :
  soundNode node ->
  exists node' ctx', util.processObjectNode node path ctx = Ok (node', ctx').
Proof.
  intros Hnode.
  destruct (util.processObjectNode node path ctx) as [[node' ctx']|e] eqn:Hp;
    [by eauto|].
  apply processObjectNode_Fail in Hp as (_ & _ & _ & [c Hc] & Hmap).
  rewrite Hc in Hmap. apply Hnode in Hc as [_ Hc].
  by destruct c; try done; specialize (Hc eq_refl).
Qed.

Lemma rangeChildren_fold_no_panic
    (rec : json F -> string -> util.cleanContext -> res (json F * util.cleanContext))
    (init : res (gmap string (json F) * util.cleanContext))
    (m : gmap string (json F)) (path : string) :
  init <> Fail TypeAssertionPanic ->
  (forall k c path ctx, m !! k = Some c ->
     rec c path ctx <> Fail TypeAssertionPanic) ->
  map_fold (fun key child (acc : res (gmap string (json F) * util.cleanContext)) =>
              '(v, ctx) ← acc;
              '(child, ctx) ← rec child (util.buildPath path key) ctx;
              mret (<[key := child]> v, ctx)) init m
  <> Fail TypeAssertionPanic.
Proof.
  intros Hinit.
  apply (map_fold_weak_ind
           (fun r m => (forall k c path ctx, m !! k = Some c ->
                          rec c path ctx <> Fail TypeAssertionPanic) ->
                       r <> Fail TypeAssertionPanic)); [done|].
  intros k c m' r Hnone IH Hrec.
  assert (r <> Fail TypeAssertionPanic) as Hr.
  { apply IH. intros k' c' path' ctx' Hk'. apply (Hrec k' c').
    rewrite lookup_insert_ne; [done|]. by intros ->; rewrite Hnone in Hk'. }
  destruct r as [[v' ctx']|e]; [|by destruct e].
  pose proof (Hrec k c (util.buildPath path k) ctx' (lookup_insert_eq _ _ _))
    as Hc.
  unfold mbind, res_bind.
  destruct (rec c _ ctx') as [[child ctx'']|e];
    [by unfold mret, res_ret|by intros [= ->]].
Qed.

Lemma rangeElements_no_panic
    (rec : json F -> string -> util.cleanContext -> res (json F * util.cleanContext))
    (v : list (json F)) (path : string) (i : nat) (ctx : util.cleanContext) :
  Forall (fun c => forall path ctx, rec c path ctx <> Fail TypeAssertionPanic) v ->
  util.rangeElements rec v path i ctx <> Fail TypeAssertionPanic.
Proof.
  revert i ctx. induction v as [|c v IH]; intros i ctx Hrec; [done|].
  apply Forall_cons in Hrec as [Hc Hrec].
  cbn [util.rangeElements]. unfold mbind, res_bind.
  specialize (Hc (path +:+ "[" +:+ pretty i +:+ "]") ctx).
  destruct (rec c _ ctx) as [[c' ctx']|e]; [|by intros [= ->]].
  specialize (IH (S i) ctx' Hrec).
  destruct (util.rangeElements rec v path (S i) ctx') as [[v' ctx'']|e];
    [done|by intros [= ->]].
Qed.

Lemma cleanSchemaRecursive_no_panic (fuel : nat) (v : json F)
    (path : string) (ctx : util.cleanContext) :
  propertiesAreObjects v ->
  util.cleanSchemaRecursive fuel v path ctx <> Fail TypeAssertionPanic.
Proof.
  revert v path ctx. induction fuel as [|fuel IH]; intros v path ctx Hv.
  { by destruct v. }
  destruct v as [| | | |l|m]; try done.
  - apply propertiesAreObjects_arr in Hv.
    cbn [util.cleanSchemaRecursive]. unfold mbind, res_bind.
    assert (util.rangeElements (util.cleanSchemaRecursive fuel) l path 0 ctx
            <> Fail TypeAssertionPanic) as Hl.
    { apply rangeElements_no_panic.
      eapply Forall_impl; [exact Hv|]. intros c Hc path' ctx'. by apply IH. }
    destruct (util.rangeElements _ l path 0 ctx) as [[l' ctx']|e];
      [done|by intros [= ->]].
  - apply propertiesAreObjects_obj in Hv.
    cbn [util.cleanSchemaRecursive]. unfold mbind, res_bind.
    destruct (soundNode_no_panic m path ctx Hv) as (m' & ctx' & Hm).
    rewrite Hm.
    assert (util.rangeChildren (util.cleanSchemaRecursive fuel) m' path ctx'
            <> Fail TypeAssertionPanic) as Hchildren.
    { apply rangeChildren_fold_no_panic; [done|].
      intros k c path' ctx'' Hk. apply IH.
      by apply (soundNode_processObjectNode _ _ _ _ _ Hv Hm) in Hk as [? _]. }
    destruct (util.rangeChildren _ m' path ctx') as [[m'' ctx'']|e];
      [done|by intros [= ->]].
Qed.

(** X2.  For a schema in which every [properties] keyword, at any
    depth, holds an object, the cleaner returns a schema: the unchecked
    type assertion of the allOf merge cannot fail and the traversal
    ends. *)
Theorem cleaner_returns_when_properties_are_objects (schema : json F) :
  propertiesAreObjects schema ->
  exists out, util.cleanSchemaValue schema = Ok out.
Proof.
  intros Hschema. unfold util.cleanSchemaValue.
  pose proof (cleanSchemaRecursive_never_out_of_fuel (util.depthBound schema)
                schema "" (util.CleanContext ∅) (le_n _)) as Hfuel.
  pose proof (cleanSchemaRecursive_no_panic (util.depthBound schema)
                schema "" (util.CleanContext ∅) Hschema) as Hpanic.
  destruct (util.cleanSchemaRecursive _ _ _ _) as [[cleaned ctx]|e];
    [|by destruct e].
  cbn [mbind res_bind]. destruct cleaned; by eexists.
Qed.

End totality.

(** The theorem at [nested_nullable_age_schema]. *)
Lemma cleaner_returns_when_properties_are_objects_witness :
  propertiesAreObjects nested_nullable_age_schema
  /\ exists out, util.cleanSchemaValue nested_nullable_age_schema = Ok out.
Proof.
  assert (propertiesAreObjects nested_nullable_age_schema) as Hschema
    by (by vm_compute).
  split; [exact Hschema|].
  exact (cleaner_returns_when_properties_are_objects
           nested_nullable_age_schema Hschema).
Defined.

(** ** Schema normalizer: the member selected from a union *)

Section union_selection.
Context {F : Type} `{Float64 F}.

(** The state of the loop of [selectBestSchema] after the members [pre]:
    nothing selected yet and no object among them, or the selected index
    holds the first object of the highest score. *)
Lemma selectBestSchema_loop (rest pre : list (json F))
    (bestScore bestIdx : Z) (types : list string) :
  (bestScore = (-1)%Z /\ bestIdx = 0%Z
   /\ (forall j o, pre !! j = Some (JObj o) -> False)
   \/ (0 <= bestIdx)%Z
      /\ exists best, pre !! Z.to_nat bestIdx = Some (JObj best)
         /\ schemaScore best = bestScore
         /\ forall j o, pre !! j = Some (JObj o) ->
              (schemaScore o <= bestScore)%Z
              /\ (schemaScore o = bestScore -> (bestIdx <= Z.of_nat j)%Z)) ->
  let '(bestScore', bestIdx', types') :=
    foldl (fun (st : Z * Z * list string) (it : nat * json F) =>
             let '(bestScore, bestIdx, types) := st in
             let '(i, item) := it in
             match item with
             | JObj itemObj =>
                 let t := default "" (util.asString (itemObj !! "type")) in
                 let notNil k :=
                   match itemObj !! k with
                   | None | Some JNull => false
                   | Some _ => true
                   end in
                 let '(score, t) :=
                   if bool_decide (t = "object") || notNil "properties"
                   then (3%Z, if decide (t = "") then "object" else t)
                   else if bool_decide (t = "array") || notNil "items"
                   then (2%Z, if decide (t = "") then "array" else t)
                   else if bool_decide (t <> "") && bool_decide (t <> "null")
                   then (1%Z, t)
                   else (0%Z, if decide (t = "") then "null" else t) in
                 let types :=
                   if bool_decide (t <> "") && negb (util.stringSliceContains types t)
                   then types ++ [t] else types in
                 if decide (bestScore < score)%Z
                 then (score, Z.of_nat i, types)
                 else (bestScore, bestIdx, types)
             | _ => st
             end)
          (bestScore, bestIdx, types)
          (imap (fun i item => (length pre + i, item)) rest) in
  (bestScore' = (-1)%Z /\ bestIdx' = 0%Z
   /\ (forall j o, (pre ++ rest) !! j = Some (JObj o) -> False)
   \/ (0 <= bestIdx')%Z
      /\ exists best, (pre ++ rest) !! Z.to_nat bestIdx' = Some (JObj best)
         /\ schemaScore best = bestScore'
         /\ forall j o, (pre ++ rest) !! j = Some (JObj o) ->
              (schemaScore o <= bestScore')%Z
              /\ (schemaScore o = bestScore' -> (bestIdx' <= Z.of_nat j)%Z)).
Proof.
  set (step := fun (st : Z * Z * list string) (it : nat * json F) => _).
  revert pre bestScore bestIdx types.
  induction rest as [|item rest IH]; intros pre bestScore bestIdx types Hinv.
  { simpl. by rewrite app_nil_r. }
  rewrite imap_cons. cbn [foldl].
  rewrite (imap_ext _ (fun i x => (length (pre ++ [item]) + i, x)))
    by (intros; rewrite length_app; simpl; f_equal; lia).
  replace (pre ++ item :: rest) with ((pre ++ [item]) ++ rest)
    by (by rewrite <- app_assoc).
  assert (forall j o, (pre ++ [item]) !! j = Some (JObj o) ->
            pre !! j = Some (JObj o)
            \/ j = length pre /\ item = JObj o) as Hsnoc.
  { intros j o Hj. apply lookup_app_Some in Hj as [Hj|[Hge Hj]]; [by left|].
    right. apply list_lookup_singleton_Some in Hj as [Hj <-].
    split; [lia|done]. }
  destruct item as [| | | | |itemObj].
  1-5: change (step (bestScore, bestIdx, types) _)
         with (bestScore, bestIdx, types);
    apply IH;
    (destruct Hinv as [(-> & -> & Hnone)|(Hpos & best & Hbest & Hscore & Hmax)];
     [left; split; [done|]; split; [done|];
      intros j o [Hj|[_ [=]]]%Hsnoc; by eapply Hnone
     |right; split; [done|]; exists best;
      split; [by apply lookup_app_l_Some|]; split; [done|];
      intros j o [Hj|[_ [=]]]%Hsnoc; by apply Hmax]).
  (* an object member *)
  assert (exists types',
    step (bestScore, bestIdx, types) (length pre + 0, JObj itemObj)
    = if decide (bestScore < schemaScore itemObj)%Z
      then (schemaScore itemObj, Z.of_nat (length pre + 0), types')
      else (bestScore, bestIdx, types')) as [types' ->].
  { unfold step, schemaScore. cbv zeta.
    destruct (_ || _); [by eexists|].
    destruct (_ || _); [by eexists|].
    destruct (_ && _); by eexists. }
  assert (0 <= schemaScore itemObj)%Z as Hnonneg.
  { unfold schemaScore. cbv zeta. repeat case_match; lia. }
  replace (length pre + 0) with (length pre) by lia.
  destruct (decide (bestScore < schemaScore itemObj)%Z) as [Hbetter|Hworse];
    apply IH; right.
  - split; [lia|]. exists itemObj. rewrite Nat2Z.id.
    split; [by rewrite lookup_app_r, Nat.sub_diag by lia|]. split; [done|].
    intros j o [Hj|[-> [= ->]]]%Hsnoc; [|lia].
    destruct Hinv as [(-> & -> & Hnone)|(Hpos & best & Hbest & Hscore & Hmax)];
      [by destruct (Hnone _ _ Hj)|].
    destruct (Hmax _ _ Hj). apply lookup_lt_Some in Hj. lia.
  - destruct Hinv as [(-> & -> & Hnone)|(Hpos & best & Hbest & Hscore & Hmax)];
      [lia|].
    split; [done|]. exists best.
    split; [by apply lookup_app_l_Some|]. split; [done|].
    intros j o [Hj|[-> [= ->]]]%Hsnoc; [by apply Hmax|].
    split; [lia|]. intros Heq.
    apply lookup_lt_Some in Hbest. lia.
Qed.

(** What [selectBestSchema] returns: an index within the union and, when
    the union has an object member, the first member of the highest
    score. *)
Lemma selectBestSchema_spec (items : list (json F)) :
  let bestIdx := (util.selectBestSchema items).1 in
  (0 <= bestIdx)%Z
  /\ (items <> [] -> (bestIdx < Z.of_nat (length items))%Z)
  /\ forall j o, items !! j = Some (JObj o) ->
       exists best,
         items !! Z.to_nat bestIdx = Some (JObj best)
         /\ (schemaScore o <= schemaScore best)%Z
         /\ (schemaScore o = schemaScore best -> (bestIdx <= Z.of_nat j)%Z).
Proof.
  intros bestIdx. subst bestIdx. unfold util.selectBestSchema.
  pose proof (selectBestSchema_loop items [] (-1) 0 []) as Hloop.
  simpl in Hloop.
  assert (forall j (o : gmap string (json F)),
            ([] : list (json F)) !! j = Some (JObj o) -> False) as Hempty
    by (by intros []).
  specialize (Hloop (or_introl (conj eq_refl (conj eq_refl Hempty)))).
  clear Hempty.
  destruct (foldl _ _ _) as [[bestScore bestIdx] types].
  destruct Hloop as [(-> & -> & Hnone)|(Hpos & best & Hbest & Hscore & Hmax)];
    cbn [fst].
  - split; [done|]. split.
    + intros Hitems. destruct items; [done|]. simpl. lia.
    + intros j o Hj. by destruct (Hnone _ _ Hj).
  - split; [done|]. split.
    + intros _. apply lookup_lt_Some in Hbest. lia.
    + intros j o Hj. exists best. split; [done|].
      destruct (Hmax _ _ Hj) as [Hle Hfirst].
      split; [lia|]. intros Heq. apply Hfirst. lia.
Qed.


(** X6.  [selectBestSchema] returns an index within the
    union, so the range check of [flattenUnionInPlace] never fires; when
    the union has an object member, the selected member is the first one
    of the highest score (object schema 3, array schema 2, other non-null
    type 1, else 0). *)
Theorem selectBestSchema_selects_first_best (items : list (json F)) :
  let bestIdx := (util.selectBestSchema items).1 in
  (0 <= bestIdx)%Z
  /\ (items <> [] -> (bestIdx < Z.of_nat (length items))%Z)
  /\ forall j o, items !! j = Some (JObj o) ->
       exists best,
         items !! Z.to_nat bestIdx = Some (JObj best)
         /\ (schemaScore o <= schemaScore best)%Z
         /\ (schemaScore o = schemaScore best -> (bestIdx <= Z.of_nat j)%Z).
Proof. apply selectBestSchema_spec. Qed.

(** X7.  [flattenUnionInPlace] copies the selected
    member over the parent: apart from the description, every keyword of
    the member takes the member's value and every other keyword of the
    parent stays.  The parent is left as it is when the union is empty or
    the selected member is no object. *)
Theorem flattenUnionInPlace_selected_member_overrides
    (parent : gmap string (json F)) (arr : list (json F))
    (unionType : string) :
  let out := util.flattenUnionInPlace parent arr unionType in
  match arr !! Z.to_nat (util.selectBestSchema arr).1 with
  | Some (JObj best) =>
      forall k, k <> "description" -> out !! k = (best ∪ parent) !! k
  | _ => out = parent
  end.
Proof.
  intros out. subst out. unfold util.flattenUnionInPlace.
  destruct (decide (length arr = 0)) as [Hlen|Hlen].
  { apply nil_length_inv in Hlen. by subst arr. }
  destruct (selectBestSchema_spec arr) as (Hpos & Hrange & _).
  specialize (Hrange ltac:(by intros ->)).
  destruct (util.selectBestSchema arr) as [bestIdx allTypes].
  cbn [fst] in *.
  rewrite decide_False by lia.
  destruct (arr !! Z.to_nat bestIdx) as [selected|]; [|done].
  destruct selected as [| | | | |best]; try done.
  cbn [util.asMap].
  intros k Hk.
  set (f := fun (k : string) (v : json F) (parent : gmap string (json F)) => _).
  assert (map_fold f parent best !! k = (best ∪ parent) !! k) as Hfold.
  { revert k Hk.
    apply (map_fold_weak_ind
             (fun acc (m : gmap string (json F)) =>
                forall k, k <> "description" -> acc !! k = (m ∪ parent) !! k)).
    - intros k Hk. by rewrite (left_id ∅ (∪)).
    - intros i x m acc Hi IH k Hk. unfold f.
      rewrite <- insert_union_l.
      destruct (decide (i = "description")) as [->|Hi'].
      + rewrite lookup_insert_ne by done. rewrite <- IH by done.
        destruct x; try done.
        destruct (decide _); [by rewrite lookup_insert_ne|].
        destruct (decide _); [by rewrite lookup_insert_ne|done].
      + destruct (decide (k = i)) as [->|Hki].
        * by rewrite !lookup_insert_eq.
        * rewrite !lookup_insert_ne by done. by apply IH. }
  destruct (decide (1 < length allTypes)); [|done].
  by rewrite lookup_appendHintToNode.
Qed.

End union_selection.

(** ** Schema normalizer: the merge of allOf *)

Section allOf_merge.
Context {F : Type} `{Float64 F}.

Lemma stringSliceContains_elem_of (slice : list string) (item : string) :
  util.stringSliceContains slice item <-> item ∈ slice.
Proof.
  induction slice as [|s slice IH]; simpl; [by rewrite elem_of_nil|].
  rewrite elem_of_cons. destruct (decide (s = item)) as [->|Hne].
  - split; [by left|done].
  - rewrite IH. split; [by right|]. by intros [->|?].
Qed.

Lemma elem_of_stringsOf (l : list (json F)) (name : string) :
  name ∈ util.stringsOf l <-> JStr name ∈ l.
Proof.
  unfold util.stringsOf. rewrite list_elem_of_omap. split.
  - intros (r & Hr & Hname). by destruct r; simplify_eq/=.
  - intros Hname. exists (JStr name). by split.
Qed.

(** The inner loop of the merge of [required]: names are appended once. *)
Lemma appendMissing_elem_of (names acc : list string) (name : string) :
  name ∈ foldl (fun acc str =>
                  if util.stringSliceContains acc str then acc
                  else acc ++ [str]) acc names
  <-> name ∈ acc \/ name ∈ names.
Proof.
  revert acc. induction names as [|str names IH]; intros acc; simpl.
  { rewrite elem_of_nil. split; [by left|by intros [?|[]]]. }
  rewrite IH, elem_of_cons.
  destruct (util.stringSliceContains acc str) eqn:Hin.
  - apply Is_true_true, stringSliceContains_elem_of in Hin.
    split; [intros [?|?]; auto|]. intros [?|[->|?]]; auto.
  - rewrite elem_of_app, list_elem_of_singleton.
    split; [intros [[?|?]|?]; auto|intros [?|[?|?]]; auto].
Qed.

(** The loop of [mergeAllOfInPlace] over the members of [allOf]. *)
Lemma mergeAllOf_loop (allOf : list (json F))
    (props : gmap string (json F)) (allRequired : list string) :
  let '(props', allRequired') :=
    foldl (fun (st : gmap string (json F) * list string) item =>
             let '(props, allRequired) := st in
             match item with
             | JObj itemObj =>
                 let props :=
                   match util.asMap (itemObj !! "properties") with
                   | Some itemProps => itemProps ∪ props
                   | None => props
                   end in
                 let allRequired :=
                   match util.asSlice (itemObj !! "required") with
                   | Some itemReq =>
                       foldl (fun acc str =>
                                if util.stringSliceContains acc str then acc
                                else acc ++ [str])
                             allRequired (util.stringsOf itemReq)
                   | None => allRequired
                   end in
                 (props, allRequired)
             | _ => st
             end)
          (props, allRequired) allOf in
  (forall k, is_Some (props' !! k)
     <-> is_Some (props !! k)
         \/ exists itemObj itemProps,
              JObj itemObj ∈ allOf
              /\ itemObj !! "properties" = Some (JObj itemProps)
              /\ is_Some (itemProps !! k))
  /\ (forall name, name ∈ allRequired'
        <-> name ∈ allRequired
            \/ exists itemObj itemReq,
                 JObj itemObj ∈ allOf
                 /\ itemObj !! "required" = Some (JArr itemReq)
                 /\ JStr name ∈ itemReq).
Proof.
  set (step := fun (st : gmap string (json F) * list string) item => _).
  revert props allRequired.
  induction allOf as [|item allOf IH]; intros props allRequired.
  { simpl. split; intros x;
      (split; [by left|intros [?|(? & ? & Hin & _)];
                       [done|by apply elem_of_nil in Hin]]). }
  cbn [foldl].
  destruct (step (props, allRequired) item) as [props1 allRequired1] eqn:Hstep.
  specialize (IH props1 allRequired1).
  destruct (foldl step (props1, allRequired1) allOf) as [props' allRequired'].
  destruct IH as [IHprops IHreq].
  assert ((forall k, is_Some (props1 !! k)
             <-> is_Some (props !! k)
                 \/ exists itemObj itemProps,
                      item = JObj itemObj
                      /\ itemObj !! "properties" = Some (JObj itemProps)
                      /\ is_Some (itemProps !! k))
          /\ (forall name, name ∈ allRequired1
                <-> name ∈ allRequired
                    \/ exists itemObj itemReq,
                         item = JObj itemObj
                         /\ itemObj !! "required" = Some (JArr itemReq)
                         /\ JStr name ∈ itemReq)) as [Hprops Hreq].
  { unfold step in Hstep.
    destruct item as [| | | | |itemObj];
      try (injection Hstep as <- <-;
           split; intros x; (split; [by left|]);
           by intros [?|(? & ? & [=] & _)]).
    injection Hstep as <- <-. split.
    - intros k.
      destruct (itemObj !! "properties") as [[| | | | |itemProps]|] eqn:Hk;
        cbn [util.asMap];
        try (split; [by left|];
             intros [?|(? & ? & [= <-] & Hk' & _)]; [done|by rewrite Hk in Hk']).
      rewrite lookup_union_is_Some. split.
      + intros [?|?]; [right|by left]. by exists itemObj, itemProps.
      + intros [?|(o & p & [= <-] & Hp & ?)]; [by right|].
        rewrite Hk in Hp. injection Hp as <-. by left.
    - intros name.
      destruct (itemObj !! "required") as [[| | | |itemReq|]|] eqn:Hk;
        cbn [util.asSlice];
        try (split; [by left|];
             intros [?|(? & ? & [= <-] & Hk' & _)]; [done|by rewrite Hk in Hk']).
      rewrite appendMissing_elem_of, elem_of_stringsOf. split.
      + intros [?|?]; [by left|right]. by exists itemObj, itemReq.
      + intros [?|(o & r & [= <-] & Hr & ?)]; [by left|].
        rewrite Hk in Hr. injection Hr as <-. by right. }
  split.
  - intros k. rewrite IHprops, Hprops. split.
    + intros [[?|(o & p & Heq & ? & ?)]|(o & p & ? & ? & ?)]; [by left|right..].
      * exists o, p. split; [by rewrite Heq; left|done].
      * exists o, p. split; [by right|done].
    + intros [?|(o & p & [Heq|?]%elem_of_cons & ? & ?)]; [by left; left| |].
      * left. right. by exists o, p.
      * right. by exists o, p.
  - intros name. rewrite IHreq, Hreq. split.
    + intros [[?|(o & r & Heq & ? & ?)]|(o & r & ? & ? & ?)]; [by left|right..].
      * exists o, r. split; [by rewrite Heq; left|done].
      * exists o, r. split; [by right|done].
    + intros [?|(o & r & [Heq|?]%elem_of_cons & ? & ?)]; [by left; left| |].
      * left. right. by exists o, r.
      * right. by exists o, r.
Qed.

(** X5.  When the merge returns, the [properties] of the node
    hold exactly the property names of the node and of the object members
    of [allOf], and [required] lists exactly the strings required by the
    node or by a member. *)
Theorem mergeAllOfInPlace_unions_members
    (parent merged : gmap string (json F)) (allOf : list (json F)) :
  util.mergeAllOfInPlace parent allOf = Ok merged ->
  exists props,
    merged !! "properties" = Some (JObj props)
    /\ (forall k, is_Some (props !! k)
          <-> (exists parentProps, parent !! "properties" = Some (JObj parentProps)
                 /\ is_Some (parentProps !! k))
              \/ exists itemObj itemProps,
                   JObj itemObj ∈ allOf
                   /\ itemObj !! "properties" = Some (JObj itemProps)
                   /\ is_Some (itemProps !! k))
    /\ (forall name,
          (exists req, merged !! "required" = Some (JArr req)
                       /\ JStr name ∈ req)
          <-> (exists parentReq, parent !! "required" = Some (JArr parentReq)
                 /\ JStr name ∈ parentReq)
              \/ exists itemObj itemReq,
                   JObj itemObj ∈ allOf
                   /\ itemObj !! "required" = Some (JArr itemReq)
                   /\ JStr name ∈ itemReq).
Proof.
  unfold util.mergeAllOfInPlace.
  set (parent1 := if decide (is_Some (parent !! "properties")) then parent
                  else <["properties" := JObj ∅]> parent).
  assert (parent1 !! "required" = parent !! "required") as Hreq1.
  { unfold parent1. destruct (decide _); [done|]. by rewrite lookup_insert_ne. }
  destruct (parent1 !! "properties") as [[| | | | |props0]|] eqn:Hprops0;
    try done.
  cbn [util.asMap]. rewrite Hreq1.
  set (required0 := match util.asSlice (parent !! "required") with
                    | Some reqArr => util.stringsOf reqArr
                    | None => []
                    end).
  pose proof (mergeAllOf_loop allOf props0 required0) as Hloop.
  destruct (foldl _ _ allOf) as [props allRequired].
  destruct Hloop as [Hprops Hreq].
  intros [= <-]. exists props.
  assert (forall k, is_Some (props0 !! k)
            <-> exists parentProps,
                  parent !! "properties" = Some (JObj parentProps)
                  /\ is_Some (parentProps !! k)) as Hparent.
  { intros k. unfold parent1 in Hprops0. destruct (decide _) as [Hsome|Hnone].
    - rewrite Hprops0. split; [by eauto|]. by intros (? & [= <-] & ?).
    - rewrite lookup_insert_eq in Hprops0. injection Hprops0 as <-.
      rewrite lookup_empty. split; [by intros [? [=]]|].
      intros (? & Hp & _). destruct Hnone. by rewrite Hp. }
  assert (forall name, name ∈ required0
            <-> exists parentReq, parent !! "required" = Some (JArr parentReq)
                                  /\ JStr name ∈ parentReq) as Hparent_req.
  { intros name. unfold required0.
    destruct (parent !! "required") as [[| | | |reqArr|]|]; cbn [util.asSlice];
      try (rewrite elem_of_nil; split; [done|by intros (? & [=] & _)]).
    rewrite elem_of_stringsOf. split; [by eauto|]. by intros (? & [= <-] & ?). }
  split; [|split].
  - destruct (decide (0 < length allRequired));
      [rewrite lookup_insert_ne by done|]; apply lookup_insert_eq.
  - intros k. by rewrite Hprops, Hparent.
  - intros name. rewrite <- Hparent_req, <- Hreq.
    destruct (decide (0 < length allRequired)) as [Hlen|Hlen].
    + rewrite lookup_insert_eq. split.
      * intros (req & [= <-] & Hname).
        apply list_elem_of_fmap in Hname as (name' & [= ->] & ?). done.
      * intros Hname. eexists. split; [done|].
        apply list_elem_of_fmap. by exists name.
    + assert (allRequired = []) as -> by (destruct allRequired; [done|simpl in Hlen; lia]).
      rewrite lookup_insert_ne by done. rewrite Hreq1.
      split; [|by intros ?%elem_of_nil].
      intros Hex. apply Hparent_req in Hex.
      apply (proj2 (Hreq name)). by left.
Qed.

End allOf_merge.

(** The theorem at a parent with the property a and one member with the property b, required. *)
Lemma mergeAllOfInPlace_unions_members_witness :
  let parent : gmap string (json Z) :=
    {[ "properties" := object [ ("a", object []) ] ]} in
  let allOf : list (json Z) :=
    [ object [ ("properties", object [ ("b", object []) ]);
               ("required", JArr [JStr "b"]) ] ] in
  let merged : gmap string (json Z) :=
    list_to_map
      [ ("properties", object [ ("a", object []); ("b", object []) ]);
        ("required", JArr [JStr "b"]) ] in
  util.mergeAllOfInPlace parent allOf = Ok merged
  /\ exists props, merged !! "properties" = Some (JObj props)
                   /\ is_Some (props !! "a") /\ is_Some (props !! "b").
Proof.
  intros parent allOf merged.
  assert (util.mergeAllOfInPlace parent allOf = Ok merged) as Hmerged
    by (vm_compute; reflexivity).
  split; [exact Hmerged|].
  destruct (mergeAllOfInPlace_unions_members parent merged allOf Hmerged)
    as (props & Hprops & Hkeys & _).
  exists props. split; [exact Hprops|]. split; apply Hkeys.
  - left. eexists. split; [vm_compute; reflexivity|by vm_compute; eexists].
  - right. do 2 eexists. split; [by left|].
    split; [vm_compute; reflexivity|by vm_compute; eexists].
Defined.

(** ** V2 translator: signatures, turns, the flag, tool use *)

Section v2_invariants.
Context {F : Type} `{Float64 F} {mapOrder : Type}.
Variable GetCachedSignature : string -> string -> string.
Variable HasValidSignature : string -> string -> bool.
Variable IsClaudeThinkingModel : string -> bool.
Variable computeHash : string -> string.
Variable UnmarshalString : string -> option (json F).
Variable MarshalString : mapOrder -> json F -> option string.

#[local] Abbreviation stepV2 :=
  (claude.contentItemStepV2 GetCachedSignature HasValidSignature
     UnmarshalString).
#[local] Abbreviation thinkingV2 :=
  (claude.processThinkingContentV2 GetCachedSignature HasValidSignature).
#[local] Abbreviation messageV2 :=
  (claude.messageStepV2 GetCachedSignature HasValidSignature UnmarshalString).
#[local] Abbreviation messagesV2 :=
  (claude.processMessagesV2 GetCachedSignature HasValidSignature
     UnmarshalString).
#[local] Abbreviation convertV2 :=
  (claude.ConvertClaudeRequestToAntigravityV2 GetCachedSignature
     HasValidSignature IsClaudeThinkingModel computeHash UnmarshalString
     MarshalString).
#[local] Abbreviation droppedV2 modelName ci :=
  (thoughtPartV2 GetCachedSignature HasValidSignature modelName ci = None).

(** A part that is a thought part carries a signature that the validator
    accepts for the model. *)
#[local] Abbreviation signedPart modelName :=
  (fun p : claude.Part.t F =>
     isThought p ->
     HasValidSignature modelName (claude.Part.ThoughtSignature p) = true).
#[local] Abbreviation signedState modelName st :=
  (Forall (signedPart modelName) (claude.thinkingParts st)
   /\ Forall (signedPart modelName) (claude.otherParts st)
   /\ Forall (signedPart modelName) (claude.clientParts st)).

(** *** One thinking block *)

(** The outcome of a thinking block: dropped, with the flag lowered, or a
    thought part under a valid signature, with the flag as it was. *)
Lemma thinkingV2_outcome (ci : claude.ClaudeContentItem.t F)
    (modelName : string) :
  (droppedV2 modelName ci
   /\ forall enable, thinkingV2 ci modelName enable = ((None, "", true), false))
  \/ exists text sig,
       HasValidSignature modelName sig = true
       /\ thoughtPartV2 GetCachedSignature HasValidSignature modelName ci
          = Some (claude.Part.mk text (Some true) sig None None None)
       /\ forall enable,
            thinkingV2 ci modelName enable
            = ((Some (claude.Part.mk text (Some true) sig None None None),
                sig, false), enable).
Proof.
  unfold thoughtPartV2, claude.processThinkingContentV2.
  destruct (negb (HasValidSignature modelName _)) eqn:Hvalid.
  - by left.
  - right. eexists _, _. split; [by apply negb_false_iff in Hvalid|done].
Qed.

(** *** Signatures *)

Lemma appendOther_signed modelName role (st : claude.blockState) part :
  claude.Part.Thought part = None ->
  signedState modelName st ->
  signedState modelName (claude.appendOther role st part).
Proof.
  intros Hpart (Ht & Ho & Hc). unfold claude.appendOther.
  assert (signedPart modelName part) as Hsigned.
  { unfold isThought. by rewrite Hpart. }
  destruct (decide _); simpl; repeat split; try done;
    apply Forall_app; (split; [done|]); by constructor.
Qed.

Lemma stepV2_signed modelName role (st : claude.blockState) ci :
  signedState modelName st ->
  signedState modelName (stepV2 modelName role st ci).
Proof.
  intros Hst. unfold claude.contentItemStepV2.
  destruct (decide (_ = "thinking")).
  { destruct Hst as (Ht & Ho & Hc).
    destruct (thinkingV2_outcome ci modelName)
      as [[_ ->]|(text & sig & Hvalid & _ & ->)]; simpl; [done|].
    destruct (decide (role = "model")); simpl; repeat split; try done;
      apply Forall_app; (split; [done|]); by constructor. }
  destruct (decide (_ = "text")); [by apply appendOther_signed|].
  destruct (decide (_ = "tool_use")).
  { destruct (claude.processToolUseContentV2 _ _ _ _) as [part|] eqn:Hpart;
      [|done].
    apply appendOther_signed; [|done]. by eapply toolUseV2_not_thought. }
  destruct (decide (_ = "tool_result")).
  { destruct (claude.processToolResultContentV2 _) as [part|] eqn:Hpart;
      [|done].
    apply appendOther_signed; [|done]. by eapply toolResultV2_not_thought. }
  destruct (decide (_ = "image")); [|done].
  destruct (claude.processImageContentV2 _) as [part|] eqn:Hpart; [|done].
  apply appendOther_signed; [|done]. by eapply imageV2_not_thought.
Qed.

Lemma foldl_stepV2_signed modelName role blocks (st : claude.blockState) :
  signedState modelName st ->
  signedState modelName (foldl (stepV2 modelName role) st blocks).
Proof.
  revert st. induction blocks as [|ci blocks IH]; intros st Hst; [done|].
  cbn [foldl]. by apply IH, stepV2_signed.
Qed.

Lemma messageV2_signed modelName contents enable msg :
  Forall (fun turn => Forall (signedPart modelName) (claude.ContentItem.Parts turn))
         contents ->
  Forall (fun turn => Forall (signedPart modelName) (claude.ContentItem.Parts turn))
         (messageV2 modelName (contents, enable) msg).1.
Proof.
  intros Hcontents. unfold claude.messageStepV2.
  destruct (claude.ClaudeMessage.Content msg) as [blocks|contentStr|];
    cbn [fst]; [| |done].
  - set (role := if decide (_ = "assistant") then "model" else _).
    destruct (foldl_stepV2_signed modelName role blocks
                (claude.BlockState "" [] [] [] enable))
      as (Ht & Ho & Hc); [done|].
    destruct (decide (0 < _)); [|done].
    apply Forall_app. split; [done|]. constructor; [|done]. simpl.
    destruct (decide (role = "model")); [by apply Forall_app|done].
  - destruct (decide _); [|done].
    apply Forall_app. split; [done|]. constructor; [|done]. simpl.
    constructor; [|done]. by intros [=].
Qed.

Lemma foldl_messageV2_signed modelName messages contents enable :
  Forall (fun turn => Forall (signedPart modelName) (claude.ContentItem.Parts turn))
         contents ->
  Forall (fun turn => Forall (signedPart modelName) (claude.ContentItem.Parts turn))
         (foldl (messageV2 modelName) (contents, enable) messages).1.
Proof.
  revert contents enable.
  induction messages as [|msg messages IH]; intros contents enable Hcontents;
    [done|].
  cbn [foldl].
  pose proof (messageV2_signed modelName contents enable msg Hcontents)
    as Hstep.
  destruct (messageV2 modelName (contents, enable) msg) as [contents' enable'].
  by apply IH.
Qed.

(** X12.  Every thought part of every turn that the V2
    translator emits carries a signature that the validator accepts for the
    model. *)
Theorem v2_thought_parts_carry_valid_signatures
    (modelName : string) (req : claude.ClaudeRequest.t F)
    (orders : nat -> mapOrder) (c c' : util.SchemaCache) (out : claude.AntigravityRequest.t F) :
  convertV2 modelName req orders c = Ok (out, c') ->
  forall turn part,
    turn ∈ claude.RequestContent.Contents (claude.AntigravityRequest.Request out) ->
    part ∈ claude.ContentItem.Parts turn ->
    claude.Part.Thought part = Some true ->
    HasValidSignature modelName (claude.Part.ThoughtSignature part) = true.
Proof.
  unfold claude.ConvertClaudeRequestToAntigravityV2.
  destruct (claude.processSystemV2 _) as [systemInstruction hasSystem].
  pose proof (foldl_messageV2_signed modelName
                (claude.ClaudeRequest.Messages req) [] true (Forall_nil_2 _))
    as Hsigned.
  fold (messagesV2 modelName (claude.ClaudeRequest.Messages req)) in Hsigned.
  destruct (messagesV2 modelName _) as [contents flag].
  intros ([decls c1] & _ & [= <- _])%res_bind_Ok. simpl.
  intros turn part Hturn Hpart.
  rewrite Forall_forall in Hsigned. specialize (Hsigned turn Hturn).
  rewrite Forall_forall in Hsigned. by apply Hsigned.
Qed.

(** *** Turns *)

Lemma messageV2_turns modelName contents enable msg :
  Forall (fun turn => claude.ContentItem.Parts turn <> []
                      /\ claude.ContentItem.Role turn <> "assistant")
         contents ->
  Forall (fun turn => claude.ContentItem.Parts turn <> []
                      /\ claude.ContentItem.Role turn <> "assistant")
         (messageV2 modelName (contents, enable) msg).1.
Proof.
  intros Hcontents. unfold claude.messageStepV2.
  set (role := if decide (_ = "assistant") then "model" else _).
  assert (role <> "assistant") as Hrole
    by (unfold role; by destruct (decide _)).
  destruct (claude.ClaudeMessage.Content msg) as [blocks|contentStr|];
    cbn [fst]; [| |done].
  - destruct (decide (0 < _)) as [Hlen|]; [|done].
    apply Forall_app. split; [done|]. constructor; [|done]. simpl.
    split; [|done]. intros Hnil. rewrite Hnil in Hlen. simpl in Hlen. lia.
  - destruct (decide (contentStr <> "")); [|done].
    apply Forall_app. split; [done|]. constructor; [|done]. simpl.
    split; [done|]. exact Hrole.
Qed.

Lemma foldl_messageV2_turns modelName messages contents enable :
  Forall (fun turn => claude.ContentItem.Parts turn <> []
                      /\ claude.ContentItem.Role turn <> "assistant")
         contents ->
  Forall (fun turn => claude.ContentItem.Parts turn <> []
                      /\ claude.ContentItem.Role turn <> "assistant")
         (foldl (messageV2 modelName) (contents, enable) messages).1.
Proof.
  revert contents enable.
  induction messages as [|msg messages IH]; intros contents enable Hcontents;
    [done|].
  cbn [foldl].
  pose proof (messageV2_turns modelName contents enable msg Hcontents)
    as Hstep.
  destruct (messageV2 modelName (contents, enable) msg) as [contents' enable'].
  by apply IH.
Qed.

(** X13.  The V2 translator emits no turn without parts and no turn
    of role "assistant", and a system instruction, when there is one, has
    role "user" and at least one part. *)
Theorem v2_emits_no_empty_turn
    (modelName : string) (req : claude.ClaudeRequest.t F)
    (orders : nat -> mapOrder) (c c' : util.SchemaCache) (out : claude.AntigravityRequest.t F) :
  convertV2 modelName req orders c = Ok (out, c') ->
  (forall turn,
     turn ∈ claude.RequestContent.Contents (claude.AntigravityRequest.Request out) ->
     claude.ContentItem.Parts turn <> []
     /\ claude.ContentItem.Role turn <> "assistant")
  /\ (forall si,
        claude.RequestContent.SystemInstruction
          (claude.AntigravityRequest.Request out) = Some si ->
        claude.ContentItem.Parts si <> []
        /\ claude.ContentItem.Role si = "user").
Proof.
  unfold claude.ConvertClaudeRequestToAntigravityV2.
  assert (forall si hasSystem,
            claude.processSystemV2 (F:=F) (claude.ClaudeRequest.System req)
              = (Some si, hasSystem) ->
            claude.ContentItem.Parts si <> []
            /\ claude.ContentItem.Role si = "user") as Hsystem.
  { intros si hasSystem. unfold claude.processSystemV2.
    destruct (claude.ClaudeRequest.System req) as [|items|str|]; try done.
    - destruct (decide (0 < _)) as [Hlen|]; [|done]. intros [= <- _].
      split; [|done]. simpl. intros Hnil. rewrite Hnil in Hlen.
      simpl in Hlen. lia.
    - destruct (decide _); [|done]. by intros [= <- _]. }
  destruct (claude.processSystemV2 _) as [systemInstruction hasSystem].
  pose proof (foldl_messageV2_turns modelName
                (claude.ClaudeRequest.Messages req) [] true (Forall_nil_2 _))
    as Hturns.
  fold (messagesV2 modelName (claude.ClaudeRequest.Messages req)) in Hturns.
  destruct (messagesV2 modelName _) as [contents flag].
  intros ([decls c1] & _ & [= <- _])%res_bind_Ok. simpl. split.
  - intros turn Hturn. rewrite Forall_forall in Hturns. by apply Hturns.
  - intros si. destruct (_ && _).
    + destruct systemInstruction as [si0|]; intros [= <-]; simpl.
      * destruct (Hsystem si0 hasSystem eq_refl) as [_ Hrole].
        split; [|done]. by destruct (claude.ContentItem.Parts si0).
      * done.
    + intros ->. by eapply Hsystem.
Qed.

(** *** The flag and the messages *)

Lemma stepV2_flag modelName role sig tp op cp enable ci :
  stepV2 modelName role (claude.BlockState sig tp op cp enable) ci
  = let st' := stepV2 modelName role (claude.BlockState sig tp op cp true) ci in
    claude.BlockState (claude.currentMessageThinkingSignature st')
      (claude.thinkingParts st') (claude.otherParts st')
      (claude.clientParts st')
      (enable && claude.enableThoughtTranslate st').
Proof.
  assert (forall part,
    claude.appendOther role (claude.BlockState sig tp op cp enable) part
    = let st' := claude.appendOther role
                   (claude.BlockState sig tp op cp true) part in
      claude.BlockState (claude.currentMessageThinkingSignature st')
        (claude.thinkingParts st') (claude.otherParts st')
        (claude.clientParts st')
        (enable && claude.enableThoughtTranslate st')) as Happend.
  { intros part. unfold claude.appendOther.
    destruct (decide _); simpl; by rewrite andb_true_r. }
  unfold claude.contentItemStepV2.
  destruct (decide (_ = "thinking")).
  { destruct (thinkingV2_outcome ci modelName)
      as [[_ Hdropped]|(text & sig' & Hvalid & _ & Hpart)].
    - rewrite !Hdropped. simpl. by rewrite andb_false_r.
    - rewrite !Hpart. simpl. rewrite Hvalid.
      destruct (decide _); simpl; by rewrite andb_true_r. }
  destruct (decide (_ = "text")); [by apply Happend|].
  destruct (decide (_ = "tool_use")).
  { simpl. destruct (claude.processToolUseContentV2 _ _ _ _);
      [by apply Happend|simpl; by rewrite andb_true_r]. }
  destruct (decide (_ = "tool_result")).
  { destruct (claude.processToolResultContentV2 _);
      [by apply Happend|simpl; by rewrite andb_true_r]. }
  destruct (decide (_ = "image")); [|simpl; by rewrite andb_true_r].
  destruct (claude.processImageContentV2 _);
    [by apply Happend|simpl; by rewrite andb_true_r].
Qed.

Lemma foldl_stepV2_flag modelName role blocks sig tp op cp enable :
  foldl (stepV2 modelName role) (claude.BlockState sig tp op cp enable) blocks
  = let st' := foldl (stepV2 modelName role)
                     (claude.BlockState sig tp op cp true) blocks in
    claude.BlockState (claude.currentMessageThinkingSignature st')
      (claude.thinkingParts st') (claude.otherParts st')
      (claude.clientParts st')
      (enable && claude.enableThoughtTranslate st').
Proof.
  revert sig tp op cp enable.
  induction blocks as [|ci blocks IH]; intros sig tp op cp enable.
  { simpl. by rewrite andb_true_r. }
  cbn [foldl]. rewrite stepV2_flag. cbv zeta.
  destruct (stepV2 modelName role (claude.BlockState sig tp op cp true) ci)
    as [sig1 tp1 op1 cp1 flag1]. cbn [claude.currentMessageThinkingSignature
      claude.thinkingParts claude.otherParts claude.clientParts
      claude.enableThoughtTranslate].
  rewrite (IH sig1 tp1 op1 cp1 (enable && flag1)).
  rewrite (IH sig1 tp1 op1 cp1 flag1). cbv zeta.
  cbn [claude.currentMessageThinkingSignature
      claude.thinkingParts claude.otherParts claude.clientParts
      claude.enableThoughtTranslate].
  by rewrite andb_assoc.
Qed.

(** One message adds its turn to the turns emitted so far, whatever they
    are, and can only lower the flag. *)
Lemma messageV2_acc modelName contents enable msg :
  messageV2 modelName (contents, enable) msg
  = (contents ++ (messageV2 modelName ([], true) msg).1,
     enable && (messageV2 modelName ([], true) msg).2).
Proof.
  unfold claude.messageStepV2.
  destruct (claude.ClaudeMessage.Content msg) as [blocks|contentStr|].
  - set (role := if decide (_ = "assistant") then "model" else _).
    rewrite (foldl_stepV2_flag modelName role blocks "" [] [] [] enable).
    cbv zeta.
    destruct (foldl _ (claude.BlockState "" [] [] [] true) blocks)
      as [sig1 tp1 op1 cp1 flag1]. simpl.
    destruct (decide (0 < _)); simpl; by rewrite ?app_nil_r.
  - simpl. destruct (decide _); simpl; by rewrite ?app_nil_r, andb_true_r.
  - simpl. by rewrite app_nil_r, andb_true_r.
Qed.

Lemma foldl_messageV2_acc modelName messages contents enable :
  foldl (messageV2 modelName) (contents, enable) messages
  = (contents ++ (messagesV2 modelName messages).1,
     enable && (messagesV2 modelName messages).2).
Proof.
  unfold claude.processMessagesV2. revert contents enable.
  induction messages as [|msg messages IH]; intros contents enable.
  { simpl. by rewrite app_nil_r, andb_true_r. }
  cbn [foldl]. rewrite (messageV2_acc modelName contents enable msg).
  rewrite IH.
  rewrite (messageV2_acc modelName [] true msg).
  rewrite (IH (_ ++ _)). simpl.
  by rewrite app_assoc, andb_assoc.
Qed.

Lemma v2_messages_compose_flag (modelName : string)
    (before after : list (claude.ClaudeMessage.t F)) :
  (messagesV2 modelName (before ++ after)).2
  = (messagesV2 modelName before).2 && (messagesV2 modelName after).2.
Proof.
  unfold claude.processMessagesV2 at 1. rewrite foldl_app.
  fold (messagesV2 modelName before).
  destruct (messagesV2 modelName before) as [contents enable].
  by rewrite foldl_messageV2_acc.
Qed.

(** X14.  Messages are translated one by one: the turns
    of a conversation are the turns of its first part followed by the turns
    of the rest, and thought translation stays enabled exactly when it does
    on both parts. *)
Theorem v2_messages_compose (modelName : string)
    (before after : list (claude.ClaudeMessage.t F)) :
  messagesV2 modelName (before ++ after)
  = ((messagesV2 modelName before).1 ++ (messagesV2 modelName after).1,
     (messagesV2 modelName before).2 && (messagesV2 modelName after).2).
Proof.
  unfold claude.processMessagesV2 at 1. rewrite foldl_app.
  fold (messagesV2 modelName before).
  destruct (messagesV2 modelName before) as [contents enable].
  apply foldl_messageV2_acc.
Qed.

Lemma stepV2_lowers modelName role (st : claude.blockState) ci :
  claude.enableThoughtTranslate (stepV2 modelName role st ci) = false ->
  claude.enableThoughtTranslate st = false
  \/ isThinkingBlock ci /\ droppedV2 modelName ci.
Proof.
  assert (forall part,
    claude.enableThoughtTranslate (claude.appendOther role st part)
    = claude.enableThoughtTranslate st) as Happend.
  { intros part. unfold claude.appendOther. by destruct (decide _). }
  unfold claude.contentItemStepV2.
  destruct (decide (_ = "thinking")) as [Hthinking|].
  { destruct (thinkingV2_outcome ci modelName)
      as [[Hdropped _]|(text & sig' & Hvalid & _ & ->)]; [by right|].
    simpl. rewrite Hvalid. destruct (decide _); simpl; by left. }
  destruct (decide (_ = "text")); [rewrite Happend; by left|].
  destruct (decide (_ = "tool_use")).
  { destruct (claude.processToolUseContentV2 _ _ _ _);
      rewrite ?Happend; by left. }
  destruct (decide (_ = "tool_result")).
  { destruct (claude.processToolResultContentV2 _);
      rewrite ?Happend; by left. }
  destruct (decide (_ = "image")); [|by left].
  destruct (claude.processImageContentV2 _); rewrite ?Happend; by left.
Qed.

Lemma foldl_stepV2_lowers modelName role blocks (st : claude.blockState) :
  claude.enableThoughtTranslate (foldl (stepV2 modelName role) st blocks)
    = false ->
  claude.enableThoughtTranslate st = false
  \/ exists ci, ci ∈ blocks /\ isThinkingBlock ci /\ droppedV2 modelName ci.
Proof.
  revert st. induction blocks as [|ci blocks IH]; intros st; [by left|].
  cbn [foldl]. intros [Hstep|(ci' & Hin & Hci')]%IH.
  - apply stepV2_lowers in Hstep as [?|?]; [by left|right].
    exists ci. split; [by left|done].
  - right. exists ci'. split; [by right|done].
Qed.

Lemma messagesV2_lowered (modelName : string)
    (messages : list (claude.ClaudeMessage.t F)) :
  (messagesV2 modelName messages).2 = false ->
  exists msg blocks ci,
    msg ∈ messages
    /\ claude.ClaudeMessage.Content msg = claude.ContentItems blocks
    /\ ci ∈ blocks
    /\ isThinkingBlock ci
    /\ droppedV2 modelName ci.
Proof.
  induction messages as [|msg messages IH] using rev_ind; [done|].
  rewrite v2_messages_compose_flag.
  intros [Hbefore|Hmsg]%andb_false_iff.
  - destruct (IH Hbefore) as (msg' & blocks & ci & Hin & Hrest).
    exists msg', blocks, ci. split; [|done]. apply elem_of_app. by left.
  - unfold claude.processMessagesV2 in Hmsg. cbn [foldl] in Hmsg.
    unfold claude.messageStepV2 in Hmsg.
    destruct (claude.ClaudeMessage.Content msg) as [blocks| |] eqn:Hcontent;
      [|by destruct (decide _)|done].
    cbn [snd] in Hmsg.
    apply foldl_stepV2_lowers in Hmsg as [?|(ci & Hci & Hthinking & Hdropped)];
      [done|].
    exists msg, blocks, ci. split; [|done].
    apply elem_of_app. right. by left.
Qed.

(** X15.  Thought translation is disabled at the end of the
    messages exactly when a thinking block of one of them was dropped. *)
Theorem v2_thought_translation_disabled_iff (modelName : string)
    (messages : list (claude.ClaudeMessage.t F)) :
  (messagesV2 modelName messages).2 = false
  <-> exists msg blocks ci,
        msg ∈ messages
        /\ claude.ClaudeMessage.Content msg = claude.ContentItems blocks
        /\ ci ∈ blocks
        /\ isThinkingBlock ci
        /\ droppedV2 modelName ci.
Proof.
  split; [apply messagesV2_lowered|].
  intros (msg & blocks & ci & Hmsg & Hcontent & Hci & Hthinking & Hdropped).
  by eapply dropped_thought_disables_translation.
Qed.

(** *** The thinking configuration *)

Lemma generationConfigV2_thinkingConfig enable (req : claude.ClaudeRequest.t F) :
  claude.generationConfigV2 enable req ≫= claude.GenerationConfig.ThinkingConfig
  = claude.thinkingConfigV2 enable (claude.ClaudeRequest.Thinking req).
Proof.
  unfold claude.generationConfigV2.
  destruct (claude.thinkingConfigV2 _ _) as [cfg|] eqn:Hcfg.
  - rewrite bool_decide_eq_true_2 by done. done.
  - by destruct (_ || _).
Qed.

(** X16.  When no thinking block of the request is
    dropped, the thinking configuration of the translated request follows
    the directive: "adaptive" gives the level "high" with thoughts included
    and no budget; "enabled" with a budget gives that budget, with thoughts
    included exactly when the budget is not zero; "enabled" without a
    budget, another type, or no directive give no thinking configuration. *)
Theorem v2_thinking_config_follows_directive
    (modelName : string) (req : claude.ClaudeRequest.t F)
    (orders : nat -> mapOrder) (c c' : util.SchemaCache) (out : claude.AntigravityRequest.t F) :
  (forall msg blocks ci,
     msg ∈ claude.ClaudeRequest.Messages req ->
     claude.ClaudeMessage.Content msg = claude.ContentItems blocks ->
     ci ∈ blocks ->
     isThinkingBlock ci ->
     thoughtPartV2 GetCachedSignature HasValidSignature modelName ci <> None) ->
  convertV2 modelName req orders c = Ok (out, c') ->
  claude.RequestContent.GenerationConfig (claude.AntigravityRequest.Request out)
    ≫= claude.GenerationConfig.ThinkingConfig
  = match claude.ClaudeRequest.Thinking req with
    | Some th =>
        if decide (claude.ClaudeThinking.Type_ th = "adaptive")
        then Some (claude.ThinkingConfig.mk None "high" true)
        else if decide (claude.ClaudeThinking.Type_ th = "enabled")
        then (fun budget =>
                claude.ThinkingConfig.mk (Some budget) ""
                  (bool_decide (budget <> 0%Z)))
               <$> claude.ClaudeThinking.BudgetTokens th
        else None
    | None => None
    end.
Proof.
  intros Hkept. unfold claude.ConvertClaudeRequestToAntigravityV2.
  destruct (claude.processSystemV2 _) as [systemInstruction hasSystem].
  destruct (messagesV2 modelName _) as [contents flag] eqn:Hmessages.
  assert (flag = true) as ->.
  { destruct flag; [done|].
    destruct (messagesV2_lowered modelName (claude.ClaudeRequest.Messages req))
      as (msg & blocks & ci & Hmsg & Hcontent & Hci & Hthinking & Hdropped);
      [by rewrite Hmessages|].
    by destruct (Hkept msg blocks ci). }
  intros ([decls c1] & _ & [= <- _])%res_bind_Ok.
  cbn [claude.AntigravityRequest.Request claude.RequestContent.GenerationConfig].
  rewrite generationConfigV2_thinkingConfig. unfold claude.thinkingConfigV2.
  destruct (claude.ClaudeRequest.Thinking req) as [[ty budget]|]; [|done].
  cbn [claude.ClaudeThinking.Type_ claude.ClaudeThinking.BudgetTokens andb].
  destruct (decide (ty = "adaptive")) as [->|Hadaptive].
  { by rewrite (bool_decide_eq_true_2 ("adaptive" = "adaptive")). }
  rewrite (bool_decide_eq_false_2 (ty = "adaptive")) by done.
  destruct (decide (ty = "enabled")) as [->|Henabled].
  - rewrite (bool_decide_eq_true_2 ("enabled" = "enabled")) by done.
    by destruct budget.
  - by rewrite (bool_decide_eq_false_2 (ty = "enabled")).
Qed.

(** *** Tool-use blocks *)

(** X17.  The V2 translator emits a part for a tool-use block
    exactly when the block's input is an object or null, or a string whose
    text decodes to an object or to null; the part is then a function call
    under the block's id and name, and no thought part. *)
Theorem v2_tool_use_emitted_iff (ci : claude.ClaudeContentItem.t F)
    (sig : string) :
  let emitted :=
    claude.processToolUseContentV2 HasValidSignature UnmarshalString ci sig in
  (is_Some emitted
   <-> match claude.ClaudeContentItem.Input ci with
       | Some (JObj _) | Some JNull => True
       | Some (JStr text) =>
           match UnmarshalString text with
           | Some (JObj _) | Some JNull => True
           | _ => False
           end
       | _ => False
       end)
  /\ (forall part,
        emitted = Some part ->
        claude.Part.Thought part = None
        /\ claude.Part.FunctionResponse part = None
        /\ exists args,
             claude.Part.FunctionCall part
             = Some (claude.FunctionCall.mk (claude.ClaudeContentItem.ID ci)
                       (claude.ClaudeContentItem.Name ci) (Some args))
             /\ (args = JNull \/ isObject args)).
Proof.
  intros emitted. unfold emitted, claude.processToolUseContentV2.
  destruct (claude.ClaudeContentItem.Input ci) as [input|];
    [|split; [by split; [intros []|]|done]].
  destruct input as [| | |text| |m]; cbn [claude.sonic.UnmarshalMap claude.sonic.UnmarshalStr].
  - split; [done|]. intros part [= <-]. simpl. repeat split; eauto.
  - split; [by split; [intros []|]|done].
  - split; [by split; [intros []|]|done].
  - destruct (UnmarshalString text) as [decoded|]; cbn [mbind option_bind];
      [|split; [by split; [intros []|]|done]].
    destruct decoded as [| | |text'| |m']; cbn [claude.sonic.UnmarshalMap claude.sonic.MarshalMap];
      try (split; [by split; [intros []|]|done]).
    + split; [done|]. intros part [= <-]. simpl. repeat split; eauto.
    + split; [done|]. intros part [= <-]. simpl. repeat split; eauto.
  - split; [by split; [intros []|]|done].
  - split; [done|]. intros part [= <-]. simpl. repeat split; eauto.
Qed.

End v2_invariants.

(** ** V2 translator: tool declarations; the optimized translator *)

Section v2_tools.
Context {F : Type} `{Float64 F} {mapOrder : Type}.
Variable GetCachedSignature : string -> string -> string.
Variable HasValidSignature : string -> string -> bool.
Variable IsClaudeThinkingModel : string -> bool.
Variable computeHash : string -> string.
Variable UnmarshalString : string -> option (json F).
Variable MarshalString : mapOrder -> json F -> option string.
Hypothesis computeHash_inj :
  forall s1 s2, computeHash s1 = computeHash s2 -> s1 = s2.

(** A declaration made of a tool: the name, the description and the
    behavior of the tool, and a text that the cleaner computes for the
    tool's schema without its cache, under some order of the keys. *)
#[local] Abbreviation declares :=
  (fun (tool : claude.ClaudeTool.t) (decl : claude.FunctionDeclaration.t) =>
     claude.FunctionDeclaration.Name decl = claude.ClaudeTool.Name tool
     /\ claude.FunctionDeclaration.Description decl
        = claude.ClaudeTool.Description tool
     /\ claude.FunctionDeclaration.Behavior decl = claude.ClaudeTool.Behavior tool
     /\ exists order,
          cleanUncached UnmarshalString MarshalString order
            (claude.ClaudeTool.InputSchema tool)
          = Ok (claude.FunctionDeclaration.ParametersJSONSchema decl)).

Lemma processToolsV2_declares tools orders c decls c' :
  reachable computeHash UnmarshalString MarshalString c ->
  claude.processToolsV2 computeHash UnmarshalString MarshalString tools
    orders c = Ok (decls, c') ->
  reachable computeHash UnmarshalString MarshalString c'
  /\ Forall2 declares
       (filter (fun tool => claude.ClaudeTool.InputSchema tool <> "") tools)
       decls.
Proof.
  revert orders c decls c'.
  induction tools as [|tool tools IH]; intros orders c decls c' Hreach.
  { intros [= <- <-]. split; [done|]. constructor. }
  cbn [claude.processToolsV2]. rewrite filter_cons.
  destruct (decide (0 < _)) as [Hlen|Hlen].
  - rewrite decide_True
      by (intros Hempty; rewrite Hempty in Hlen; simpl in Hlen; lia).
    intros ([inputSchema c1] & Hclean & Hrest)%res_bind_Ok.
    apply res_bind_Ok in Hrest as ([decls' c2] & Htools & [= <- <-]).
    assert (reachable computeHash UnmarshalString MarshalString c1) as Hreach1
      by (by eapply reachable_clean).
    destruct (IH _ _ _ _ Hreach1 Htools) as [Hreach2 Hdecls].
    split; [done|]. constructor; [|done]. simpl.
    split; [done|]. split; [done|]. split; [done|].
    eapply proj1, (cleaner_sound _ _ _ computeHash_inj); [|done].
    by apply reachable_sound.
  - rewrite decide_False.
    + by apply IH.
    + intros Hne. apply Hne.
      destruct (claude.ClaudeTool.InputSchema tool); [done|]. simpl in Hlen. lia.
Qed.

(** X18.  From a cache that calls of the cleaner produced, a
    translation that returns declares exactly the tools that have a schema,
    in their order, each under its name, description and behavior and with
    a text that the cleaner computes for the tool's schema without its
    cache, under some order of the keys (a text served from the cache was
    computed by an earlier call, under the order of that call); the
    declarations form one tool entry, and no entry when no tool has a
    schema.  The cache afterwards is again one that the cleaner's calls
    produce. *)
Theorem v2_declares_tools_with_schema
    (modelName : string) (req : claude.ClaudeRequest.t F)
    (orders : nat -> mapOrder)
    (c c' : util.SchemaCache) (out : claude.AntigravityRequest.t F) :
  reachable computeHash UnmarshalString MarshalString c ->
  claude.ConvertClaudeRequestToAntigravityV2 GetCachedSignature
    HasValidSignature IsClaudeThinkingModel computeHash UnmarshalString
    MarshalString modelName req orders c = Ok (out, c') ->
  let declared :=
    filter (fun tool => claude.ClaudeTool.InputSchema tool <> "")
           (claude.ClaudeRequest.Tools req) in
  reachable computeHash UnmarshalString MarshalString c'
  /\ exists decls,
       Forall2 declares declared decls
       /\ claude.RequestContent.Tools (claude.AntigravityRequest.Request out)
          = match declared with
            | [] => []
            | _ => [claude.ToolDeclaration.mk decls]
            end.
Proof.
  intros Hreach Hconvert declared. revert Hconvert.
  unfold claude.ConvertClaudeRequestToAntigravityV2.
  destruct (claude.processSystemV2 _) as [systemInstruction hasSystem].
  destruct (claude.processMessagesV2 _ _ _ _ _) as [contents flag].
  intros ([decls c1] & Htools & [= <- <-])%res_bind_Ok.
  destruct (processToolsV2_declares _ _ _ _ _ Hreach Htools)
    as [Hreach' Hdecls].
  split; [done|]. exists decls. split; [done|].
  cbn [claude.AntigravityRequest.Request claude.RequestContent.Tools].
  fold declared in Hdecls.
  destruct Hdecls; [done|]. by rewrite decide_True by (simpl; lia).
Qed.

End v2_tools.

Section optimized_blocks.
Context {F : Type} `{Float64 F}.
Variable GetCachedSignature : string -> string -> string.
Variable HasValidSignature : string -> string -> bool.
Variable Raw : json F -> string.
Variable Parse : string -> option (json F).
Variable GetThinkingText : option (json F) -> string.


(** X20.  The optimized translator emits a part for a
    tool-use block exactly when the block's input is an object, or a string
    whose text parses to an object: an input that is null, or the text of
    null, gives no part. *)
Theorem optimized_tool_use_emitted_iff (contentResult : option (json F))
    (modelName sig : string) :
  is_Some (claude.processToolUseContent HasValidSignature Raw Parse
             contentResult modelName sig)
  <-> match claude.gjson.Get contentResult "input" with
      | Some (JObj _) => True
      | Some (JStr text) =>
          match Parse text with Some (JObj _) => True | _ => False end
      | _ => False
      end.
Proof.
  unfold claude.processToolUseContent.
  destruct (claude.gjson.Get contentResult "input") as [input|];
    [|by split; [intros []|]].
  destruct input as [| | |text| |m];
    cbn [claude.gjson.IsObject claude.gjson.IsString claude.gjson.String];
    try (by split; [intros []|]).
  destruct (Parse text) as [parsed|]; [|by split; [intros []|]].
  destruct parsed; cbn [claude.gjson.IsObject];
    by split; [intros []|].
Qed.

End optimized_blocks.

(** ** Optimized translator: the turns, tool results *)

Section optimized_messages.
Context {F : Type} `{Float64 F}.
Variable GetCachedSignature : string -> string -> string.
Variable HasValidSignature : string -> string -> bool.
Variable Raw : json F -> string.
Variable Parse : string -> option (json F).
Variable GetThinkingText : option (json F) -> string.

#[local] Abbreviation stepO :=
  (claude.contentItemStepOptimized GetCachedSignature HasValidSignature Raw
     Parse GetThinkingText).
#[local] Abbreviation messageO :=
  (claude.messageStepOptimized GetCachedSignature HasValidSignature Raw Parse
     GetThinkingText).
#[local] Abbreviation messagesO :=
  (claude.processMessagesOptimized GetCachedSignature HasValidSignature Raw
     Parse GetThinkingText).

(** A turn as the optimized translator emits it for the model: it has
    parts, its role is not "assistant", and its thought parts carry a
    signature that the validator accepts. *)
#[local] Abbreviation wellFormedTurn modelName :=
  (fun turn : claude.ContentItem.t F =>
     claude.ContentItem.Parts turn <> []
     /\ claude.ContentItem.Role turn <> "assistant"
     /\ Forall (fun p => isThought p ->
                         HasValidSignature modelName
                           (claude.Part.ThoughtSignature p) = true)
               (claude.ContentItem.Parts turn)).
#[local] Abbreviation signedBuffers modelName st :=
  (Forall (fun p : claude.Part.t F =>
             isThought p ->
             HasValidSignature modelName (claude.Part.ThoughtSignature p) = true)
          (claude.thinkingParts st ++ claude.otherParts st
           ++ claude.clientParts st)).

Lemma appendOther_signedBuffers modelName role (st : claude.blockState) part :
  claude.Part.Thought part = None ->
  signedBuffers modelName st ->
  signedBuffers modelName (claude.appendOther role st part).
Proof.
  intros Hpart. rewrite !Forall_app. intros (Ht & Ho & Hc).
  assert (isThought part ->
          HasValidSignature modelName (claude.Part.ThoughtSignature part) = true)
    as Hsigned.
  { unfold isThought. by rewrite Hpart. }
  unfold claude.appendOther.
  destruct (decide _); simpl; rewrite ?Forall_app; repeat split; try done;
    by constructor.
Qed.

Lemma stepO_signedBuffers modelName sessionID role (st : claude.blockState)
    contentResult :
  signedBuffers modelName st ->
  signedBuffers modelName (stepO modelName sessionID role st contentResult).
Proof.
  intros Hst. unfold claude.contentItemStepOptimized.
  destruct (decide (_ = "thinking")).
  { unfold claude.processThinkingContent.
    destruct (negb (HasValidSignature modelName _)) eqn:Hvalid; [done|].
    apply negb_false_iff in Hvalid. rewrite Hvalid.
    revert Hst. rewrite !Forall_app. intros (Ht & Ho & Hc).
    destruct (decide (role = "model")); simpl; rewrite ?Forall_app;
      repeat split; try done; by constructor. }
  destruct (decide (_ = "text")); [by apply appendOther_signedBuffers|].
  destruct (decide (_ = "tool_use")).
  { destruct (claude.processToolUseContent _ _ _ _ _ _) as [part|] eqn:Hpart;
      [|done].
    apply appendOther_signedBuffers; [|done].
    by eapply toolUseOptimized_not_thought. }
  destruct (decide (_ = "tool_result")).
  { destruct (claude.processToolResultContent _ _) as [part|] eqn:Hpart;
      [|done].
    apply appendOther_signedBuffers; [|done].
    by eapply toolResultOptimized_not_thought. }
  destruct (decide (_ = "image")); [|done].
  destruct (claude.processImageContent _ _) as [part|] eqn:Hpart; [|done].
  apply appendOther_signedBuffers; [|done].
  by eapply imageOptimized_not_thought.
Qed.

Lemma foldl_stepO_signedBuffers modelName sessionID role blocks
    (st : claude.blockState) :
  signedBuffers modelName st ->
  signedBuffers modelName (foldl (stepO modelName sessionID role) st blocks).
Proof.
  revert st. induction blocks as [|block blocks IH]; intros st Hst; [done|].
  cbn [foldl]. by apply IH, stepO_signedBuffers.
Qed.

Lemma messageO_wellFormed modelName sessionID contents enable messageResult :
  Forall (wellFormedTurn modelName) contents ->
  Forall (wellFormedTurn modelName)
         (messageO modelName sessionID (contents, enable) messageResult).1.
Proof.
  intros Hcontents. unfold claude.messageStepOptimized.
  destruct (negb _); [done|].
  set (role := if decide (_ = "assistant") then "model" else _).
  assert (role <> "assistant") as Hrole
    by (unfold role; by destruct (decide _)).
  destruct (claude.gjson.IsArray _); cbn [fst].
  - pose proof (foldl_stepO_signedBuffers modelName sessionID role
                  (claude.gjson.Array (claude.gjson.Get messageResult "content"))
                  (claude.BlockState "" [] [] [] enable)) as Hsigned.
    specialize (Hsigned ltac:(done)).
    rewrite !Forall_app in Hsigned. destruct Hsigned as (Ht & Ho & Hc).
    destruct (decide (0 < _)) as [Hlen|]; [|done].
    apply Forall_app. split; [done|]. constructor; [|done]. simpl.
    split; [|split; [done|]].
    + intros Hnil. rewrite Hnil in Hlen. simpl in Hlen. lia.
    + destruct (decide (role = "model")); [by apply Forall_app|done].
  - destruct (claude.gjson.IsString _); [|done]. cbn [fst].
    apply Forall_app. split; [done|]. constructor; [|done]. simpl.
    split; [done|]. split; [done|]. constructor; [|done]. by intros [=].
Qed.

Lemma foldl_messageO_wellFormed modelName sessionID messages contents enable :
  Forall (wellFormedTurn modelName) contents ->
  Forall (wellFormedTurn modelName)
         (foldl (messageO modelName sessionID) (contents, enable) messages).1.
Proof.
  revert contents enable.
  induction messages as [|msg messages IH]; intros contents enable Hcontents;
    [done|].
  cbn [foldl].
  pose proof (messageO_wellFormed modelName sessionID contents enable msg
                Hcontents) as Hstep.
  destruct (messageO modelName sessionID (contents, enable) msg)
    as [contents' enable'].
  by apply IH.
Qed.

(** X21.  Every turn that the optimized translator makes
    of the messages has at least one part and a role other than
    "assistant", and each of its thought parts carries a signature that the
    validator accepts for the model. *)
Theorem optimized_turns_are_well_formed
    (modelName sessionID : string) (messagesResult : option (json F)) :
  Forall (fun turn =>
            claude.ContentItem.Parts turn <> []
            /\ claude.ContentItem.Role turn <> "assistant"
            /\ Forall (fun part =>
                         claude.Part.Thought part = Some true ->
                         HasValidSignature modelName
                           (claude.Part.ThoughtSignature part) = true)
                      (claude.ContentItem.Parts turn))
         (messagesO modelName sessionID messagesResult).1.
Proof.
  unfold claude.processMessagesOptimized.
  destruct (claude.gjson.IsArray messagesResult); [|done].
  pose proof (foldl_messageO_wellFormed modelName sessionID
                (claude.gjson.Array messagesResult) [] true (Forall_nil_2 _))
    as Hturns.
  eapply Forall_impl; [exact Hturns|]. simpl.
  intros turn (Hparts & Hrole & Hsigned). split; [done|]. split; [done|].
  eapply Forall_impl; [exact Hsigned|]. simpl.
  intros part Hpart Hthought. apply Hpart. unfold isThought.
  by rewrite Hthought.
Qed.

(** X22.  The optimized translator drops a
    tool-result block exactly when its tool-use id is empty; otherwise the
    part is a function response under that id, named by the id without its
    trailing two dash-delimited segments (the id itself when it has no
    dash), and the response holds the one key "result". *)
Theorem optimized_tool_result_response (contentResult : option (json F)) :
  let id :=
    claude.gjson.String Raw (claude.gjson.Get contentResult "tool_use_id") in
  match claude.processToolResultContent Raw contentResult with
  | None => id = ""
  | Some part =>
      id <> ""
      /\ claude.Part.Thought part = None
      /\ claude.Part.FunctionCall part = None
      /\ exists result,
           claude.Part.FunctionResponse part
           = Some (claude.FunctionResponse.mk id
                     (if hasByte "-" id then stripTrailingTwoSegments id
                      else id)
                     {[ "result" := result ]})
  end.
Proof.
  intros id. unfold claude.processToolResultContent. fold id.
  destruct (decide (id = "")) as [|Hid]; [done|].
  split; [done|]. split; [done|]. split; [done|]. eexists.
  cbn [claude.Part.FunctionResponse]. do 2 f_equal.
  destruct (decide (1 < _)) as [Hlen|Hlen].
  - apply Split_several in Hlen. by rewrite Hlen.
  - destruct (hasByte _ _) eqn:Hdash; [|done].
    by apply Split_several in Hdash.
Qed.

End optimized_messages.

(** ** The translators at concrete requests *)

Lemma signed_request_translation :
  claude.ConvertClaudeRequestToAntigravityV2 noCachedSignature
    (acceptOnly "valid-token") anyModel id emptyObjectDecoder
    emptyObjectEncoder "m" signed_request ascendingOrders
    util.schemaCache
  = Ok (translated_signed_request, util.Set_ util.schemaCache "{}" "{}").
Proof. vm_compute. reflexivity. Defined.

(** The theorem at [signed_request] and the thought part of its model turn. *)
Lemma v2_thought_parts_carry_valid_signatures_witness :
  let turn := claude.ContentItem.mk "model"
                [ signed_thought; claude.Part.text "a" ] in
  claude.ConvertClaudeRequestToAntigravityV2 noCachedSignature
    (acceptOnly "valid-token") anyModel id emptyObjectDecoder
    emptyObjectEncoder "m" signed_request ascendingOrders
    util.schemaCache
  = Ok (translated_signed_request, util.Set_ util.schemaCache "{}" "{}")
  /\ turn ∈ claude.RequestContent.Contents
              (claude.AntigravityRequest.Request translated_signed_request)
  /\ signed_thought ∈ claude.ContentItem.Parts turn
  /\ claude.Part.Thought signed_thought = Some true
  /\ acceptOnly "valid-token" "m"
       (claude.Part.ThoughtSignature signed_thought) = true.
Proof.
  intros turn.
  assert (turn ∈ claude.RequestContent.Contents
                   (claude.AntigravityRequest.Request translated_signed_request))
    as Hturn by (apply list_elem_of_further, list_elem_of_here).
  assert (signed_thought ∈ claude.ContentItem.Parts turn) as Hpart
    by apply list_elem_of_here.
  split; [exact signed_request_translation|]. split; [exact Hturn|].
  split; [exact Hpart|]. split; [reflexivity|].
  exact (v2_thought_parts_carry_valid_signatures noCachedSignature
           (acceptOnly "valid-token") anyModel id emptyObjectDecoder
           emptyObjectEncoder "m" signed_request ascendingOrders _ _ _
           signed_request_translation turn signed_thought Hturn Hpart eq_refl).
Defined.

(** The theorem at [signed_request]. *)
Lemma v2_emits_no_empty_turn_witness :
  claude.ConvertClaudeRequestToAntigravityV2 noCachedSignature
    (acceptOnly "valid-token") anyModel id emptyObjectDecoder
    emptyObjectEncoder "m" signed_request ascendingOrders
    util.schemaCache
  = Ok (translated_signed_request, util.Set_ util.schemaCache "{}" "{}")
  /\ forall turn,
       turn ∈ claude.RequestContent.Contents
                (claude.AntigravityRequest.Request translated_signed_request) ->
       claude.ContentItem.Parts turn <> []
       /\ claude.ContentItem.Role turn <> "assistant".
Proof.
  split; [exact signed_request_translation|].
  exact (proj1 (v2_emits_no_empty_turn noCachedSignature
                  (acceptOnly "valid-token") anyModel id emptyObjectDecoder
                  emptyObjectEncoder "m" signed_request ascendingOrders _ _ _
                  signed_request_translation)).
Defined.

(** No thinking block of [signed_request] is dropped. *)
Lemma signed_request_keeps_thoughts msg blocks ci :
  msg ∈ claude.ClaudeRequest.Messages signed_request ->
  claude.ClaudeMessage.Content msg = claude.ContentItems blocks ->
  ci ∈ blocks ->
  isThinkingBlock ci ->
  thoughtPartV2 noCachedSignature (acceptOnly "valid-token") "m" ci <> None.
Proof.
  intros Hmsg Hcontent Hci Hthinking.
  apply elem_of_cons in Hmsg as [Hmsg|Hmsg];
    [rewrite Hmsg in Hcontent; discriminate|].
  apply elem_of_cons in Hmsg as [Hmsg|Hmsg];
    [|by apply elem_of_nil in Hmsg].
  rewrite Hmsg in Hcontent. injection Hcontent as Hblocks.
  rewrite <- Hblocks in Hci.
  apply elem_of_cons in Hci as [Hci|Hci];
    [rewrite Hci in Hthinking; discriminate|].
  apply elem_of_cons in Hci as [Hci|Hci];
    [|by apply elem_of_nil in Hci].
  rewrite Hci. vm_compute. discriminate.
Defined.

(** The theorem at [signed_request]: the budget zero, thoughts not included. *)
Lemma v2_thinking_config_follows_directive_witness :
  (forall msg blocks ci,
     msg ∈ claude.ClaudeRequest.Messages signed_request ->
     claude.ClaudeMessage.Content msg = claude.ContentItems blocks ->
     ci ∈ blocks ->
     isThinkingBlock ci ->
     thoughtPartV2 noCachedSignature (acceptOnly "valid-token") "m" ci <> None)
  /\ claude.ConvertClaudeRequestToAntigravityV2 noCachedSignature
       (acceptOnly "valid-token") anyModel id emptyObjectDecoder
       emptyObjectEncoder "m" signed_request ascendingOrders
    util.schemaCache
     = Ok (translated_signed_request, util.Set_ util.schemaCache "{}" "{}")
  /\ claude.RequestContent.GenerationConfig
       (claude.AntigravityRequest.Request translated_signed_request)
     ≫= claude.GenerationConfig.ThinkingConfig
     = Some (claude.ThinkingConfig.mk (Some 0%Z) "" false).
Proof.
  split; [exact signed_request_keeps_thoughts|].
  split; [exact signed_request_translation|].
  rewrite (v2_thinking_config_follows_directive noCachedSignature
             (acceptOnly "valid-token") anyModel id emptyObjectDecoder
             emptyObjectEncoder "m" signed_request ascendingOrders _ _ _
             signed_request_keeps_thoughts signed_request_translation).
  vm_compute. reflexivity.
Defined.

(** The theorem at [titled_tool_request], translated under the ascending
    order from a cache that a call under the descending order filled: the
    declaration carries the text of the descending order. *)
Lemma v2_declares_tools_with_schema_witness :
  let decoder := readKnown [titled_string_schema] in
  (forall s1 s2 : string, id s1 = id s2 -> s1 = s2)
  /\ reachable id decoder writeJSON cache_filled_descending
  /\ claude.ConvertClaudeRequestToAntigravityV2 noCachedSignature
       (acceptOnly "valid-token") anyModel id decoder writeJSON "m"
       titled_tool_request ascendingOrders cache_filled_descending
     = Ok (translated_titled_tool_request, cache_filled_descending)
  /\ exists decls,
       Forall2
         (fun tool decl =>
            claude.FunctionDeclaration.Name decl = claude.ClaudeTool.Name tool
            /\ claude.FunctionDeclaration.Description decl
               = claude.ClaudeTool.Description tool
            /\ claude.FunctionDeclaration.Behavior decl
               = claude.ClaudeTool.Behavior tool
            /\ exists order,
                 cleanUncached decoder writeJSON order
                   (claude.ClaudeTool.InputSchema tool)
                 = Ok (claude.FunctionDeclaration.ParametersJSONSchema decl))
         [ claude.ClaudeTool.mk "lookup" "looks things up"
             titled_string_ascending "" ]
         decls
       /\ claude.RequestContent.Tools
            (claude.AntigravityRequest.Request translated_titled_tool_request)
          = [ claude.ToolDeclaration.mk decls ].
Proof.
  intros decoder.
  assert (forall s1 s2 : string, id s1 = id s2 -> s1 = s2) as Hinj
    by (intros s1 s2 Heq; exact Heq).
  assert (util.CleanJSONSchemaForAntigravityOptimized id decoder writeJSON
            Descending titled_string_ascending util.schemaCache
          = Ok (titled_string_descending, cache_filled_descending)) as Hfill
    by (vm_compute; reflexivity).
  assert (reachable id decoder writeJSON cache_filled_descending) as Hreach
    by exact (reachable_clean _ _ _ _ _ _ _ _ (reachable_initial _ _ _) Hfill).
  assert (claude.ConvertClaudeRequestToAntigravityV2 noCachedSignature
            (acceptOnly "valid-token") anyModel id decoder writeJSON "m"
            titled_tool_request ascendingOrders cache_filled_descending
          = Ok (translated_titled_tool_request, cache_filled_descending))
    as Hconvert by (vm_compute; reflexivity).
  split; [exact Hinj|]. split; [exact Hreach|]. split; [exact Hconvert|].
  exact (proj2 (v2_declares_tools_with_schema noCachedSignature
                  (acceptOnly "valid-token") anyModel id decoder writeJSON
                  Hinj "m" titled_tool_request ascendingOrders _ _ _
                  Hreach Hconvert)).
Defined.

